(** * Fret diagrams of the engraving engine: state, mutators, serialization

    Shallow embedding of [src/engraving/libmscore/fret.cpp].  The three
    sparse containers of a diagram ([std::map<int, ...>]) are finite maps
    keyed by [Z]; C++ [int] is [Z]; a [std::vector] is a [list].  Every
    mutator is a function from diagram to diagram.  Where the source adds
    stored values that no check bounds (the fret numbers of the MusicXML
    export) the 32-bit sum is written out ([int_add]); the other sums
    are indices, and the statements about them bound the operands by the
    string count, where the sum of two [int]s is the exact one. *)

From Stdlib Require Import ZArith String Ascii List Lia Bool.
From stdpp Require Import base tactics option list gmap fin_maps strings sorting.

Local Open Scope Z_scope.

(** The sum of two [int]s as the compiled code computes it: the exact
    sum reduced to 32 bits in two's complement. *)
Definition int_add (a b : Z) : Z :=
  (a + b + 2147483648) mod 4294967296 - 2147483648.

(** ** Value types (FretItem) *)

Inductive FretDotType := DOT_NORMAL | DOT_CROSS | DOT_SQUARE | DOT_TRIANGLE.
Inductive FretMarkerType := MARKER_NONE | MARKER_CIRCLE | MARKER_CROSS.

#[global] Instance FretDotType_eq_dec : EqDecision FretDotType.
Proof. solve_decision. Defined.
#[global] Instance FretMarkerType_eq_dec : EqDecision FretMarkerType.
Proof. solve_decision. Defined.

Module FretItem.

Record Dot := mkDot { fret : Z; dtype : FretDotType }.
Record Marker := mkMarker { mtype : FretMarkerType }.
Record Barre := mkBarre { startString : Z; endString : Z }.

(** Modelled from the spec: the header [fret.h] with the bodies of
    [Dot::exists], [Marker::exists] and [Barre::exists] is absent.
    Spec §3: a dot's fret 0 is the "does not exist" sentinel and frets
    are numbered from 1; a marker of type NONE is no marker; a barre is
    removed by start string -1 and its start lies in [0, stringCount). *)
Definition Dot_exists (d : Dot) : bool := 0 <? fret d.
Definition Marker_exists (m : Marker) : bool :=
  bool_decide (mtype m ≠ MARKER_NONE).
Definition Barre_exists (b : Barre) : bool := -1 <? startString b.

(** [FretItem::markerToChar]: the UTF-16 code unit of the legacy marker
    letter; [Char()] is the null character. *)
Definition markerToChar (t : FretMarkerType) : Z :=
  match t with
  | MARKER_CIRCLE => 79   (* 'O' *)
  | MARKER_CROSS => 88    (* 'X' *)
  | MARKER_NONE => 0
  end.

(** The two name tables, in the order of the source. *)
Definition markerTypeNameMap : list (FretMarkerType * string) :=
  [ (MARKER_CIRCLE, "circle"%string);
    (MARKER_CROSS, "cross"%string);
    (MARKER_NONE, "none"%string) ].

Definition dotTypeNameMap : list (FretDotType * string) :=
  [ (DOT_NORMAL, "normal"%string);
    (DOT_CROSS, "cross"%string);
    (DOT_SQUARE, "square"%string);
    (DOT_TRIANGLE, "triangle"%string) ].

(** The lookups scan the table front to back; a miss yields the empty
    string (after the assertion) or the default type (after the
    warning). *)
Definition markerTypeToName (t : FretMarkerType) : string :=
  match List.find (λ i, bool_decide (i.1 = t)) markerTypeNameMap with
  | Some i => i.2
  | None => ""%string
  end.

Definition nameToMarkerType (n : string) : FretMarkerType :=
  match List.find (λ i, bool_decide (i.2 = n)) markerTypeNameMap with
  | Some i => i.1
  | None => MARKER_NONE
  end.

Definition dotTypeToName (t : FretDotType) : string :=
  match List.find (λ i, bool_decide (i.1 = t)) dotTypeNameMap with
  | Some i => i.2
  | None => ""%string
  end.

Definition nameToDotType (n : string) : FretDotType :=
  match List.find (λ i, bool_decide (i.2 = n)) dotTypeNameMap with
  | Some i => i.1
  | None => DOT_NORMAL
  end.

End FretItem.

Export FretItem.

#[global] Instance Dot_eq_dec : EqDecision Dot.
Proof. solve_decision. Defined.
#[global] Instance Marker_eq_dec : EqDecision Marker.
Proof. solve_decision. Defined.
#[global] Instance Barre_eq_dec : EqDecision Barre.
Proof. solve_decision. Defined.

(** ** The diagram *)

Record FretDiagram := mkFretDiagram {
  _strings : Z;
  _frets : Z;
  _fretOffset : Z;
  _dots : gmap Z (list Dot);
  _markers : gmap Z Marker;
  _barres : gmap Z Barre
}.

Definition with_strings (n : Z) (fd : FretDiagram) : FretDiagram :=
  mkFretDiagram n (_frets fd) (_fretOffset fd) (_dots fd) (_markers fd) (_barres fd).
Definition with_dots (m : gmap Z (list Dot)) (fd : FretDiagram) : FretDiagram :=
  mkFretDiagram (_strings fd) (_frets fd) (_fretOffset fd) m (_markers fd) (_barres fd).
Definition with_markers (m : gmap Z Marker) (fd : FretDiagram) : FretDiagram :=
  mkFretDiagram (_strings fd) (_frets fd) (_fretOffset fd) (_dots fd) m (_barres fd).
Definition with_barres (m : gmap Z Barre) (fd : FretDiagram) : FretDiagram :=
  mkFretDiagram (_strings fd) (_frets fd) (_fretOffset fd) (_dots fd) (_markers fd) m.

(** [setFrets] and [setFretOffset] are one-line setters of the header. *)
Definition setFrets (n : Z) (fd : FretDiagram) : FretDiagram :=
  mkFretDiagram (_strings fd) n (_fretOffset fd) (_dots fd) (_markers fd) (_barres fd).
Definition setFretOffset (n : Z) (fd : FretDiagram) : FretDiagram :=
  mkFretDiagram (_strings fd) (_frets fd) n (_dots fd) (_markers fd) (_barres fd).

(** ** Accessors *)

(** [FretDiagram::dot(s, f = 0)]. *)
Definition dot (fd : FretDiagram) (s f : Z) : list Dot :=
  match _dots fd !! s with
  | Some l =>
      if bool_decide (f ≠ 0) then
        match List.find (λ d, bool_decide (fret d = f)) l with
        | Some d => [d]
        | None => [mkDot 0 DOT_NORMAL]
        end
      else l
  | None => [mkDot 0 DOT_NORMAL]
  end.

(** [FretDiagram::marker(s)]. *)
Definition marker (fd : FretDiagram) (s : Z) : Marker :=
  match _markers fd !! s with
  | Some m => m
  | None => mkMarker MARKER_NONE
  end.

(** [FretDiagram::barre(f)]. *)
Definition barre (fd : FretDiagram) (f : Z) : Barre :=
  match _barres fd !! f with
  | Some b => b
  | None => mkBarre (-1) (-1)
  end.

(** ** Removal helpers *)

(** [FretDiagram::removeBarre(f)]. *)
Definition removeBarre (f : Z) (fd : FretDiagram) : FretDiagram :=
  with_barres (delete f (_barres fd)) fd.

(** The test of [removeBarres]: the barre exists and crosses [string]. *)
Definition crosses (string : Z) (b : Barre) : bool :=
  Barre_exists b && (startString b <=? string)
    && ((string <=? endString b) || (endString b =? -1)).

(** [FretDiagram::removeBarres(string, fret = 0)]: the iterator loop
    erases exactly the entries that cross [string] and, for a positive
    [fret], sit at that fret. *)
Definition removeBarres (string fret : Z) (fd : FretDiagram) : FretDiagram :=
  with_barres
    (filter (λ kb, ¬ (crosses string kb.2 = true
                      ∧ ¬ (0 < fret ∧ fret ≠ kb.1)))
            (_barres fd)) fd.

(** [FretDiagram::removeMarker(s)]; every caller checks that the marker
    exists, so the iterator handed to [erase] is valid. *)
Definition removeMarker (s : Z) (fd : FretDiagram) : FretDiagram :=
  with_markers (delete s (_markers fd)) fd.

(** [FretDiagram::removeDot(s, f = 0)]: [_dots[s]] is overwritten (by
    the surviving dots, or cleared) and the key is erased when the vector
    is left empty. *)
Definition removeDot (s f : Z) (fd : FretDiagram) : FretDiagram :=
  let tempDots :=
    if 0 <? f then
      List.filter (λ d, Dot_exists d && negb (fret d =? f)) (dot fd s 0)
    else [] in
  let fd := with_dots (<[s := tempDots]> (_dots fd)) fd in
  if bool_decide (length (default [] (_dots fd !! s)) = 0%nat)
  then with_dots (delete s (_dots fd)) fd
  else fd.

(** [FretDiagram::removeDotsMarkers(ss, es, fret)]: the loop runs over
    [ss .. end] inclusive, with [end = _strings] for an open barre. *)
Definition removeDotsMarkers_step (fret : Z) (fd : FretDiagram) (string : Z)
  : FretDiagram :=
  let fd := removeDot string fret fd in
  if Marker_exists (marker fd string) then removeMarker string fd else fd.

Definition removeDotsMarkers (ss es fret : Z) (fd : FretDiagram) : FretDiagram :=
  if ss =? -1 then fd
  else
    let e := if es =? -1 then _strings fd else es in
    fold_left (removeDotsMarkers_step fret) (seqZ ss (e - ss + 1)) fd.

(** ** Mutators *)

(** [FretDiagram::setMarker(string, mtype)]. *)
Definition setMarker (string : Z) (mt : FretMarkerType) (fd : FretDiagram)
  : FretDiagram :=
  if (0 <=? string) && (string <? _strings fd) then
    let fd := with_markers (<[string := mkMarker mt]> (_markers fd)) fd in
    if bool_decide (mt ≠ MARKER_NONE) then
      removeBarres string 0 (removeDot string 0 fd)
    else fd
  else fd.

(** [FretDiagram::setDot(string, fret, add = false, dtype = NORMAL)].
    [_dots[string]] default-constructs an empty vector for a new key. *)
Definition push_dot (string : Z) (d : Dot) (fd : FretDiagram) : FretDiagram :=
  with_dots (<[string := default [] (_dots fd !! string) ++ [d]]> (_dots fd)) fd.

Definition setDot (string fret : Z) (add : bool) (dt : FretDotType)
    (fd : FretDiagram) : FretDiagram :=
  if fret =? 0 then removeDot string fret fd
  else if (0 <=? string) && (string <? _strings fd) then
    if add then
      match dot fd string fret with
      | d0 :: _ =>
          if Dot_exists d0 then removeDot string fret fd
          else push_dot string (mkDot fret dt) fd
      | [] => fd  (* unreachable: see [dot_fret_nonempty] *)
      end
    else
      let fd := with_dots (<[string := []]> (_dots fd)) fd in
      let fd := push_dot string (mkDot fret dt) fd in
      setMarker string MARKER_NONE fd
  else fd.

(** [FretDiagram::setBarre(startString, endString, fret)]. *)
Definition setBarre (ss es fret : Z) (fd : FretDiagram) : FretDiagram :=
  if ss =? -1 then removeBarre fret fd
  else if (0 <=? ss) && (-1 <=? es) && (ss <? _strings fd) && (es <? _strings fd)
  then with_barres (<[fret := mkBarre ss es]> (_barres fd)) fd
  else fd.

(** [FretDiagram::setBarre(string, fret, add)], the toggle used for
    shift-clicks; [add] is unused by the source. *)
Definition setBarre_toggle (string fret : Z) (add : bool) (fd : FretDiagram)
  : FretDiagram :=
  let b := barre fd fret in
  if negb (Barre_exists b) then
    if string <? _strings fd - 1 then
      removeDotsMarkers string (-1) fret
        (with_barres (<[fret := mkBarre string (-1)]> (_barres fd)) fd)
    else fd
  else if (endString b =? -1) && (startString b <? string) then
    with_barres (<[fret := mkBarre (startString b) string]> (_barres fd)) fd
  else
    removeBarre fret (removeDotsMarkers (startString b) (endString b) fret fd).

(** [FretDiagram::clear()]. *)
Definition clear (fd : FretDiagram) : FretDiagram :=
  mkFretDiagram (_strings fd) (_frets fd) (_fretOffset fd) ∅ ∅ ∅.

(** [FretDiagram::setStrings(n)].  The first loop rebuilds the dot and
    marker maps in two temporaries; the second one walks the visible
    frets.  The shifted indices are written as exact sums: they are the
    [int] sums of the source whenever the barre's ends lie below the
    string count, which the statements about shifted barres assume. *)
Definition setStrings_push (key : Z) (td : gmap Z (list Dot)) (d : Dot)
  : gmap Z (list Dot) :=
  if Dot_exists d then <[key := default [] (td !! key) ++ [d]]> td else td.

Definition setStrings_move (fd : FretDiagram) (difference : Z)
    (acc : gmap Z (list Dot) * gmap Z Marker) (string : Z)
  : gmap Z (list Dot) * gmap Z Marker :=
  if string + difference <? 0 then acc
  else
    (fold_left (setStrings_push (string + difference)) (dot fd string 0) acc.1,
     if Marker_exists (marker fd string)
     then <[string + difference := marker fd string]> acc.2
     else acc.2).

Definition setStrings_barre (difference : Z) (fd : FretDiagram) (fret : Z)
  : FretDiagram :=
  if Barre_exists (barre fd fret) then
    let b := barre fd fret in
    if startString b + difference <=? 0 then removeBarre fret fd
    else
      with_barres
        (<[fret := mkBarre (Z.max 0 (startString b + difference))
                           (if endString b =? -1 then -1
                            else endString b + difference)]>
           (_barres fd)) fd
  else fd.

Definition setStrings (n : Z) (fd : FretDiagram) : FretDiagram :=
  let difference := n - _strings fd in
  if (difference =? 0) || (n <=? 0) then fd
  else
    let temp :=
      fold_left (setStrings_move fd difference) (seqZ 0 (_strings fd)) (∅, ∅) in
    let fd := with_markers temp.2 (with_dots temp.1 fd) in
    let fd := fold_left (setStrings_barre difference) (seqZ 1 (_frets fd)) fd in
    with_strings n fd.

(** ** Parse constructor *)

(** Modelled from the spec: [Char::digitValue] belongs to the absent
    string library; "any digit d" is a decimal digit character, every
    other character has no digit value (-1). *)
Definition digitValue (c : ascii) : Z :=
  let n := Z.of_N (N_of_ascii c) in
  if (48 <=? n) && (n <=? 57) then n - 48 else -1.

(** [Factory::makeFretDiagram]: a new diagram has empty containers and
    fret offset 0; its string and fret counts come from the score style
    (absent), hence the two parameters. *)
Definition makeFretDiagram (strings0 frets0 : Z) : FretDiagram :=
  mkFretDiagram strings0 frets0 0 ∅ ∅ ∅.

(** The state threaded through the scanning loop of [createFromString]. *)
Record ScanState := mkScan {
  scan_fd : FretDiagram;
  scan_offset : Z;
  scan_barreString : Z;
  scan_dotsToAdd : list (Z * Z)
}.

Definition scan_step (i : Z) (c : ascii) (st : ScanState) : ScanState :=
  if bool_decide (c = "X"%char ∨ c = "O"%char) then
    let mt := if bool_decide (c = "X"%char) then MARKER_CROSS else MARKER_CIRCLE in
    mkScan (setMarker i mt (scan_fd st)) (scan_offset st)
           (scan_barreString st) (scan_dotsToAdd st)
  else if bool_decide (c = "-"%char) && (scan_barreString st =? -1) then
    mkScan (scan_fd st) (scan_offset st) i (scan_dotsToAdd st)
  else
    let fret := digitValue c in
    if negb (fret =? -1) then
      mkScan (scan_fd st)
             (if (0 <? fret - 3) && (scan_offset st <? fret - 3)
              then fret - 3 else scan_offset st)
             (scan_barreString st)
             (scan_dotsToAdd st ++ [(i, fret)])
    else st.

Fixpoint scan (i : Z) (cs : list ascii) (st : ScanState) : ScanState :=
  match cs with
  | [] => st
  | c :: cs => scan (i + 1) cs (scan_step i c st)
  end.

(** [FretDiagram::createFromString(score, s)]. *)
Definition createFromString (strings0 frets0 : Z) (s : string) : FretDiagram :=
  let fd := makeFretDiagram strings0 frets0 in
  let strings := Z.of_nat (String.length s) in
  let fd := setStrings strings fd in
  let fd := setFrets 4 fd in
  let st := scan 0 (list_ascii_of_string s) (mkScan fd 0 (-1) []) in
  let offset := scan_offset st in
  let fd := scan_fd st in
  let fd := if 0 <? offset then setFretOffset offset fd else fd in
  let fd := fold_left (λ acc d, setDot d.1 (d.2 - offset) true DOT_NORMAL acc)
                      (scan_dotsToAdd st) fd in
  if 0 <=? scan_barreString st then setBarre (scan_barreString st) (-1) 1 fd
  else fd.

(** ** Serialization *)

(** The XML reader and writer are external; a document is kept as the
    tree the writer builds and the reader walks.  The content of a tag
    stays typed: the writer's overloads for numbers and strings are the
    two constructors and [readInt]/[readText] project them back. *)
Inductive XmlValue := XNone | XInt (z : Z) | XText (s : string).

#[local] Unset Elimination Schemes.
Inductive Xml :=
  XElement (name : string) (attrs : list (string * Z)) (value : XmlValue)
           (children : list Xml).
#[local] Set Elimination Schemes.

Definition xml_name (e : Xml) : string := let 'XElement n _ _ _ := e in n.
Definition xml_attrs (e : Xml) : list (string * Z) := let 'XElement _ a _ _ := e in a.
Definition xml_value (e : Xml) : XmlValue := let 'XElement _ _ v _ := e in v.
Definition xml_children (e : Xml) : list Xml := let 'XElement _ _ _ c := e in c.

Definition intAttribute (e : Xml) (name : string) (def : Z) : Z :=
  match List.find (λ a, bool_decide (a.1 = name)) (xml_attrs e) with
  | Some a => a.2
  | None => def
  end.

Definition readInt (e : Xml) : Z :=
  match xml_value e with XInt z => z | _ => 0 end.
Definition readText (e : Xml) : string :=
  match xml_value e with XText s => s | _ => ""%string end.
Definition readBool (e : Xml) : bool := negb (readInt e =? 0).

(** [dotExists] of the three writers. *)
Definition dotExists (allDots : list Dot) : bool := existsb Dot_exists allDots.

(** [FretDiagram::writeNew]: the children of the [fretDiagram] element. *)
Definition writeNew_string (fd : FretDiagram) (i : Z) : list Xml :=
  let m := marker fd i in
  let allDots := dot fd i 0 in
  if negb (dotExists allDots) && negb (Marker_exists m) then []
  else
    [ XElement "string" [("no"%string, i)] XNone
        ((if Marker_exists m
          then [XElement "marker" [] (XText (markerTypeToName (mtype m))) []]
          else [])
         ++ flat_map
              (λ d, if Dot_exists d
                    then [XElement "dot" [("fret"%string, fret d)]
                                   (XText (dotTypeToName (dtype d))) []]
                    else [])
              allDots) ].

Definition writeNew_barre (fd : FretDiagram) (f : Z) : list Xml :=
  let b := barre fd f in
  if negb (Barre_exists b) then []
  else [ XElement "barre"
           [("start"%string, startString b); ("end"%string, endString b)]
           (XInt f) [] ].

Definition writeNew (fd : FretDiagram) : list Xml :=
  flat_map (writeNew_string fd) (seqZ 0 (_strings fd))
  ++ flat_map (writeNew_barre fd) (seqZ 1 (_frets fd)).

(** [FretDiagram::readNew]: tags that are not handled here go to the
    generic property reader or are skipped; neither touches the maps. *)
Definition readNew_string_child (no : Z) (fd : FretDiagram) (c : Xml) : FretDiagram :=
  if bool_decide (xml_name c = "dot"%string) then
    let fret := intAttribute c "fret" 0 in
    let dt := nameToDotType (readText c) in
    setDot no fret true dt fd
  else if bool_decide (xml_name c = "marker"%string) then
    setMarker no (nameToMarkerType (readText c)) fd
  else fd.

Definition readNew_child (fd : FretDiagram) (e : Xml) : FretDiagram :=
  if bool_decide (xml_name e = "string"%string) then
    let no := intAttribute e "no" 0 in
    fold_left (readNew_string_child no) (xml_children e) fd
  else if bool_decide (xml_name e = "barre"%string) then
    let start := intAttribute e "start" (-1) in
    let end_ := intAttribute e "end" (-1) in
    let fret := readInt e in
    setBarre start end_ fret fd
  else fd.

Definition readNew (doc : list Xml) (fd : FretDiagram) : FretDiagram :=
  fold_left readNew_child doc fd.

(** [std::map] iterates in ascending key order. *)
Definition key_le (a b : Z * Barre) : Prop := a.1 ≤ b.1.
#[global] Instance key_le_dec a b : Decision (key_le a b).
Proof. unfold key_le. apply _. Defined.
Definition barre_entries (m : gmap Z Barre) : list (Z * Barre) :=
  merge_sort key_le (map_to_list m).

(** First loop of [writeOld]: the lowest fret with a dot and the string
    where it was met first, as the pair
    [(lowestDotFret, furthestLeftLowestDot)], both -1 at the start. *)
Definition lowest_step (i : Z) (acc : Z * Z) (d : Dot) : Z * Z :=
  if Dot_exists d then
    if (fret d <? acc.1) || (acc.1 =? -1) then (fret d, i)
    else if (fret d =? acc.1) && ((i <? acc.2) || (acc.2 =? -1)) then (acc.1, i)
    else acc
  else acc.

Definition lowestDot_string (fd : FretDiagram) (acc : Z * Z) (i : Z) : Z * Z :=
  let allDots := dot fd i 0 in
  if negb (dotExists allDots) then acc
  else fold_left (lowest_step i) allDots acc.

Definition lowestDot (fd : FretDiagram) : Z * Z :=
  fold_left (lowestDot_string fd) (seqZ 0 (_strings fd)) (-1, -1).

(** Second loop of [writeOld]: the first barre, by fret, that passes the
    test, as [(barreStartString, barreFret)], both -1 when there is
    none. *)
Definition oldBarreTest (lowestDotFret furthestLeftLowestDot : Z)
    (kb : Z * Barre) : bool :=
  Barre_exists kb.2
  && ((kb.1 <=? lowestDotFret) && (endString kb.2 =? -1)
      && negb ((kb.1 =? lowestDotFret)
               && (furthestLeftLowestDot <? startString kb.2))).

Definition oldBarre (fd : FretDiagram) : Z * Z :=
  let '(lowestDotFret, furthestLeftLowestDot) := lowestDot fd in
  match List.find (oldBarreTest lowestDotFret furthestLeftLowestDot)
                  (barre_entries (_barres fd)) with
  | Some kb => (startString kb.2, kb.1)
  | None => (-1, -1)
  end.

(** Third loop of [writeOld] and the closing flag. *)
Definition writeOld_string (fd : FretDiagram) (barreStartString barreFret i : Z)
  : list Xml :=
  let m := marker fd i in
  let allDots := dot fd i 0 in
  if negb (dotExists allDots) && negb (Marker_exists m)
     && negb (i =? barreStartString) then []
  else
    [ XElement "string" [("no"%string, i)] XNone
        ((if Marker_exists m
          then [XElement "marker" [] (XInt (markerToChar (mtype m))) []]
          else [])
         ++ flat_map
              (λ d, if Dot_exists d
                       && negb ((i =? barreStartString) && (fret d =? barreFret))
                    then [XElement "dot" [] (XInt (fret d)) []]
                    else [])
              allDots
         ++ (if barreStartString =? i
             then [XElement "dot" [] (XInt barreFret) []]
             else [])) ].

Definition writeOld (fd : FretDiagram) : list Xml :=
  let '(barreStartString, barreFret) := oldBarre fd in
  flat_map (writeOld_string fd barreStartString barreFret) (seqZ 0 (_strings fd))
  ++ (if 0 <? barreFret then [XElement "barre" [] (XInt 1) []] else []).

(** [FretDiagram::read].  The loop state is the diagram with the two
    flags [hasBarre] and [haveReadNew]; properties outside the model
    (nut, orientation, magnification, harmony) leave it unchanged.
    [Char(e.readInt())] keeps the low 16 bits of the number. *)
Record ReadState := mkRead {
  read_fd : FretDiagram;
  hasBarre : bool;
  haveReadNew : bool
}.

Definition read_string_child (no : Z) (fd : FretDiagram) (c : Xml) : FretDiagram :=
  if bool_decide (xml_name c = "dot"%string) then
    setDot no (readInt c) false DOT_NORMAL fd
  else if bool_decide (xml_name c = "marker"%string) then
    setMarker no (if readInt c mod 65536 =? 88 then MARKER_CROSS else MARKER_CIRCLE) fd
  else fd.

Definition read_child (st : ReadState) (e : Xml) : ReadState :=
  let tag := xml_name e in
  if haveReadNew st then st
  else if bool_decide (tag = "fretDiagram"%string) then
    mkRead (readNew (xml_children e) (read_fd st)) (hasBarre st) true
  else if bool_decide (tag = "strings"%string) then
    mkRead (setStrings (readInt e) (read_fd st)) (hasBarre st) false
  else if bool_decide (tag = "frets"%string) then
    mkRead (setFrets (readInt e) (read_fd st)) (hasBarre st) false
  else if bool_decide (tag = "fretOffset"%string) then
    mkRead (setFretOffset (readInt e) (read_fd st)) (hasBarre st) false
  else if bool_decide (tag = "string"%string) then
    let no := intAttribute e "no" 0 in
    mkRead (fold_left (read_string_child no) (xml_children e) (read_fd st))
           (hasBarre st) false
  else if bool_decide (tag = "barre"%string) then
    mkRead (read_fd st) (readBool e) false
  else st.

(** "Old handling of barres": the first existing dot, by string and
    then by position, names the barre. *)
Definition firstDot (fd : FretDiagram) : option (Z * Dot) :=
  List.find (λ sd, Dot_exists sd.2)
    (flat_map (λ s, (λ d, (s, d)) <$> dot fd s 0) (seqZ 0 (_strings fd))).

Definition read (doc : list Xml) (fd : FretDiagram) : FretDiagram :=
  let st := fold_left read_child doc (mkRead fd false false) in
  if hasBarre st then
    match firstDot (read_fd st) with
    | Some (s, d) => setBarre s (-1) (fret d) (read_fd st)
    | None => read_fd st
    end
  else read_fd st.

(** ** The whole element: write, init, undo data, MusicXML *)

(** [FretDiagram::write]: the children of the diagram's element.  The
    tags of the generic property writer and of the harmony come from
    outside the model ([props]); then the current format in its own
    [fretDiagram] element, then the legacy tags.  Nothing is written
    when the context refuses the element. *)
Definition write (canWrite : bool) (props : list Xml) (fd : FretDiagram)
  : list Xml :=
  if negb canWrite then []
  else props ++ [XElement "fretDiagram" [] XNone (writeNew fd)] ++ writeOld fd.

(** [FretDiagram::init(stringData, chord)].  The string data is absent
    or gives the numbers of strings and frets; [notes] holds, for every
    note of the chord, what [StringData::convertPitch] returns: the
    string and fret, or nothing when the pitch cannot be played.  The
    branch without string data only sets [_maxFrets], a field outside
    the model. *)
Definition init (stringData : option (Z * Z)) (notes : list (option (Z * Z)))
    (fd : FretDiagram) : FretDiagram :=
  let fd := match stringData with
            | None => setStrings 6 fd
            | Some sd => setStrings sd.1 fd
            end in
  match stringData with
  | Some sd =>
      let fd := fold_left (λ acc string, setMarker string MARKER_CROSS acc)
                          (seqZ 0 (_strings fd)) fd in
      let fd := fold_left
                  (λ acc note,
                     match note with
                     | Some sf => setDot sf.1 sf.2 false DOT_NORMAL acc
                     | None => acc
                     end) notes fd in
      setFrets sd.2 fd
  | None => fd
  end.

(** [FretUndoData]: the copy of the three maps, with the flag that a
    diagram was given ([_diagram] is not null). *)
Record FretUndoData := mkFretUndoData {
  u_diagram : bool;
  u_dots : gmap Z (list Dot);
  u_markers : gmap Z Marker;
  u_barres : gmap Z Barre
}.

(** [FretUndoData::FretUndoData(fd)]. *)
Definition FretUndoData_new (fd : FretDiagram) : FretUndoData :=
  mkFretUndoData true (_dots fd) (_markers fd) (_barres fd).

(** [FretUndoData::updateDiagram()], applied to the present state of the
    diagram it points to; without a diagram it returns after the
    assertion. *)
Definition updateDiagram (u : FretUndoData) (fd : FretDiagram) : FretDiagram :=
  if negb (u_diagram u) then fd
  else mkFretDiagram (_strings fd) (_frets fd) (_fretOffset fd)
                     (u_dots u) (u_markers u) (u_barres u).

(** [FretDiagram::writeMusicXML].  Its tags carry text attributes. *)
#[local] Unset Elimination Schemes.
Inductive Mxml :=
  MElement (name : string) (attrs : list (string * string)) (value : XmlValue)
           (children : list Mxml).
#[local] Set Elimination Schemes.

Definition mxml_name (e : Mxml) : string := let 'MElement n _ _ _ := e in n.
Definition mxml_attrs (e : Mxml) : list (string * string) :=
  let 'MElement _ a _ _ := e in a.
Definition mxml_value (e : Mxml) : XmlValue := let 'MElement _ _ v _ := e in v.
Definition mxml_children (e : Mxml) : list Mxml := let 'MElement _ _ _ c := e in c.

Definition barre_tag (type : string) : Mxml :=
  MElement "barre" [("type"%string, type)] XNone [].

Definition frame_note (mxmlString : Z) (fretv : XmlValue) (tags : list Mxml)
  : Mxml :=
  MElement "frame-note" [] XNone
    ([MElement "string" [] (XInt mxmlString) [];
      MElement "fret" [] fretv []] ++ tags).

(** The frets collected in [bStarts] and [bEnds] for string [i]. *)
Definition bStarts (fd : FretDiagram) (i : Z) : list Z :=
  (List.filter (λ kb : Z * Barre, Barre_exists kb.2 && (startString kb.2 =? i))
               (barre_entries (_barres fd))).*1.

Definition bEnds (fd : FretDiagram) (i : Z) : list Z :=
  (List.filter
     (λ kb : Z * Barre,
        Barre_exists kb.2 && negb (startString kb.2 =? i)
        && ((endString kb.2 =? i)
            || ((endString kb.2 =? -1) && (_strings fd - i =? 1))))
     (barre_entries (_barres fd))).*1.

(** One dot of the string: its note, at the [int] sum of the dot's fret
    and the fret offset, with the barre tags of its fret, which are then
    taken off the two lists. *)
Definition mxml_dot (fd : FretDiagram) (mxmlString : Z)
    (st : list Z * list Z * list Mxml) (d : Dot) : list Z * list Z * list Mxml :=
  if negb (Dot_exists d) then st
  else
    let s := bool_decide (fret d ∈ st.1.1) in
    let e := bool_decide (fret d ∈ st.1.2) in
    (if s then filter (λ x, x ≠ fret d) st.1.1 else st.1.1,
     if e then filter (λ x, x ≠ fret d) st.1.2 else st.1.2,
     st.2 ++ [frame_note mxmlString (XInt (int_add (fret d) (_fretOffset fd)))
                ((if s then [barre_tag "start"] else [])
                 ++ (if e then [barre_tag "stop"] else []))]).

Definition writeMusicXML_string (fd : FretDiagram) (i : Z) : list Mxml :=
  let mxmlString := _strings fd - i in
  let m := marker fd i in
  let st := fold_left (mxml_dot fd mxmlString) (dot fd i 0)
                      (bStarts fd i, bEnds fd i, []) in
  (if Marker_exists m && bool_decide (mtype m = MARKER_CIRCLE)
   then [frame_note mxmlString (XText "0") []] else [])
  ++ st.2
  ++ ((λ j, frame_note mxmlString (XInt j) [barre_tag "start"]) <$> st.1.1)
  ++ ((λ j, frame_note mxmlString (XInt j) [barre_tag "stop"]) <$> st.1.2).

Definition writeMusicXML (fd : FretDiagram) : Mxml :=
  MElement "frame" [] XNone
    ([MElement "frame-strings" [] (XInt (_strings fd)) [];
      MElement "frame-frets" [] (XInt (_frets fd)) []]
     ++ (if 0 <? _fretOffset fd
         then [MElement "first-fret" [] (XInt (int_add (_fretOffset fd) 1)) []]
         else [])
     ++ flat_map (writeMusicXML_string fd) (seqZ 0 (_strings fd))).

(** * Notions used in the statements *)

(** What [removeDot(s, fret)] leaves at key [s], given what was there. *)
Definition keep_dots (fret : Z) (o : option (list Dot)) : option (list Dot) :=
  if 0 <? fret then
    match List.filter (λ d, Dot_exists d && negb (FretItem.fret d =? fret)) (default [] o) with
    | [] => None
    | l => Some l
    end
  else None.

(** What the marker branch of [removeDotsMarkers] leaves at a key. *)
Definition keep_marker (o : option Marker) : option Marker :=
  match o with
  | Some m => if Marker_exists m then None else Some m
  | None => None
  end.

(** A vector that was never pushed to is no entry of the temporary map. *)
Definition pushed (old : option (list Dot)) (l : list Dot) : option (list Dot) :=
  match l with
  | [] => old
  | _ => Some (default [] old ++ l)
  end.

(** What the barre loop of [setStrings] leaves at a visible fret. *)
Definition shift_barre (difference : Z) (o : option Barre) : option Barre :=
  match o with
  | Some b =>
      if Barre_exists b then
        if startString b + difference <=? 0 then None
        else Some (mkBarre (Z.max 0 (startString b + difference))
                           (if endString b =? -1 then -1
                            else endString b + difference))
      else Some b
  | None => None
  end.

Definition nonempty (l : list Dot) : option (list Dot) :=
  match l with [] => None | _ => Some l end.

Definition existing_marker (o : option Marker) : option Marker :=
  match o with
  | Some m => if Marker_exists m then Some m else None
  | None => None
  end.

(** The diagrams the public mutators build from a new one.  The two
    readers are folds of these mutators (see [readNew_reachable] and
    [read_reachable]). *)
Inductive reachable : FretDiagram → Prop :=
  | reach_new n k : reachable (makeFretDiagram n k)
  | reach_setDot s f add dt fd :
      reachable fd → reachable (setDot s f add dt fd)
  | reach_setMarker s t fd :
      reachable fd → reachable (setMarker s t fd)
  | reach_setBarre ss es f fd :
      reachable fd → reachable (setBarre ss es f fd)
  | reach_setBarre_toggle s f add fd :
      reachable fd → reachable (setBarre_toggle s f add fd)
  | reach_setStrings n fd :
      reachable fd → reachable (setStrings n fd)
  | reach_setFrets n fd :
      reachable fd → reachable (setFrets n fd)
  | reach_setFretOffset n fd :
      reachable fd → reachable (setFretOffset n fd)
  | reach_clear fd :
      reachable fd → reachable (clear fd).

(** Every key of the dots map is a string of the diagram and holds a
    vector that is not empty. *)
Definition dots_ok (fd : FretDiagram) : Prop :=
  ∀ s l, _dots fd !! s = Some l → l ≠ [] ∧ 0 ≤ s < _strings fd.

(** The three things the scanning loop records, as functions of the
    pattern: the running maximum of [fret - 3], the dots to add, and the
    string of the first ['-']. *)
Definition offset_step (o : Z) (c : ascii) : Z :=
  if negb (digitValue c =? -1) && (0 <? digitValue c - 3) && (o <? digitValue c - 3)
  then digitValue c - 3 else o.

Fixpoint digits_from (i : Z) (cs : list ascii) : list (Z * Z) :=
  match cs with
  | [] => []
  | c :: cs =>
      (if digitValue c =? -1 then [] else [(i, digitValue c)])
      ++ digits_from (i + 1) cs
  end.

Definition first_dash (i : Z) (cs : list ascii) : Z :=
  match list_find (λ c, c = "-"%char) cs with
  | Some (j, _) => i + Z.of_nat j
  | None => -1
  end.

Definition expected_marker (c : ascii) (old : option Marker) : option Marker :=
  if bool_decide (c = "X"%char) then Some (mkMarker MARKER_CROSS)
  else if bool_decide (c = "O"%char) then Some (mkMarker MARKER_CIRCLE)
  else old.

Definition expected_dots (offset : Z) (c : ascii) : option (list Dot) :=
  if (digitValue c =? -1) || (digitValue c - offset =? 0) then None
  else Some [mkDot (digitValue c - offset) DOT_NORMAL].

(** The highest digit of a pattern, -1 when it has none. *)
Definition maxDigit (cs : list ascii) : Z :=
  foldr (λ c m, Z.max (digitValue c) m) (-1) cs.

(** Diagrams that the current format carries without loss: the keys of
    dots and markers are strings of the diagram; every dot has a
    positive fret and no fret occurs twice on a string; no marker of
    type NONE is stored; every barre sits at a visible fret with its
    start on a string and its end open or on a string. *)
Definition canonical (fd : FretDiagram) : Prop :=
  map_Forall (λ s l, 0 ≤ s < _strings fd ∧ l ≠ []
                     ∧ Forall (λ d, 0 < fret d) l ∧ NoDup (fret <$> l))
             (_dots fd)
  ∧ map_Forall (λ s m, 0 ≤ s < _strings fd ∧ mtype m ≠ MARKER_NONE)
               (_markers fd)
  ∧ map_Forall (λ f b, 1 ≤ f ≤ _frets fd ∧ 0 ≤ startString b < _strings fd
                       ∧ -1 ≤ endString b < _strings fd)
               (_barres fd).

#[global] Instance canonical_dec fd : Decision (canonical fd).
Proof. unfold canonical. apply _. Defined.




Definition barre_flag : Xml := XElement "barre" [] (XInt 1) [].

(** The edits of the three maps that the undo commands of a fret
    diagram wrap ([undoSetFretDot], [undoSetFretMarker],
    [undoSetFretBarre], [undoFretClear]), with the plain three-argument
    [setBarre]. *)
Inductive FretEdit :=
  | EditDot (string fret : Z) (add : bool) (dtype : FretDotType)
  | EditMarker (string : Z) (mtype : FretMarkerType)
  | EditBarre (startString endString fret : Z)
  | EditToggle (string fret : Z) (add : bool)
  | EditClear.

Definition edit (fd : FretDiagram) (e : FretEdit) : FretDiagram :=
  match e with
  | EditDot s f add dt => setDot s f add dt fd
  | EditMarker s t => setMarker s t fd
  | EditBarre ss es f => setBarre ss es f fd
  | EditToggle s f add => setBarre_toggle s f add fd
  | EditClear => clear fd
  end.

(** What the legacy format keeps of the dots of a string: the last
    existing one, as a normal dot. *)
Definition legacy_dots (l : list Dot) : option (list Dot) :=
  match List.filter Dot_exists l with
  | [] => None
  | l' => Some [mkDot (fret (List.last l' (mkDot 0 DOT_NORMAL))) DOT_NORMAL]
  end.

(** What it keeps of the marker of a string with these dots. *)
Definition legacy_marker (l : list Dot) (o : option Marker) : option Marker :=
  match legacy_dots l with
  | Some _ => Some (mkMarker MARKER_NONE)
  | None => existing_marker o
  end.

(** The frets that the notes of a chord ask for on string [s], in the
    order of the notes. *)
Definition frets_on (s : Z) (notes : list (option (Z * Z))) : list Z :=
  flat_map (λ note : option (Z * Z),
              match note with
              | Some sf => if decide (sf.1 = s) then [sf.2] else []
              | None => []
              end) notes.

(** Every marker sits on a string of the diagram. *)
Definition markers_ok (fd : FretDiagram) : Prop :=
  ∀ s m, _markers fd !! s = Some m → 0 ≤ s < _strings fd.

(** No string holds two existing dots at the same fret. *)
Definition frets_distinct (fd : FretDiagram) : Prop :=
  ∀ s l, _dots fd !! s = Some l → NoDup (fret <$> List.filter Dot_exists l).

(** An existing barre at fret [f] starts on string [i]; it stops there:
    it starts elsewhere and ends on [i], or is open and [i] is the last
    string. *)
Definition starts_at (fd : FretDiagram) (i f : Z) : bool :=
  match _barres fd !! f with
  | Some b => Barre_exists b && (startString b =? i)
  | None => false
  end.

Definition stops_at (fd : FretDiagram) (i f : Z) : bool :=
  match _barres fd !! f with
  | Some b =>
      Barre_exists b && negb (startString b =? i)
      && ((endString b =? i) || ((endString b =? -1) && (_strings fd - i =? 1)))
  | None => false
  end.

(** The notes of string [i] in the exported frame: the open string, the
    dots (with the tags of the barres at their fret), and the barre
    starts and stops that no dot of the string carries. *)
Definition mxml_note (fd : FretDiagram) (i : Z) (e : Mxml) : Prop :=
  let mxmlString := _strings fd - i in
  let free f := ∀ d, d ∈ default [] (_dots fd !! i) → Dot_exists d = true →
                     fret d ≠ f in
  (marker fd i = mkMarker MARKER_CIRCLE
   ∧ e = frame_note mxmlString (XText "0") [])
  ∨ (∃ d, d ∈ default [] (_dots fd !! i) ∧ Dot_exists d = true
          ∧ e = frame_note mxmlString (XInt (int_add (fret d) (_fretOffset fd)))
                  ((if starts_at fd i (fret d) then [barre_tag "start"] else [])
                   ++ (if stops_at fd i (fret d) then [barre_tag "stop"] else [])))
  ∨ (∃ f, starts_at fd i f = true ∧ free f
          ∧ e = frame_note mxmlString (XInt f) [barre_tag "start"])
  ∨ (∃ f, stops_at fd i f = true ∧ free f
          ∧ e = frame_note mxmlString (XInt f) [barre_tag "stop"]).

(** What [readNew] accepts of a barre that [writeNew] wrote: an existing
    barre whose two ends pass the checks of [setBarre]. *)
Definition shown_barre (fd : FretDiagram) (o : option Barre) : option Barre :=
  match o with
  | Some b =>
      if Barre_exists b && (startString b <? _strings fd)
         && (-1 <=? endString b) && (endString b <? _strings fd)
      then Some b else None
  | None => None
  end.

(** Case analysis on the integer comparisons of a goal. *)
Ltac zbool :=
  repeat (cbn [startString endString];
          match goal with
          | |- context [?a <? ?b] => destruct (Z.ltb_spec a b); try lia
          | |- context [?a <=? ?b] => destruct (Z.leb_spec a b); try lia
          | |- context [?a =? ?b] => destruct (Z.eqb_spec a b); try lia
          | H : context [?a =? ?b] |- _ => destruct (Z.eqb_spec a b); try lia
          end).

(** * Properties *)

(** ** Projections of the helpers *)

Section helpers.
Implicit Types (fd : FretDiagram) (s f : Z) (l : list Dot).

Lemma removeDot_eq s f fd :
  removeDot s f fd =
    with_dots
      (match (if 0 <? f
              then List.filter (λ d, Dot_exists d && negb (fret d =? f)) (dot fd s 0)
              else []) with
       | [] => delete s (_dots fd)
       | l => <[s := l]> (_dots fd)
       end) fd.
Proof.
  unfold removeDot. cbn [_dots with_dots].
  rewrite lookup_insert_eq. cbn [default].
  destruct (if 0 <? f then _ else _) as [|d l]; cbn [length].
  - rewrite bool_decide_eq_true_2 by done.
    unfold with_dots; cbn. by rewrite delete_insert_eq.
  - rewrite bool_decide_eq_false_2 by done. done.
Qed.

Lemma removeDot_all s f fd :
  f ≤ 0 → removeDot s f fd = with_dots (delete s (_dots fd)) fd.
Proof.
  intros Hf. rewrite removeDot_eq.
  destruct (0 <? f) eqn:E; [apply Z.ltb_lt in E; lia | done].
Qed.

Lemma removeDot_markers s f fd : _markers (removeDot s f fd) = _markers fd.
Proof. by rewrite removeDot_eq. Qed.
Lemma removeDot_barres s f fd : _barres (removeDot s f fd) = _barres fd.
Proof. by rewrite removeDot_eq. Qed.
Lemma removeDot_strings s f fd : _strings (removeDot s f fd) = _strings fd.
Proof. by rewrite removeDot_eq. Qed.
Lemma removeDot_frets s f fd : _frets (removeDot s f fd) = _frets fd.
Proof. by rewrite removeDot_eq. Qed.

Lemma removeDot_other s f fd s' :
  s' ≠ s → _dots (removeDot s f fd) !! s' = _dots fd !! s'.
Proof.
  intros Hne. rewrite removeDot_eq. cbn [_dots with_dots].
  destruct (if 0 <? f then _ else _).
  - by rewrite lookup_delete_ne.
  - by rewrite lookup_insert_ne.
Qed.

(** [dot] with a fret: the first dot of the string at that fret, or
    the sentinel. *)
Lemma dot_fret fd s f :
  f ≠ 0 →
  dot fd s f =
    match List.find (λ d, bool_decide (fret d = f)) (default [] (_dots fd !! s)) with
    | Some d => [d]
    | None => [mkDot 0 DOT_NORMAL]
    end.
Proof.
  intros Hf. unfold dot. destruct (_dots fd !! s); cbn [default]; [|done].
  by rewrite bool_decide_eq_true_2.
Qed.

Lemma dot_all fd s :
  dot fd s 0 = default [mkDot 0 DOT_NORMAL] (_dots fd !! s).
Proof. unfold dot. by destruct (_dots fd !! s). Qed.

Lemma dot_fret_nonempty fd s f : f ≠ 0 → dot fd s f ≠ [].
Proof. intros Hf. rewrite dot_fret by done. by case_match. Qed.

Lemma find_fret_None l f :
  List.find (λ d, bool_decide (fret d = f)) l = None ↔ ∀ d, d ∈ l → fret d ≠ f.
Proof.
  split.
  - intros H d Hd Hf. apply list_elem_of_In in Hd.
    pose proof (find_none _ _ H d Hd) as Hn. cbn in Hn.
    by apply bool_decide_eq_false in Hn.
  - intros H. destruct (List.find _ l) as [d|] eqn:E; [|done].
    apply find_some in E as [Hin Hd]. apply bool_decide_eq_true in Hd.
    apply list_elem_of_In in Hin. by destruct (H d Hin).
Qed.

Lemma find_fret_Some l f d :
  List.find (λ d, bool_decide (fret d = f)) l = Some d → d ∈ l ∧ fret d = f.
Proof.
  intros E. apply find_some in E as [Hin Hd]. apply bool_decide_eq_true in Hd.
  by apply list_elem_of_In in Hin.
Qed.

(** The filter of [removeDot] on a string. *)
Lemma filter_sentinel f :
  List.filter (λ d, Dot_exists d && negb (fret d =? f)) [mkDot 0 DOT_NORMAL] = [].
Proof. done. Qed.

Lemma removeDot_fret s f fd :
  0 < f →
  _dots (removeDot s f fd) !! s =
    match List.filter (λ d, Dot_exists d && negb (fret d =? f))
                      (default [] (_dots fd !! s)) with
    | [] => None
    | l => Some l
    end.
Proof.
  intros Hf. rewrite removeDot_eq. cbn [_dots with_dots].
  destruct (0 <? f) eqn:E; [|apply Z.ltb_ge in E; lia].
  rewrite dot_all. destruct (_dots fd !! s) as [l|]; cbn [default].
  - case_match.
    + by rewrite lookup_delete_eq.
    + by rewrite lookup_insert_eq.
  - rewrite filter_sentinel. by rewrite lookup_delete_eq.
Qed.

Lemma setMarker_in s mt fd :
  0 ≤ s < _strings fd →
  setMarker s mt fd =
    let fd1 := with_markers (<[s := mkMarker mt]> (_markers fd)) fd in
    if bool_decide (mt ≠ MARKER_NONE)
    then removeBarres s 0 (removeDot s 0 fd1) else fd1.
Proof.
  intros [H1 H2]. unfold setMarker.
  apply Z.leb_le in H1. apply Z.ltb_lt in H2. by rewrite H1, H2.
Qed.

Lemma setMarker_out s mt fd :
  ¬ (0 ≤ s < _strings fd) → setMarker s mt fd = fd.
Proof.
  intros H. unfold setMarker.
  destruct (0 <=? s) eqn:E1; [|done].
  destruct (s <? _strings fd) eqn:E2; [|done].
  apply Z.leb_le in E1. apply Z.ltb_lt in E2. lia.
Qed.

Lemma in_range_true s n : 0 ≤ s < n → (0 <=? s) && (s <? n) = true.
Proof. intros [H1 H2]. apply andb_true_iff. split; [by apply Z.leb_le | by apply Z.ltb_lt]. Qed.

Lemma in_range_false s n : ¬ (0 ≤ s < n) → (0 <=? s) && (s <? n) = false.
Proof.
  intros H. apply andb_false_iff.
  destruct (Z.leb_spec 0 s); [|by left]. right. apply Z.ltb_ge. lia.
Qed.

End helpers.

(** ** setDot (claim C4) *)

Section setDot_props.
Variables (fd : FretDiagram) (s f : Z).
Hypothesis Hs : 0 ≤ s < _strings fd.
Hypothesis Hf : 0 < f.

Lemma setDot_add_present dt :
  (∃ d, d ∈ default [] (_dots fd !! s) ∧ fret d = f) →
  setDot s f true dt fd = removeDot s f fd.
Proof.
  intros Hex. unfold setDot.
  destruct (Z.eqb_spec f 0); [lia|]. rewrite in_range_true by done.
  rewrite dot_fret by lia.
  destruct (List.find _ _) as [d|] eqn:E.
  - apply find_fret_Some in E as [_ E]. unfold Dot_exists. rewrite E.
    by destruct (Z.ltb_spec 0 f); [|lia].
  - destruct Hex as (d & Hd & Hfd). by eapply find_fret_None in E.
Qed.

Lemma setDot_add_absent dt :
  (∀ d, d ∈ default [] (_dots fd !! s) → fret d ≠ f) →
  setDot s f true dt fd = push_dot s (mkDot f dt) fd.
Proof.
  intros Hno. unfold setDot.
  destruct (Z.eqb_spec f 0); [lia|]. rewrite in_range_true by done.
  rewrite dot_fret by lia.
  apply find_fret_None in Hno. by rewrite Hno.
Qed.

Lemma setDot_replace dt :
  setDot s f false dt fd =
    mkFretDiagram (_strings fd) (_frets fd) (_fretOffset fd)
      (<[s := [mkDot f dt]]> (_dots fd))
      (<[s := mkMarker MARKER_NONE]> (_markers fd))
      (_barres fd).
Proof.
  unfold setDot.
  destruct (Z.eqb_spec f 0); [lia|]. rewrite in_range_true by done.
  rewrite setMarker_in by done. cbn.
  unfold push_dot, with_dots, with_markers; cbn.
  rewrite lookup_insert_eq. cbn. by rewrite insert_insert_eq.
Qed.

End setDot_props.

Lemma setDot_zero s add dt fd :
  setDot s 0 add dt fd = with_dots (delete s (_dots fd)) fd.
Proof. unfold setDot. cbn. by rewrite removeDot_all. Qed.

(** C4.  For a string [s] in range and a fret [f > 0]: [setDot] with
    [add] removes the dot at [(s, f)] when there is one (the string keeps
    its other existing dots, every other string is untouched) and
    otherwise appends the dot [(f, dt)] behind the dots of [s]; without
    [add] it leaves [s] with the single dot [(f, dt)] and no marker;
    with fret 0 it removes all dots of [s]; and after [setDot(s, f)] the
    accessor [dot(s, f)] returns an existing dot with fret [f]. *)
Theorem setDot_behaviour (fd : FretDiagram) (s f : Z) (dt : FretDotType) :
  0 ≤ s < _strings fd → 0 < f →
  let l := default [] (_dots fd !! s) in
  ((∃ d, d ∈ l ∧ fret d = f) →
     let fd' := setDot s f true dt fd in
     default [] (_dots fd' !! s)
       = List.filter (λ d, Dot_exists d && negb (fret d =? f)) l
     ∧ (∀ d, d ∈ default [] (_dots fd' !! s) → fret d ≠ f)
     ∧ (∀ s', s' ≠ s → _dots fd' !! s' = _dots fd !! s')
     ∧ _markers fd' = _markers fd ∧ _barres fd' = _barres fd)
  ∧ ((∀ d, d ∈ l → fret d ≠ f) →
     setDot s f true dt fd
       = with_dots (<[s := l ++ [mkDot f dt]]> (_dots fd)) fd)
  ∧ (let fd' := setDot s f false dt fd in
     _dots fd' = <[s := [mkDot f dt]]> (_dots fd)
     ∧ Marker_exists (marker fd' s) = false
     ∧ (∀ s', s' ≠ s → _markers fd' !! s' = _markers fd !! s')
     ∧ _barres fd' = _barres fd
     ∧ ∃ d, dot fd' s f = [d] ∧ Dot_exists d = true ∧ fret d = f)
  ∧ (∀ add, setDot s 0 add dt fd = with_dots (delete s (_dots fd)) fd).
Proof.
  intros Hs Hf l. repeat split.
  - rewrite setDot_add_present by done.
    rewrite removeDot_fret by done. fold l. by case_match.
  - intros d. rewrite setDot_add_present by done.
    rewrite removeDot_fret by done. fold l.
    intros Hd Hfd.
    assert (d ∈ List.filter (λ d, Dot_exists d && negb (fret d =? f)) l) as Hin.
    { destruct (List.filter _ l); [by apply elem_of_nil in Hd | done]. }
    apply list_elem_of_In, filter_In in Hin as [_ Hin].
    apply andb_true_iff in Hin as [_ Hin]. apply negb_true_iff, Z.eqb_neq in Hin. done.
  - intros s' Hne. rewrite setDot_add_present by done. by apply removeDot_other.
  - rewrite setDot_add_present by done. apply removeDot_markers.
  - rewrite setDot_add_present by done. apply removeDot_barres.
  - intros Hno. by rewrite setDot_add_absent.
  - by rewrite setDot_replace.
  - rewrite setDot_replace by done. unfold marker; cbn. by rewrite lookup_insert_eq.
  - intros s' Hne. rewrite setDot_replace by done. cbn. by rewrite lookup_insert_ne.
  - by rewrite setDot_replace.
  - rewrite setDot_replace by done. exists (mkDot f dt).
    rewrite dot_fret by lia. cbn. rewrite lookup_insert_eq. cbn.
    rewrite bool_decide_eq_true_2 by done. split; [done|]. split; [|done].
    unfold Dot_exists; cbn. by apply Z.ltb_lt.
  - intros add. apply setDot_zero.
Qed.

Lemma setDot_behaviour_witness :
  (0 ≤ 2 < 6 ∧ 0 < 3)
  ∧ _dots (setDot 2 3 false DOT_CROSS (makeFretDiagram 6 4))
    = <[2 := [mkDot 3 DOT_CROSS]]> ∅.
Proof.
  split; [lia|].
  apply (setDot_behaviour (makeFretDiagram 6 4) 2 3 DOT_CROSS); cbn; lia.
Defined.

(** ** setMarker (claims C5 and C1) *)

Lemma removeBarres_lookup s fd f b :
  _barres (removeBarres s 0 fd) !! f = Some b
  ↔ _barres fd !! f = Some b ∧ crosses s b = false.
Proof.
  unfold removeBarres. cbn [_barres with_barres].
  rewrite map_lookup_filter_Some. cbn.
  split; intros [H1 H2]; (split; [done|]).
  - destruct (crosses s b); [|done]. destruct H2. split; [done|lia].
  - intros [Hc _]. congruence.
Qed.

Lemma crosses_false s b :
  crosses s b = false
  ↔ ¬ (0 ≤ startString b ≤ s ∧ (s ≤ endString b ∨ endString b = -1)).
Proof.
  unfold crosses, Barre_exists.
  destruct (Z.ltb_spec (-1) (startString b)), (Z.leb_spec (startString b) s),
    (Z.leb_spec s (endString b)), (Z.eqb_spec (endString b) (-1)); cbn;
    split; intros; first [done | lia].
Qed.

(** C5.  For a string [s] in range and a marker type other than NONE,
    [setMarker] stores the marker at [s], removes all dots of [s] (so
    [dot(s, f)] holds no existing dot for any [f]) and removes exactly
    the barres whose span includes [s]; the other barres and the dots
    and markers of the other strings stay as they were. *)
Theorem setMarker_behaviour (fd : FretDiagram) (s : Z) (t : FretMarkerType) :
  0 ≤ s < _strings fd → t ≠ MARKER_NONE →
  let fd' := setMarker s t fd in
  _markers fd' = <[s := mkMarker t]> (_markers fd)
  ∧ _dots fd' = delete s (_dots fd)
  ∧ (∀ f d, d ∈ dot fd' s f → Dot_exists d = false)
  ∧ (∀ f b, _barres fd' !! f = Some b
            ↔ _barres fd !! f = Some b
              ∧ ¬ (0 ≤ startString b ≤ s ∧ (s ≤ endString b ∨ endString b = -1))).
Proof.
  intros Hs Ht fd'. subst fd'. rewrite setMarker_in by done. cbn zeta.
  rewrite bool_decide_eq_true_2 by done.
  rewrite removeDot_all by lia.
  split; [done|]. split; [done|]. split.
  - intros f d. unfold dot. cbn. rewrite lookup_delete_eq.
    intros ->%list_elem_of_singleton. done.
  - intros f b. rewrite removeBarres_lookup, crosses_false. done.
Qed.

Lemma setMarker_behaviour_witness :
  (0 ≤ 1 < 6 ∧ MARKER_CIRCLE ≠ MARKER_NONE)
  ∧ _dots (setMarker 1 MARKER_CIRCLE
             (setBarre 0 (-1) 2 (setDot 1 3 false DOT_NORMAL (makeFretDiagram 6 4))))
    = delete 1 (<[1 := [mkDot 3 DOT_NORMAL]]> ∅).
Proof.
  split; [split; [lia | done]|].
  apply (setMarker_behaviour
           (setBarre 0 (-1) 2 (setDot 1 3 false DOT_NORMAL (makeFretDiagram 6 4)))
           1 MARKER_CIRCLE); [change (0 ≤ 1 < 6); lia | done].
Defined.

(** C1, as the code has it.  [setMarker] with type NONE on a string in
    range stores a marker of type NONE at that key (the key is not
    erased) and changes nothing else; the accessor [marker] then reports
    no existing marker, as it does for an absent key.  In any diagram
    [marker(s)] exists exactly when the map holds CIRCLE or CROSS at
    [s]. *)
Theorem setMarker_NONE_stored (fd : FretDiagram) (s : Z) :
  0 ≤ s < _strings fd →
  let fd' := setMarker s MARKER_NONE fd in
  _markers fd' = <[s := mkMarker MARKER_NONE]> (_markers fd)
  ∧ _dots fd' = _dots fd ∧ _barres fd' = _barres fd
  ∧ marker fd' s = mkMarker MARKER_NONE
  ∧ Marker_exists (marker fd' s) = false
  ∧ (∀ d k, Marker_exists (marker d k) = true
            ↔ _markers d !! k = Some (mkMarker MARKER_CIRCLE)
              ∨ _markers d !! k = Some (mkMarker MARKER_CROSS)).
Proof.
  intros Hs fd'. subst fd'. rewrite setMarker_in by done. cbn zeta.
  rewrite bool_decide_eq_false_2 by (by intros H).
  unfold marker. cbn [_markers _dots _barres with_markers].
  rewrite lookup_insert_eq. repeat (split; [done|]).
  intros d k. unfold Marker_exists.
  destruct (_markers d !! k) as [[[]]|]; cbn; split; try done; auto.
  all: by intros [?|?].
Qed.

Lemma setMarker_NONE_stored_witness :
  0 ≤ 0 < 6
  ∧ _markers (setMarker 0 MARKER_NONE (makeFretDiagram 6 4))
    = <[0 := mkMarker MARKER_NONE]> ∅.
Proof.
  split; [lia|].
  apply (setMarker_NONE_stored (makeFretDiagram 6 4) 0). cbn; lia.
Defined.

(** C1 as stated fails: after [setMarker(0, NONE)] on a new six-string
    diagram the markers map has an entry at key 0, of type NONE. *)
Lemma setMarker_NONE_not_pruned :
  let fd := setMarker 0 MARKER_NONE (makeFretDiagram 6 4) in
  0 ≤ 0 < _strings (makeFretDiagram 6 4)
  ∧ _markers fd !! 0 = Some (mkMarker MARKER_NONE)
  ∧ ¬ (_markers fd !! 0 = None).
Proof. cbn. split; [lia|]. split; [done|]. vm_compute. discriminate. Qed.

(** ** The range check of setBarre *)

Lemma setBarre_out ss es f fd :
  ss ≠ -1 → ¬ (0 ≤ ss < _strings fd ∧ -1 ≤ es < _strings fd) →
  setBarre ss es f fd = fd.
Proof.
  intros Hss Hr. unfold setBarre.
  destruct (Z.eqb_spec ss (-1)); [done|].
  destruct (Z.leb_spec 0 ss), (Z.leb_spec (-1) es),
    (Z.ltb_spec ss (_strings fd)), (Z.ltb_spec es (_strings fd)); cbn; try done.
  lia.
Qed.

(** ** The loop of removeDotsMarkers *)

Section removeDotsMarkers_loop.
Variable fret : Z.
Implicit Types (fd : FretDiagram) (k s : Z).

Lemma removeDot_lookup s fd k :
  _dots (removeDot s fret fd) !! k
  = if decide (k = s) then keep_dots fret (_dots fd !! s) else _dots fd !! k.
Proof.
  case_decide as Hk.
  - subst k. unfold keep_dots. destruct (Z.ltb_spec 0 fret).
    + by apply removeDot_fret.
    + rewrite removeDot_all by lia. cbn. by rewrite lookup_delete_eq.
  - by apply removeDot_other.
Qed.

Lemma step_dots s fd :
  _dots (removeDotsMarkers_step fret fd s) = _dots (removeDot s fret fd).
Proof. unfold removeDotsMarkers_step. cbn zeta. by case_match. Qed.

Lemma step_barres s fd :
  _barres (removeDotsMarkers_step fret fd s) = _barres fd.
Proof.
  unfold removeDotsMarkers_step. cbn zeta.
  case_match; cbn; by rewrite removeDot_barres.
Qed.

Lemma step_strings s fd :
  _strings (removeDotsMarkers_step fret fd s) = _strings fd.
Proof.
  unfold removeDotsMarkers_step. cbn zeta.
  case_match; cbn; by rewrite removeDot_strings.
Qed.

Lemma step_frets s fd :
  _frets (removeDotsMarkers_step fret fd s) = _frets fd.
Proof.
  unfold removeDotsMarkers_step. cbn zeta.
  case_match; cbn; by rewrite removeDot_frets.
Qed.

Lemma step_markers s fd k :
  _markers (removeDotsMarkers_step fret fd s) !! k
  = if decide (k = s) then keep_marker (_markers fd !! s) else _markers fd !! k.
Proof.
  unfold removeDotsMarkers_step, marker, keep_marker. cbn zeta.
  rewrite removeDot_markers.
  destruct (_markers fd !! s) as [m|] eqn:E.
  - destruct (Marker_exists m) eqn:Em.
    + unfold removeMarker. cbn [_markers with_markers].
      rewrite removeDot_markers. case_decide; subst.
      * by rewrite lookup_delete_eq.
      * by rewrite lookup_delete_ne.
    + rewrite removeDot_markers. case_decide; subst; done.
  - change (Marker_exists (mkMarker MARKER_NONE)) with false. cbn iota.
    rewrite removeDot_markers. case_decide; subst; done.
Qed.

Lemma loop_dots ks : ∀ fd k,
  NoDup ks →
  _dots (fold_left (removeDotsMarkers_step fret) ks fd) !! k
  = if decide (k ∈ ks) then keep_dots fret (_dots fd !! k) else _dots fd !! k.
Proof.
  induction ks as [|a ks IH]; intros fd k Hnd; cbn [fold_left].
  - by rewrite decide_False by apply not_elem_of_nil.
  - apply NoDup_cons in Hnd as [Ha Hnd]. rewrite IH by done.
    rewrite step_dots, removeDot_lookup.
    destruct (decide (k ∈ ks)) as [Hk|Hk], (decide (k = a)) as [->|Hne],
      (decide (_ ∈ a :: ks)) as [Hc|Hc]; try done.
    all: try (destruct Hc; apply elem_of_cons; auto).
    apply elem_of_cons in Hc as [?|?]; done.
Qed.

Lemma loop_markers ks : ∀ fd k,
  NoDup ks →
  _markers (fold_left (removeDotsMarkers_step fret) ks fd) !! k
  = if decide (k ∈ ks) then keep_marker (_markers fd !! k) else _markers fd !! k.
Proof.
  induction ks as [|a ks IH]; intros fd k Hnd; cbn [fold_left].
  - by rewrite decide_False by apply not_elem_of_nil.
  - apply NoDup_cons in Hnd as [Ha Hnd]. rewrite IH by done.
    rewrite step_markers.
    destruct (decide (k ∈ ks)) as [Hk|Hk], (decide (k = a)) as [->|Hne],
      (decide (_ ∈ a :: ks)) as [Hc|Hc]; try done.
    all: try (destruct Hc; apply elem_of_cons; auto).
    apply elem_of_cons in Hc as [?|?]; done.
Qed.

Lemma loop_rest ks : ∀ fd,
  let fd' := fold_left (removeDotsMarkers_step fret) ks fd in
  _barres fd' = _barres fd ∧ _strings fd' = _strings fd ∧ _frets fd' = _frets fd.
Proof.
  induction ks as [|a ks IH]; intros fd; cbn [fold_left]; [done|].
  cbn zeta. destruct (IH (removeDotsMarkers_step fret fd a)) as (-> & -> & ->).
  by rewrite step_barres, step_strings, step_frets.
Qed.

End removeDotsMarkers_loop.

(** [removeDotsMarkers] on a span: strings [ss .. e] lose their markers
    and their dots at [fret]; everything else stays. *)
Lemma removeDotsMarkers_spec ss es fret fd :
  ss ≠ -1 →
  let e := if es =? -1 then _strings fd else es in
  let fd' := removeDotsMarkers ss es fret fd in
  (∀ k, _dots fd' !! k
        = if decide (ss ≤ k ≤ e) then keep_dots fret (_dots fd !! k)
          else _dots fd !! k)
  ∧ (∀ k, _markers fd' !! k
          = if decide (ss ≤ k ≤ e) then keep_marker (_markers fd !! k)
            else _markers fd !! k)
  ∧ _barres fd' = _barres fd ∧ _strings fd' = _strings fd
  ∧ _frets fd' = _frets fd.
Proof.
  intros Hss e fd'. subst fd'. unfold removeDotsMarkers.
  destruct (Z.eqb_spec ss (-1)); [done|]. fold e.
  split; [|split].
  - intros k. rewrite loop_dots by apply NoDup_seqZ.
    destruct (decide (k ∈ seqZ ss (e - ss + 1))) as [Hk|Hk];
      rewrite elem_of_seqZ in Hk.
    + rewrite decide_True by lia. done.
    + rewrite decide_False by lia. done.
  - intros k. rewrite loop_markers by apply NoDup_seqZ.
    destruct (decide (k ∈ seqZ ss (e - ss + 1))) as [Hk|Hk];
      rewrite elem_of_seqZ in Hk.
    + rewrite decide_True by lia. done.
    + rewrite decide_False by lia. done.
  - apply loop_rest.
Qed.

(** ** Arguments out of range: the three mutators and the toggle (claim C7) *)

(** C7, as the code has it.  Only the string arguments of [setDot],
    [setMarker] and [setBarre(start, end, fret)] are checked.  A string
    outside [0, stringCount) makes [setMarker] and [setDot] with a fret
    other than 0 return the diagram as it is; [setDot] with fret 0
    erases the key, which no diagram built by the mutators holds for such
    a string; [setBarre(start, end, fret)] with [start] other than -1
    returns the diagram as it is when [start] is out of range or when
    [end] is neither -1 nor in range, and with [start = -1] it removes
    the barre at [fret] whatever [end] is.  No fret is checked: with
    strings in range, [setDot] stores the dot and [setBarre] the barre
    at whatever fret is passed.  The toggle [setBarre(string, fret, add)]
    checks no range: with such a string on a fret without a barre it
    does nothing when [string >= stringCount - 1] and stores a barre
    entry from [string] otherwise; on an open barre that starts before
    [string] it stores [string] as the end. *)
Theorem out_of_range_string_noop (fd : FretDiagram) (s : Z) :
  ¬ (0 ≤ s < _strings fd) →
  (∀ f add dt, f ≠ 0 → setDot s f add dt fd = fd)
  ∧ (∀ add dt, _dots fd !! s = None → setDot s 0 add dt fd = fd)
  ∧ (∀ t, setMarker s t fd = fd)
  ∧ (∀ es f, s ≠ -1 → setBarre s es f fd = fd)
  ∧ (∀ ss f, ss ≠ -1 → s ≠ -1 → setBarre ss s f fd = fd)
  ∧ (∀ es f, setBarre (-1) es f fd = with_barres (delete f (_barres fd)) fd)
  ∧ (∀ s' f dt, 0 ≤ s' < _strings fd → f ≠ 0 →
       _dots (setDot s' f false dt fd) !! s' = Some [mkDot f dt])
  ∧ (∀ ss es f, 0 ≤ ss < _strings fd → -1 ≤ es < _strings fd →
       _barres (setBarre ss es f fd) !! f = Some (mkBarre ss es))
  ∧ (∀ f add, Barre_exists (barre fd f) = false → _strings fd - 1 ≤ s →
       setBarre_toggle s f add fd = fd)
  ∧ (∀ f add, Barre_exists (barre fd f) = false → s < _strings fd - 1 →
       _barres (setBarre_toggle s f add fd) !! f = Some (mkBarre s (-1)))
  ∧ (∀ f add, Barre_exists (barre fd f) = true → endString (barre fd f) = -1 →
       startString (barre fd f) < s →
       setBarre_toggle s f add fd
       = with_barres (<[f := mkBarre (startString (barre fd f)) s]> (_barres fd)) fd).
Proof.
  intros Hs.
  split; [|split; [|split; [|split; [|split; [|split; [|split; [|split;
    [|split; [|split]]]]]]]]].
  - intros f add dt Hf. unfold setDot.
    destruct (Z.eqb_spec f 0); [done|]. by rewrite in_range_false.
  - intros add dt Hnone. rewrite setDot_zero. destruct fd; cbn in *.
    unfold with_dots; cbn. f_equal. by apply delete_id.
  - intros t. by apply setMarker_out.
  - intros es f Hne. apply setBarre_out; [done|]. lia.
  - intros ss f Hss Hne. apply setBarre_out; [done|]. lia.
  - intros es f. done.
  - intros s' f dt Hs' Hf. unfold setDot.
    destruct (Z.eqb_spec f 0); [done|]. rewrite in_range_true by done.
    rewrite setMarker_in by done. cbn zeta.
    rewrite bool_decide_eq_false_2 by (by intros H).
    unfold push_dot. cbn [_dots with_dots with_markers].
    by rewrite !lookup_insert_eq.
  - intros ss es f Hss Hes. unfold setBarre.
    destruct (Z.eqb_spec ss (-1)); [lia|].
    destruct (Z.leb_spec 0 ss), (Z.leb_spec (-1) es),
      (Z.ltb_spec ss (_strings fd)), (Z.ltb_spec es (_strings fd)); try lia.
    cbn. by rewrite lookup_insert_eq.
  - intros f add Hb Hlast. unfold setBarre_toggle. rewrite Hb. cbn [negb].
    by destruct (Z.ltb_spec s (_strings fd - 1)); [lia|].
  - intros f add Hb Hlast. unfold setBarre_toggle. rewrite Hb. cbn [negb].
    destruct (Z.ltb_spec s (_strings fd - 1)); [|lia].
    destruct (decide (s = -1)) as [->|Hne].
    + cbn. by rewrite lookup_insert_eq.
    + destruct (removeDotsMarkers_spec s (-1) f
                  (with_barres (<[f := mkBarre s (-1)]> (_barres fd)) fd) Hne)
        as (_ & _ & -> & _).
      cbn. by rewrite lookup_insert_eq.
  - intros f add Hb Hopen Hlt. unfold setBarre_toggle. rewrite Hb, Hopen.
    cbn [negb]. change (-1 =? -1) with true. cbn [andb].
    by destruct (Z.ltb_spec (startString (barre fd f)) s); [|lia].
Qed.

Lemma out_of_range_string_noop_witness :
  ¬ (0 ≤ 6 < 6)
  ∧ setMarker 6 MARKER_CROSS (setDot 2 1 false DOT_NORMAL (makeFretDiagram 6 4))
    = setDot 2 1 false DOT_NORMAL (makeFretDiagram 6 4).
Proof.
  split; [lia|].
  apply (out_of_range_string_noop
           (setDot 2 1 false DOT_NORMAL (makeFretDiagram 6 4)) 6).
  change (¬ (0 ≤ 6 < 6)). lia.
Defined.

(** C7 as stated fails for the fret argument, which no mutator checks:
    on a six-string, four-fret diagram with a dot at string 2, fret 1,
    [setDot(2, -1)] replaces that dot by one at fret -1, and
    [setBarre(0, -1, 99)] stores a barre at fret 99. *)
Lemma fret_out_of_range_not_noop :
  let fd := setDot 2 1 false DOT_NORMAL (makeFretDiagram 6 4) in
  ¬ (1 ≤ -1 ≤ _frets fd)
  ∧ _dots fd !! 2 = Some [mkDot 1 DOT_NORMAL]
  ∧ _dots (setDot 2 (-1) false DOT_NORMAL fd) !! 2 = Some [mkDot (-1) DOT_NORMAL]
  ∧ setDot 2 (-1) false DOT_NORMAL fd ≠ fd
  ∧ ¬ (1 ≤ 99 ≤ _frets fd)
  ∧ _barres (setBarre 0 (-1) 99 fd) !! 99 = Some (mkBarre 0 (-1))
  ∧ setBarre 0 (-1) 99 fd ≠ fd.
Proof.
  cbn zeta. split; [vm_compute; intros [H _]; by apply H|].
  split; [by vm_compute|]. split; [by vm_compute|].
  split; [intros H; apply (f_equal (λ d, _dots d !! 2)) in H; vm_compute in H; discriminate|].
  split; [vm_compute; intros [_ H]; by apply H|].
  split; [by vm_compute|].
  intros H; apply (f_equal (λ d, _barres d !! 99)) in H; vm_compute in H; discriminate.
Qed.

(** ** The loops of setStrings *)

Section setStrings_loops.
Variables (fd0 : FretDiagram) (difference : Z).

Lemma push_fold key l : ∀ (td : gmap Z (list Dot)) k,
  fold_left (setStrings_push key) l td !! k
  = if decide (k = key) then pushed (td !! key) (List.filter Dot_exists l)
    else td !! k.
Proof.
  induction l as [|d l IH]; intros td k; cbn [fold_left List.filter].
  - by case_decide; subst.
  - rewrite IH. unfold setStrings_push.
    destruct (Dot_exists d); [|done].
    case_decide; subst; [|by rewrite lookup_insert_ne].
    rewrite lookup_insert_eq. unfold pushed.
    destruct (List.filter Dot_exists l); [done|].
    cbn [from_option id]. by rewrite <- app_assoc.
Qed.

Lemma move_dots ss : ∀ acc k,
  NoDup ss →
  (fold_left (setStrings_move fd0 difference) ss acc).1 !! k
  = if decide (k - difference ∈ ss ∧ 0 ≤ k)
    then pushed (acc.1 !! k) (List.filter Dot_exists (dot fd0 (k - difference) 0))
    else acc.1 !! k.
Proof.
  induction ss as [|a ss IH]; intros acc k Hnd; cbn [fold_left].
  - rewrite decide_False; [done|]. intros [H _]. by apply not_elem_of_nil in H.
  - apply NoDup_cons in Hnd as [Ha Hnd]. rewrite IH by done.
    unfold setStrings_move.
    destruct (Z.ltb_spec (a + difference) 0) as [Hlt|Hge].
    + destruct (decide (k - difference ∈ ss ∧ 0 ≤ k)) as [[Hk H0]|Hk],
        (decide (k - difference ∈ a :: ss ∧ 0 ≤ k)) as [[Hc H0']|Hc]; try done.
      * destruct Hc. split; [apply elem_of_cons; auto | done].
      * apply elem_of_cons in Hc as [Hc|Hc]; [lia|]. by destruct Hk.
    + cbn [fst]. rewrite push_fold.
      destruct (decide (k - difference ∈ ss ∧ 0 ≤ k)) as [[Hk H0]|Hk],
        (decide (k - difference ∈ a :: ss ∧ 0 ≤ k)) as [[Hc H0']|Hc],
        (decide (k = a + difference)) as [->|Hne]; try done.
      * replace (a + difference - difference) with a in Hk by lia. done.
      * destruct Hc. split; [apply elem_of_cons; auto | done].
      * destruct Hc. split; [apply elem_of_cons; auto | done].
      * by replace (a + difference - difference) with a by lia.
      * apply elem_of_cons in Hc as [Hc|Hc]; [lia|]. by destruct Hk.
      * destruct Hc. split; [apply elem_of_cons; left; lia | lia].
Qed.

Lemma move_markers ss : ∀ acc k,
  NoDup ss →
  (fold_left (setStrings_move fd0 difference) ss acc).2 !! k
  = if decide (k - difference ∈ ss ∧ 0 ≤ k)
    then (if Marker_exists (marker fd0 (k - difference))
          then Some (marker fd0 (k - difference)) else acc.2 !! k)
    else acc.2 !! k.
Proof.
  induction ss as [|a ss IH]; intros acc k Hnd; cbn [fold_left].
  - rewrite decide_False; [done|]. intros [H _]. by apply not_elem_of_nil in H.
  - apply NoDup_cons in Hnd as [Ha Hnd]. rewrite IH by done.
    unfold setStrings_move.
    destruct (Z.ltb_spec (a + difference) 0) as [Hlt|Hge].
    + destruct (decide (k - difference ∈ ss ∧ 0 ≤ k)) as [[Hk H0]|Hk],
        (decide (k - difference ∈ a :: ss ∧ 0 ≤ k)) as [[Hc H0']|Hc]; try done.
      * destruct Hc. split; [apply elem_of_cons; auto | done].
      * apply elem_of_cons in Hc as [Hc|Hc]; [lia|]. by destruct Hk.
    + cbn [snd].
      destruct (decide (k - difference ∈ ss ∧ 0 ≤ k)) as [[Hk H0]|Hk],
        (decide (k - difference ∈ a :: ss ∧ 0 ≤ k)) as [[Hc H0']|Hc].
      * destruct (Marker_exists (marker fd0 (k - difference))); [done|].
        destruct (Marker_exists (marker fd0 a)); [|done].
        rewrite lookup_insert_ne; [done|]. intros Heq.
        apply Ha. by replace a with (k - difference) by lia.
      * destruct Hc. split; [apply elem_of_cons; auto | done].
      * apply elem_of_cons in Hc as [Hc|Hc]; [|by destruct Hk].
        rewrite Hc. destruct (Marker_exists (marker fd0 a)); [|done].
        replace (a + difference) with k by lia. by rewrite lookup_insert_eq.
      * destruct (Marker_exists (marker fd0 a)); [|done].
        rewrite lookup_insert_ne; [done|]. intros Heq. destruct Hc.
        split; [apply elem_of_cons; left; lia | lia].
Qed.

Lemma barre_step f fd k :
  _barres (setStrings_barre difference fd f) !! k
  = if decide (k = f) then shift_barre difference (_barres fd !! f)
    else _barres fd !! k.
Proof.
  unfold setStrings_barre, shift_barre, barre.
  destruct (_barres fd !! f) as [b|] eqn:E.
  - destruct (Barre_exists b).
    + destruct (startString b + difference <=? 0).
      * unfold removeBarre. cbn [_barres with_barres].
        case_decide; subst; [by rewrite lookup_delete_eq | by rewrite lookup_delete_ne].
      * cbn [_barres with_barres].
        case_decide; subst; [by rewrite lookup_insert_eq | by rewrite lookup_insert_ne].
    + case_decide; subst; done.
  - change (Barre_exists (mkBarre (-1) (-1))) with false. cbn iota.
    case_decide; subst; done.
Qed.

Lemma barre_step_rest f fd :
  let fd' := setStrings_barre difference fd f in
  _dots fd' = _dots fd ∧ _markers fd' = _markers fd
  ∧ _strings fd' = _strings fd ∧ _frets fd' = _frets fd
  ∧ _fretOffset fd' = _fretOffset fd.
Proof.
  unfold setStrings_barre. cbn zeta.
  destruct (Barre_exists _); [|done].
  by destruct (_ <=? 0).
Qed.

Lemma barre_loop fs : ∀ fd k,
  NoDup fs →
  _barres (fold_left (setStrings_barre difference) fs fd) !! k
  = if decide (k ∈ fs) then shift_barre difference (_barres fd !! k)
    else _barres fd !! k.
Proof.
  induction fs as [|a fs IH]; intros fd k Hnd; cbn [fold_left].
  - by rewrite decide_False by apply not_elem_of_nil.
  - apply NoDup_cons in Hnd as [Ha Hnd]. rewrite IH by done.
    rewrite barre_step.
    destruct (decide (k ∈ fs)) as [Hk|Hk], (decide (k = a)) as [->|Hne],
      (decide (_ ∈ a :: fs)) as [Hc|Hc]; try done.
    all: try (destruct Hc; apply elem_of_cons; auto).
    apply elem_of_cons in Hc as [?|?]; done.
Qed.

Lemma barre_loop_rest fs : ∀ fd,
  let fd' := fold_left (setStrings_barre difference) fs fd in
  _dots fd' = _dots fd ∧ _markers fd' = _markers fd
  ∧ _strings fd' = _strings fd ∧ _frets fd' = _frets fd
  ∧ _fretOffset fd' = _fretOffset fd.
Proof.
  induction fs as [|a fs IH]; intros fd; cbn [fold_left]; [done|].
  cbn zeta.
  destruct (IH (setStrings_barre difference fd a)) as (-> & -> & -> & -> & ->).
  apply barre_step_rest.
Qed.

End setStrings_loops.

(** ** setStrings (claim C3) *)

Lemma filter_exists_dot fd s :
  List.filter Dot_exists (dot fd s 0)
  = List.filter Dot_exists (default [] (_dots fd !! s)).
Proof. rewrite dot_all. by destruct (_dots fd !! s). Qed.

Lemma setStrings_noop n fd :
  n = _strings fd ∨ n ≤ 0 → setStrings n fd = fd.
Proof.
  intros H. unfold setStrings.
  destruct (Z.eqb_spec (n - _strings fd) 0), (Z.leb_spec n 0); try done. lia.
Qed.

Lemma setStrings_spec n fd :
  0 < n → n ≠ _strings fd →
  let difference := n - _strings fd in
  let fd' := setStrings n fd in
  _strings fd' = n ∧ _frets fd' = _frets fd ∧ _fretOffset fd' = _fretOffset fd
  ∧ (∀ k, _dots fd' !! k
          = if decide (0 ≤ k ∧ 0 ≤ k - difference < _strings fd)
            then nonempty (List.filter Dot_exists
                             (default [] (_dots fd !! (k - difference))))
            else None)
  ∧ (∀ k, _markers fd' !! k
          = if decide (0 ≤ k ∧ 0 ≤ k - difference < _strings fd)
            then existing_marker (_markers fd !! (k - difference))
            else None)
  ∧ (∀ f, _barres fd' !! f
          = if decide (1 ≤ f ≤ _frets fd)
            then shift_barre difference (_barres fd !! f)
            else _barres fd !! f).
Proof.
  intros Hn Hne difference fd'. subst fd'. unfold setStrings. fold difference.
  destruct (Z.eqb_spec difference 0); [lia|].
  destruct (Z.leb_spec n 0); [lia|]. cbn [orb]. cbn zeta.
  set (temp := fold_left _ _ (∅, ∅)).
  set (fd1 := with_markers _ _).
  destruct (barre_loop_rest difference (seqZ 1 (_frets fd1)) fd1)
    as (Hd & Hm & Hs & Hf & Ho).
  cbn [_strings _frets _fretOffset _dots _markers _barres with_strings].
  split; [done|]. split; [by rewrite Hf|]. split; [by rewrite Ho|].
  split; [|split].
  - intros k. rewrite Hd. subst fd1 temp. cbn [_dots with_markers with_dots].
    rewrite move_dots by apply NoDup_seqZ. cbn [fst]. rewrite lookup_empty.
    rewrite filter_exists_dot.
    destruct (decide (k - difference ∈ seqZ 0 (_strings fd) ∧ 0 ≤ k)) as [[Hk H0]|Hk];
      [rewrite elem_of_seqZ in Hk | rewrite elem_of_seqZ in Hk].
    + rewrite decide_True by lia. unfold pushed, nonempty.
      by destruct (List.filter _ _).
    + rewrite decide_False by lia. done.
  - intros k. rewrite Hm. subst fd1 temp. cbn [_markers with_markers with_dots].
    rewrite move_markers by apply NoDup_seqZ. cbn [snd]. rewrite lookup_empty.
    destruct (decide (k - difference ∈ seqZ 0 (_strings fd) ∧ 0 ≤ k)) as [[Hk H0]|Hk];
      [rewrite elem_of_seqZ in Hk | rewrite elem_of_seqZ in Hk].
    + rewrite decide_True by lia. unfold marker, existing_marker.
      destruct (_markers fd !! (k - difference)); [done|].
      done.
    + rewrite decide_False by lia. done.
  - intros f. rewrite barre_loop by apply NoDup_seqZ.
    subst fd1. cbn [_frets _barres with_markers with_dots].
    destruct (decide (f ∈ seqZ 1 (_frets fd))) as [Hk|Hk];
      rewrite elem_of_seqZ in Hk.
    + rewrite decide_True by lia. done.
    + rewrite decide_False by lia. done.
Qed.

(** C3: what [setStrings(n)] does, for [n > 0] other than the string
    count and [difference = n - stringCount].  The existing dots and the
    marker of every string [s] whose new index [s + difference] is not
    negative are found at that index, index 0 included, and nothing else
    is in the two maps (every key lies in [0, n)).  A barre at a visible
    fret [1 .. fretCount] whose ends are on strings (start in
    [0, stringCount), end there or open, so that no sum below leaves the
    range of [int]) has start and closed end shifted when its new start
    is positive; it is removed when its new start is negative and also
    when its new start is exactly 0, where the dots and the marker of the
    same string are kept: the guard of the barre loop reads [<= 0] where
    the loop of the dots reads [< 0], and the [std::max(0, ...)] that
    follows it can no longer apply.  A barre at a fret outside
    [1 .. fretCount] is not re-indexed at all.  [setStrings(n)] returns
    the diagram unchanged when [n] is the string count or [n <= 0]. *)
Theorem setStrings_shift (n : Z) (fd : FretDiagram) :
  0 < n → n ≠ _strings fd →
  let difference := n - _strings fd in
  let fd' := setStrings n fd in
  _strings fd' = n
  ∧ (∀ s, 0 ≤ s < _strings fd → 0 ≤ s + difference →
       default [] (_dots fd' !! (s + difference))
         = List.filter Dot_exists (default [] (_dots fd !! s))
       ∧ marker fd' (s + difference) = marker fd s)
  ∧ (∀ k, is_Some (_dots fd' !! k) ∨ is_Some (_markers fd' !! k) →
       0 ≤ k < n ∧ 0 ≤ k - difference < _strings fd)
  ∧ (∀ f b, 1 ≤ f ≤ _frets fd → _barres fd !! f = Some b →
       0 ≤ startString b < _strings fd → -1 ≤ endString b < _strings fd →
       (0 < startString b + difference →
          _barres fd' !! f
            = Some (mkBarre (startString b + difference)
                            (if endString b =? -1 then -1
                             else endString b + difference)))
       ∧ (startString b + difference ≤ 0 → _barres fd' !! f = None))
  ∧ (∀ f, ¬ (1 ≤ f ≤ _frets fd) → _barres fd' !! f = _barres fd !! f)
  ∧ (∀ m, m = _strings fd ∨ m ≤ 0 → setStrings m fd = fd).
Proof.
  intros Hn Hne difference fd'.
  destruct (setStrings_spec n fd Hn Hne) as (Hs & _ & _ & Hd & Hm & Hb).
  fold difference in Hd, Hm, Hb. fold fd' in Hs, Hd, Hm, Hb.
  split; [done|]. split; [|split; [|split; [|split]]].
  - intros s Hs0 Hs1. unfold marker. rewrite Hd, Hm.
    rewrite !decide_True by lia.
    replace (s + difference - difference) with s by lia. split.
    + unfold nonempty. by destruct (List.filter _ _).
    + unfold existing_marker. destruct (_markers fd !! s) as [[t]|]; [|done].
      unfold Marker_exists; cbn. by destruct t.
  - intros k. rewrite Hd, Hm.
    destruct (decide (0 ≤ k ∧ 0 ≤ k - difference < _strings fd)) as [H|H].
    + intros _. unfold difference in *. lia.
    + by intros [[? ?]|[? ?]].
  - intros f b Hf Hfb Hst Hen. rewrite Hb, decide_True by done.
    rewrite Hfb. unfold shift_barre, Barre_exists.
    destruct (Z.ltb_spec (-1) (startString b)); [|lia]. split; intros H0.
    + destruct (Z.leb_spec (startString b + difference) 0); [lia|].
      by rewrite Z.max_r by lia.
    + by destruct (Z.leb_spec (startString b + difference) 0); [|lia].
  - intros f Hf. by rewrite Hb, decide_False.
  - intros m. apply setStrings_noop.
Qed.

(** The failing input of C3.  Six strings, a dot and an open barre from
    string 1 at fret 1, then [setStrings(5)]: the new index 0 lies in
    [0, 5); the dot is kept there and the barre is removed. *)
Lemma setStrings_shift_witness :
  let fd := setBarre 1 (-1) 1 (setDot 1 1 true DOT_NORMAL (makeFretDiagram 6 4)) in
  (0 < 5 ∧ 5 ≠ _strings fd)
  ∧ (1 ≤ 1 ≤ _frets fd ∧ _barres fd !! 1 = Some (mkBarre 1 (-1))
     ∧ 1 + (5 - _strings fd) = 0)
  ∧ default [] (_dots (setStrings 5 fd) !! 0) = [mkDot 1 DOT_NORMAL]
  ∧ _barres (setStrings 5 fd) !! 1 = None
  ∧ _barres (setStrings 5 fd) !! 1 ≠ Some (mkBarre 0 (-1)).
Proof.
  cbn zeta.
  destruct (setStrings_shift 5
              (setBarre 1 (-1) 1 (setDot 1 1 true DOT_NORMAL (makeFretDiagram 6 4))))
    as (_ & _ & _ & Hb & _); [lia | change (5 ≠ 6); lia |].
  cbn zeta in Hb.
  destruct (Hb 1 (mkBarre 1 (-1))) as [_ Hnone];
    [change (1 ≤ 1 ≤ 4); lia | done | change (0 ≤ 1 < 6); lia
    | change (-1 ≤ -1 < 6); lia |].
  assert (1 + (5 - 6) ≤ 0) as Hz by lia.
  split; [split; [lia | change (5 ≠ 6); lia]|].
  split; [split; [change (1 ≤ 1 ≤ 4); lia | split; [done | change (1 + (5 - 6) = 0); lia]]|].
  split; [by vm_compute|].
  split; [exact (Hnone Hz)|].
  rewrite (Hnone Hz). discriminate.
Defined.

(** The same loop runs over the frets [1 .. fretCount] only, so a barre
    stored at a fret beyond them is not re-indexed.  Six strings, four
    frets, a barre at fret 5 from string 2: after [setStrings(7)] it
    still starts at string 2, not at 3. *)
Lemma setStrings_hidden_barre_not_shifted :
  let fd := setBarre 2 (-1) 5 (makeFretDiagram 6 4) in
  _strings fd = 6 ∧ _frets fd = 4
  ∧ _barres fd !! 5 = Some (mkBarre 2 (-1))
  ∧ _barres (setStrings 7 fd) !! 5 = Some (mkBarre 2 (-1))
  ∧ _barres (setStrings 7 fd) !! 5 ≠ Some (mkBarre (2 + (7 - 6)) (-1)).
Proof. vm_compute. repeat split; discriminate. Qed.

(** The failing input evaluated: the dot moved to string 0 is kept, the
    barre that would start there is gone. *)
Example setStrings_barre_at_new_zero :
  let fd := setBarre 1 (-1) 1 (setDot 1 1 true DOT_NORMAL (makeFretDiagram 6 4)) in
  _dots (setStrings 5 fd) !! 0 = Some [mkDot 1 DOT_NORMAL]
  ∧ _barres (setStrings 5 fd) !! 1 = None.
Proof. by vm_compute. Qed.

(** ** Reachable diagrams and what they keep (claim C10) *)

Lemma readNew_reachable doc : ∀ fd, reachable fd → reachable (readNew doc fd).
Proof.
  unfold readNew. induction doc as [|e doc IH]; intros fd Hr; cbn [fold_left]; [done|].
  apply IH. unfold readNew_child.
  case_bool_decide.
  - generalize (intAttribute e "no" 0). intros no.
    revert fd Hr. induction (xml_children e) as [|c cs IHc]; intros fd Hr;
      cbn [fold_left]; [done|].
    apply IHc. unfold readNew_string_child.
    case_bool_decide; [by apply reach_setDot|].
    case_bool_decide; [by apply reach_setMarker | done].
  - case_bool_decide; [by apply reach_setBarre | done].
Qed.

Lemma read_reachable doc fd : reachable fd → reachable (read doc fd).
Proof.
  intros Hr. unfold read.
  assert (∀ st, reachable (read_fd st) →
                reachable (read_fd (fold_left read_child doc st))) as Hloop.
  { induction doc as [|e doc IH]; intros st Hst; cbn [fold_left]; [done|].
    apply IH. unfold read_child. cbn zeta.
    destruct (haveReadNew st); [done|].
    repeat case_bool_decide; cbn [read_fd]; try done.
    - by apply readNew_reachable.
    - by apply reach_setStrings.
    - by apply reach_setFrets.
    - by apply reach_setFretOffset.
    - generalize (intAttribute e "no" 0). intros no.
      generalize (read_fd st) Hst.
      induction (xml_children e) as [|c cs IHc]; intros fd1 Hr1;
        cbn [fold_left]; [done|].
      apply IHc. unfold read_string_child.
      case_bool_decide; [by apply reach_setDot|].
      case_bool_decide; [by apply reach_setMarker | done]. }
  specialize (Hloop (mkRead fd false false) Hr).
  destruct (hasBarre _); [|done].
  destruct (firstDot _) as [[s d]|]; [by apply reach_setBarre | done].
Qed.

Lemma keep_dots_Some fret o l :
  keep_dots fret o = Some l → l ≠ [] ∧ is_Some o.
Proof.
  unfold keep_dots. destruct (0 <? fret); [|done].
  destruct o as [l0|]; cbn; [|done].
  destruct (List.filter _ l0) eqn:E; [done|]. intros [= <-]. split; [done|eauto].
Qed.

Lemma dots_ok_removeDot s f fd : dots_ok fd → dots_ok (removeDot s f fd).
Proof.
  intros Hok k l. rewrite removeDot_lookup, removeDot_strings.
  case_decide; subst.
  - intros [Hne [l0 Hl0]]%keep_dots_Some. split; [done|]. by apply (Hok _ _ Hl0).
  - apply Hok.
Qed.

Lemma dots_ok_same fd fd' :
  _dots fd' = _dots fd → _strings fd' = _strings fd → dots_ok fd → dots_ok fd'.
Proof. intros Hd Hs Hok k l. rewrite Hd, Hs. apply Hok. Qed.

Lemma dots_ok_setMarker s t fd : dots_ok fd → dots_ok (setMarker s t fd).
Proof.
  intros Hok. unfold setMarker. case_match; [|done].
  case_bool_decide; [|by eapply dots_ok_same].
  eapply dots_ok_same; [reflexivity | reflexivity |].
  apply dots_ok_removeDot. by eapply dots_ok_same.
Qed.

Lemma dots_ok_push s d fd :
  0 ≤ s < _strings fd → dots_ok fd → dots_ok (push_dot s d fd).
Proof.
  intros Hs Hok k l. unfold push_dot. cbn [_dots _strings with_dots].
  destruct (decide (k = s)) as [->|Hne].
  - rewrite lookup_insert_eq. intros [= <-]. split; [|done].
    by destruct (default [] (_dots fd !! s)).
  - rewrite lookup_insert_ne by done. apply Hok.
Qed.

Lemma dots_ok_setDot s f add dt fd : dots_ok fd → dots_ok (setDot s f add dt fd).
Proof.
  intros Hok. unfold setDot.
  destruct (f =? 0); [by apply dots_ok_removeDot|].
  destruct ((0 <=? s) && (s <? _strings fd)) eqn:E; [|done].
  apply andb_true_iff in E as [E1%Z.leb_le E2%Z.ltb_lt].
  destruct add.
  - destruct (dot fd s f) as [|d0 ?]; [done|].
    destruct (Dot_exists d0); [by apply dots_ok_removeDot|].
    by apply dots_ok_push.
  - apply dots_ok_setMarker.
    intros k l. unfold push_dot. cbn [_dots _strings with_dots].
    rewrite insert_insert_eq.
    destruct (decide (k = s)) as [->|Hne].
    + rewrite lookup_insert_eq. intros [= <-]. split; [|done].
      rewrite lookup_insert_eq. done.
    + rewrite lookup_insert_ne by done. apply Hok.
Qed.

Lemma dots_ok_removeDotsMarkers ss es f fd :
  dots_ok fd → dots_ok (removeDotsMarkers ss es f fd).
Proof.
  intros Hok. destruct (decide (ss = -1)) as [->|Hss]; [done|].
  destruct (removeDotsMarkers_spec ss es f fd Hss) as (Hd & _ & _ & Hs & _).
  intros k l. rewrite Hd, Hs. case_decide; [|apply Hok].
  intros [Hne [l0 Hl0]]%keep_dots_Some. split; [done|]. by apply (Hok _ _ Hl0).
Qed.

Lemma dots_ok_setBarre_toggle s f add fd :
  dots_ok fd → dots_ok (setBarre_toggle s f add fd).
Proof.
  intros Hok. unfold setBarre_toggle. cbn zeta.
  destruct (negb _).
  - case_match; [|done]. apply dots_ok_removeDotsMarkers. by eapply dots_ok_same.
  - case_match; [by eapply dots_ok_same|].
    eapply dots_ok_same; [reflexivity | reflexivity |].
    by apply dots_ok_removeDotsMarkers.
Qed.

Lemma dots_ok_setStrings n fd : dots_ok fd → dots_ok (setStrings n fd).
Proof.
  intros Hok.
  destruct (decide (n = _strings fd ∨ n ≤ 0)) as [H|H];
    [by rewrite setStrings_noop|].
  assert (0 < n) as Hn by lia. assert (n ≠ _strings fd) as Hne by lia.
  destruct (setStrings_spec n fd Hn Hne) as (Hs & _ & _ & Hd & _).
  intros k l. rewrite Hd, Hs. case_decide as Hk; [|done].
  unfold nonempty. destruct (List.filter _ _) eqn:E; [done|].
  intros [= <-]. split; [done|lia].
Qed.

Lemma dots_ok_setBarre ss es f fd : dots_ok fd → dots_ok (setBarre ss es f fd).
Proof.
  intros Hok. unfold setBarre. destruct (ss =? -1); [by eapply dots_ok_same|].
  case_match; [by eapply dots_ok_same | done].
Qed.

Lemma reachable_dots_ok fd : reachable fd → dots_ok fd.
Proof.
  induction 1.
  - intros s l. cbn. by rewrite lookup_empty.
  - by apply dots_ok_setDot.
  - by apply dots_ok_setMarker.
  - by apply dots_ok_setBarre.
  - by apply dots_ok_setBarre_toggle.
  - by apply dots_ok_setStrings.
  - by eapply dots_ok_same.
  - by eapply dots_ok_same.
  - intros s l. cbn. by rewrite lookup_empty.
Qed.

(** C10.  In every diagram the public mutators can build, each key of
    the dots map holds a vector that is not empty, so [dot(s, f)] never
    returns an empty vector; where no dot matches it returns the single
    sentinel dot with fret 0, which does not exist; [removeDot] never
    leaves an empty vector behind; and the element [dot(s, f)[0]] that
    [setDot] reads (with [f] other than 0) is present. *)
Theorem dot_access_in_bounds (fd : FretDiagram) :
  reachable fd →
  (∀ s l, _dots fd !! s = Some l → l ≠ [])
  ∧ (∀ s f, dot fd s f ≠ [])
  ∧ (∀ s f,
       _dots fd !! s = None
       ∨ (f ≠ 0 ∧ ∀ d, d ∈ default [] (_dots fd !! s) → fret d ≠ f) →
       dot fd s f = [mkDot 0 DOT_NORMAL]
       ∧ Dot_exists (mkDot 0 DOT_NORMAL) = false)
  ∧ (∀ s f l, _dots (removeDot s f fd) !! s = Some l → l ≠ [])
  ∧ (∀ s f, f ≠ 0 → ∃ d0 rest, dot fd s f = d0 :: rest).
Proof.
  intros Hr. pose proof (reachable_dots_ok fd Hr) as Hok.
  split; [|split; [|split; [|split]]].
  - intros s l Hl. by apply (Hok _ _ Hl).
  - intros s f. destruct (decide (f = 0)) as [->|Hf].
    + rewrite dot_all. destruct (_dots fd !! s) as [l|] eqn:E; [|done].
      by apply (Hok _ _ E).
    + by apply dot_fret_nonempty.
  - intros s f [Hnone|[Hf Hno]]; (split; [|done]).
    + unfold dot. by rewrite Hnone.
    + rewrite dot_fret by done. apply find_fret_None in Hno. by rewrite Hno.
  - intros s f l Hl.
    rewrite removeDot_lookup, decide_True in Hl by done.
    by apply keep_dots_Some in Hl as [? _].
  - intros s f Hf. pose proof (dot_fret_nonempty fd s f Hf).
    destruct (dot fd s f) as [|d0 rest]; [done|eauto].
Qed.

Lemma dot_access_in_bounds_witness :
  reachable (setDot 1 2 true DOT_NORMAL (makeFretDiagram 6 4))
  ∧ dot (setDot 1 2 true DOT_NORMAL (makeFretDiagram 6 4)) 3 0 ≠ [].
Proof.
  split; [apply reach_setDot, reach_new|].
  apply (dot_access_in_bounds _
           (reach_setDot 1 2 true DOT_NORMAL _ (reach_new 6 4))).
Defined.

(** ** The barre toggle (claim C8) *)




(** ** createFromString (claim C9) *)

Lemma digitValue_letters :
  digitValue "X" = -1 ∧ digitValue "O" = -1 ∧ digitValue "-" = -1.
Proof. done. Qed.

Lemma setMarker_fresh i mt fd :
  0 ≤ i < _strings fd → _dots fd = ∅ → _barres fd = ∅ →
  setMarker i mt fd = with_markers (<[i := mkMarker mt]> (_markers fd)) fd.
Proof.
  intros Hi Hd Hb. rewrite setMarker_in by done. cbn zeta.
  case_bool_decide; [|done].
  rewrite removeDot_all by lia. unfold removeBarres, with_barres, with_dots, with_markers.
  cbn. rewrite Hd, Hb. rewrite delete_empty, map_filter_empty.
  destruct fd; cbn in *. by subst.
Qed.

Lemma first_dash_cons i c cs :
  first_dash i (c :: cs)
  = if bool_decide (c = "-"%char) then i else first_dash (i + 1) cs.
Proof.
  unfold first_dash. cbn [list_find].
  case_bool_decide as Hc.
  - rewrite decide_True by done. cbn. lia.
  - rewrite decide_False by done.
    destruct (list_find _ cs) as [[j x]|]; cbn; [lia | done].
Qed.

Lemma first_dash_range i cs :
  0 ≤ i → first_dash i cs = -1 ∨ i ≤ first_dash i cs < i + Z.of_nat (length cs).
Proof.
  revert i. induction cs as [|c cs IH]; intros i Hi; [by left|].
  rewrite first_dash_cons. cbn [length]. case_bool_decide.
  - right. lia.
  - destruct (IH (i + 1)) as [->|H']; [lia | by left | right; lia].
Qed.

Lemma scan_spec cs : ∀ i st,
  0 ≤ i → i + Z.of_nat (length cs) ≤ _strings (scan_fd st) →
  _dots (scan_fd st) = ∅ → _barres (scan_fd st) = ∅ →
  let st' := scan i cs st in
  scan_offset st' = fold_left offset_step cs (scan_offset st)
  ∧ scan_dotsToAdd st' = scan_dotsToAdd st ++ digits_from i cs
  ∧ scan_barreString st'
    = (if scan_barreString st =? -1 then first_dash i cs else scan_barreString st)
  ∧ _dots (scan_fd st') = ∅ ∧ _barres (scan_fd st') = ∅
  ∧ _strings (scan_fd st') = _strings (scan_fd st)
  ∧ _frets (scan_fd st') = _frets (scan_fd st)
  ∧ _fretOffset (scan_fd st') = _fretOffset (scan_fd st)
  ∧ (∀ k, k < i → _markers (scan_fd st') !! k = _markers (scan_fd st) !! k)
  ∧ (∀ j c, cs !! j = Some c →
       _markers (scan_fd st') !! (i + Z.of_nat j)
       = expected_marker c (_markers (scan_fd st) !! (i + Z.of_nat j))).
Proof.
  induction cs as [|c cs IH]; intros i st Hi Hlen Hd Hb; cbn [scan].
  { cbn. rewrite app_nil_r. unfold first_dash; cbn.
    repeat split; try done. by destruct (Z.eqb_spec (scan_barreString st) (-1)). }
  cbn [length] in Hlen.
  assert (∃ st1, st1 = scan_step i c st) as [st1 Hst1] by eauto.
  rewrite <- Hst1.
  assert (scan_offset st1 = offset_step (scan_offset st) c
          ∧ scan_dotsToAdd st1
            = scan_dotsToAdd st ++ (if digitValue c =? -1 then [] else [(i, digitValue c)])
          ∧ scan_barreString st1
            = (if scan_barreString st =? -1
               then (if bool_decide (c = "-"%char) then i else -1)
               else scan_barreString st)
          ∧ _dots (scan_fd st1) = ∅ ∧ _barres (scan_fd st1) = ∅
          ∧ _strings (scan_fd st1) = _strings (scan_fd st)
          ∧ _frets (scan_fd st1) = _frets (scan_fd st)
          ∧ _fretOffset (scan_fd st1) = _fretOffset (scan_fd st)
          ∧ _markers (scan_fd st1)
            = match expected_marker c None with
              | Some m => <[i := m]> (_markers (scan_fd st))
              | None => _markers (scan_fd st)
              end) as (Ho & Hda & Hbs & Hd1 & Hb1 & Hs1 & Hf1 & Hfo1 & Hm1).
  { subst st1. unfold scan_step, offset_step, expected_marker.
    destruct (decide (c = "X"%char)) as [->|HX].
    { rewrite setMarker_fresh by (done || lia). cbn. rewrite app_nil_r.
      repeat split; try done. by destruct (Z.eqb_spec (scan_barreString st) (-1)). }
    destruct (decide (c = "O"%char)) as [->|HO].
    { rewrite setMarker_fresh by (done || lia). cbn. rewrite app_nil_r.
      repeat split; try done. by destruct (Z.eqb_spec (scan_barreString st) (-1)). }
    rewrite bool_decide_eq_false_2 by (by intros [?|?]).
    rewrite (bool_decide_eq_false_2 (c = "X"%char)) by done.
    rewrite (bool_decide_eq_false_2 (c = "O"%char)) by done.
    destruct (decide (c = "-"%char)) as [->|HD].
    { rewrite bool_decide_eq_true_2 by done. cbn [andb].
      destruct (scan_barreString st =? -1) eqn:E; cbn; rewrite ?E, ?app_nil_r; done. }
    rewrite bool_decide_eq_false_2 by done. cbn [andb].
    destruct (digitValue c =? -1) eqn:E; cbn [negb andb].
    - rewrite app_nil_r. repeat split; try done. by destruct (Z.eqb_spec (scan_barreString st) (-1)).
    - cbn. repeat split; try done. by destruct (Z.eqb_spec (scan_barreString st) (-1)). }
  destruct (IH (i + 1) st1) as (Ho' & Hda' & Hbs' & Hd' & Hb' & Hs' & Hf' & Hfo' & Hlt' & Hm');
    [lia | rewrite Hs1; lia | done | done |].
  cbn zeta. rewrite Ho', Hda', Hbs', Hd', Hb', Hs', Hf', Hfo', Ho, Hda, Hbs, Hs1, Hf1, Hfo1.
  split; [done|]. split; [by rewrite <- app_assoc|]. split.
  { rewrite first_dash_cons. destruct (scan_barreString st =? -1) eqn:E; [|by rewrite E].
    case_bool_decide.
    - destruct (Z.eqb_spec i (-1)); [lia|done].
    - done. }
  split; [done|]. split; [done|]. split; [done|]. split; [done|]. split; [done|].
  split.
  - intros k Hk. rewrite Hlt' by lia. rewrite Hm1.
    destruct (expected_marker c None); [|done]. by rewrite lookup_insert_ne by lia.
  - intros [|j] c' Hj.
    + cbn in Hj. injection Hj as <-. rewrite Z.add_0_r, Hlt' by lia. rewrite Hm1.
      unfold expected_marker. repeat case_bool_decide; by rewrite ?lookup_insert_eq.
    + cbn in Hj. replace (i + Z.of_nat (S j)) with (i + 1 + Z.of_nat j) by lia.
      rewrite (Hm' _ _ Hj), Hm1.
      destruct (expected_marker c None); [|done]. by rewrite lookup_insert_ne by lia.
Qed.

Lemma offset_fold cs : ∀ o,
  0 ≤ o → fold_left offset_step cs o = Z.max o (maxDigit cs - 3).
Proof.
  induction cs as [|c cs IH]; intros o Ho; cbn [fold_left maxDigit foldr]; [lia|].
  fold (maxDigit cs).
  assert (offset_step o c = Z.max o (digitValue c - 3)) as ->.
  { unfold offset_step.
    destruct (Z.eqb_spec (digitValue c) (-1)), (Z.ltb_spec 0 (digitValue c - 3)),
      (Z.ltb_spec o (digitValue c - 3)); cbn; lia. }
  rewrite IH by lia. lia.
Qed.

Lemma setDot_add_fresh k v fd :
  0 ≤ k < _strings fd → _dots fd !! k = None →
  setDot k v true DOT_NORMAL fd
  = if v =? 0 then fd
    else with_dots (<[k := [mkDot v DOT_NORMAL]]> (_dots fd)) fd.
Proof.
  intros Hk Hnone. unfold setDot. destruct (Z.eqb_spec v 0) as [->|Hv].
  - rewrite removeDot_all by lia. unfold with_dots.
    rewrite delete_id by done. by destruct fd.
  - rewrite in_range_true by done. unfold dot. rewrite Hnone.
    change (Dot_exists (mkDot 0 DOT_NORMAL)) with false. cbn iota.
    unfold push_dot. by rewrite Hnone.
Qed.

Lemma add_dots offset cs : ∀ i fd,
  0 ≤ i → i + Z.of_nat (length cs) ≤ _strings fd →
  (∀ k, i ≤ k → _dots fd !! k = None) →
  let fd' := fold_left (λ acc d, setDot d.1 (d.2 - offset) true DOT_NORMAL acc)
                       (digits_from i cs) fd in
  _markers fd' = _markers fd ∧ _barres fd' = _barres fd
  ∧ _strings fd' = _strings fd ∧ _frets fd' = _frets fd
  ∧ _fretOffset fd' = _fretOffset fd
  ∧ (∀ k, k < i ∨ i + Z.of_nat (length cs) ≤ k → _dots fd' !! k = _dots fd !! k)
  ∧ (∀ j c, cs !! j = Some c →
       _dots fd' !! (i + Z.of_nat j) = expected_dots offset c).
Proof.
  induction cs as [|c cs IH]; intros i fd Hi Hlen Hnone; cbn [digits_from].
  { cbn. repeat split; done. }
  cbn [length] in Hlen |- *. rewrite fold_left_app.
  set (fd1 := fold_left _ (if digitValue c =? -1 then _ else _) fd).
  assert (_markers fd1 = _markers fd ∧ _barres fd1 = _barres fd
          ∧ _strings fd1 = _strings fd ∧ _frets fd1 = _frets fd
          ∧ _fretOffset fd1 = _fretOffset fd
          ∧ (∀ k, k ≠ i → _dots fd1 !! k = _dots fd !! k)
          ∧ _dots fd1 !! i = expected_dots offset c)
    as (Hm & Hb & Hs & Hf & Hfo & Hother & Hat).
  { subst fd1. unfold expected_dots.
    destruct (digitValue c =? -1); cbn [fold_left orb fst snd].
    - repeat split; try done. by apply Hnone.
    - rewrite setDot_add_fresh by (lia || by apply Hnone).
      destruct (_ =? 0); cbn.
      + repeat split; try done. by apply Hnone.
      + repeat split; try done.
        * intros k Hk. by rewrite lookup_insert_ne.
        * by rewrite lookup_insert_eq. }
  destruct (IH (i + 1) fd1) as (Hm' & Hb' & Hs' & Hf' & Hfo' & Hout' & Hin');
    [lia | rewrite Hs; lia | intros k Hk; rewrite Hother by lia; apply Hnone; lia |].
  cbn zeta. rewrite Hm', Hb', Hs', Hf', Hfo'.
  split; [done|]. split; [done|]. split; [done|]. split; [done|]. split; [done|].
  split.
  - intros k Hk. rewrite Hout' by lia. apply Hother. lia.
  - intros [|j] c' Hj.
    + cbn in Hj. injection Hj as <-. rewrite Z.add_0_r, Hout' by lia. done.
    + cbn in Hj. replace (i + Z.of_nat (S j)) with (i + 1 + Z.of_nat j) by lia.
      by apply Hin'.
Qed.

Lemma setStrings_new n strings0 frets0 :
  0 < n → setStrings n (makeFretDiagram strings0 frets0) = makeFretDiagram n frets0.
Proof.
  intros Hn. destruct (decide (n = strings0)) as [->|Hne].
  { by rewrite setStrings_noop by (by left). }
  destruct (setStrings_spec n (makeFretDiagram strings0 frets0) Hn Hne)
    as (Hs & Hf & Hfo & Hd & Hm & Hb).
  destruct (setStrings n (makeFretDiagram strings0 frets0)) as [s f o d m b].
  cbn in *. unfold makeFretDiagram. f_equal; try done.
  - apply map_eq. intros k. rewrite Hd, !lookup_empty. by case_decide.
  - apply map_eq. intros k. rewrite Hm, !lookup_empty. by case_decide.
  - apply map_eq. intros k. rewrite Hb, !lookup_empty. by case_decide.
Qed.

Lemma length_list_ascii_of_string s :
  length (list_ascii_of_string s) = String.length s.
Proof. induction s as [|c s IH]; cbn; [done | by rewrite IH]. Qed.

(** The state [createFromString] returns for a pattern that is not
    empty, with [cs] its characters. *)
Lemma createFromString_maps strings0 frets0 s :
  s ≠ ""%string →
  let cs := list_ascii_of_string s in
  let fd := createFromString strings0 frets0 s in
  let offset := Z.max 0 (maxDigit cs - 3) in
  _strings fd = Z.of_nat (length cs) ∧ _frets fd = 4 ∧ _fretOffset fd = offset
  ∧ (∀ (j : nat) c, cs !! j = Some c →
       _markers fd !! Z.of_nat j = expected_marker c None
       ∧ _dots fd !! Z.of_nat j = expected_dots offset c)
  ∧ (∀ k, k < 0 ∨ Z.of_nat (length cs) ≤ k → _dots fd !! k = None)
  ∧ _barres fd
    = (if first_dash 0 cs =? -1 then ∅
       else {[1 := mkBarre (first_dash 0 cs) (-1)]}).
Proof.
  intros Hs cs fd offset. subst fd. unfold createFromString.
  rewrite <- length_list_ascii_of_string. fold cs.
  assert (0 < Z.of_nat (length cs)) as Hlen.
  { subst cs. destruct s; [done | cbn; lia]. }
  rewrite setStrings_new by done.
  change (setFrets 4 (makeFretDiagram (Z.of_nat (length cs)) frets0))
    with (makeFretDiagram (Z.of_nat (length cs)) 4).
  set (st0 := mkScan _ 0 (-1) []).
  destruct (scan_spec cs 0 st0) as (Ho & Hda & Hbs & Hd & Hb & Hst & Hf & Hfo & _ & Hm);
    [lia | cbn; lia | done | done |].
  cbn [scan_offset scan_dotsToAdd scan_barreString scan_fd st0 app] in Ho, Hda, Hbs.
  change (-1 =? -1) with true in Hbs. cbn iota in Hbs.
  rewrite offset_fold in Ho by lia. fold offset in Ho.
  set (st := scan 0 cs st0) in *.
  rewrite Ho, Hda, Hbs.
  set (fd4 := if 0 <? offset then _ else _).
  assert (_dots fd4 = ∅ ∧ _barres fd4 = ∅ ∧ _markers fd4 = _markers (scan_fd st)
          ∧ _strings fd4 = Z.of_nat (length cs) ∧ _frets fd4 = 4
          ∧ _fretOffset fd4 = offset) as (Hd4 & Hb4 & Hm4 & Hs4 & Hf4 & Hfo4).
  { subst fd4. destruct (Z.ltb_spec 0 offset); cbn; rewrite ?Hd, ?Hb, ?Hst, ?Hf, ?Hfo;
      repeat split; try done. cbn. lia. }
  destruct (add_dots offset cs 0 fd4)
    as (Hm5 & Hb5 & Hs5 & Hf5 & Hfo5 & Hout5 & Hin5);
    [lia | rewrite Hs4; lia | intros k _; by rewrite Hd4 |].
  cbn zeta in Hm5, Hb5, Hs5, Hf5, Hfo5, Hout5, Hin5.
  set (fd5 := fold_left _ (digits_from 0 cs) fd4) in *.
  assert (∀ x, (if 0 <=? first_dash 0 cs then setBarre (first_dash 0 cs) (-1) 1 fd5 else fd5) = x →
          _strings x = _strings fd5 ∧ _frets x = _frets fd5
          ∧ _fretOffset x = _fretOffset fd5 ∧ _dots x = _dots fd5
          ∧ _markers x = _markers fd5
          ∧ _barres x = (if first_dash 0 cs =? -1 then ∅
                         else {[1 := mkBarre (first_dash 0 cs) (-1)]})) as Hlast.
  { intros x <-. destruct (first_dash_range 0 cs) as [Hfd|Hfd]; [lia| |].
    - rewrite Hfd. cbn. by rewrite Hb5, Hb4.
    - destruct (Z.leb_spec 0 (first_dash 0 cs)); [|lia].
      destruct (Z.eqb_spec (first_dash 0 cs) (-1)); [lia|].
      unfold setBarre. destruct (Z.eqb_spec (first_dash 0 cs) (-1)); [lia|].
      rewrite Hs5, Hs4.
      destruct (Z.leb_spec 0 (first_dash 0 cs)); [|lia].
      destruct (Z.ltb_spec (first_dash 0 cs) (Z.of_nat (length cs))); [|lia].
      destruct (Z.ltb_spec (-1) (Z.of_nat (length cs))); [|lia].
      change (-1 <=? -1) with true.
      cbn [andb _strings _frets _fretOffset _dots _markers _barres with_barres].
      by rewrite ?Hs5, ?Hs4, ?Hb5, ?Hb4. }
  destruct (Hlast _ eq_refl) as (-> & -> & -> & -> & -> & ->).
  rewrite Hs5, Hf5, Hfo5, Hm5, Hs4, Hf4, Hfo4, Hm4.
  split; [done|]. split; [done|]. split; [done|]. split; [|split; [|done]].
  - intros j c Hj. split.
    + specialize (Hm j c Hj). rewrite Z.add_0_l in Hm. by rewrite Hm.
    + specialize (Hin5 j c Hj). by rewrite Z.add_0_l in Hin5.
  - intros k Hk. rewrite Hout5 by lia. by rewrite Hd4.
Qed.

Lemma createFromString_X32010 strings0 frets0 :
  createFromString strings0 frets0 "X32010"
  = mkFretDiagram 6 4 0
      (<[1 := [mkDot 3 DOT_NORMAL]]>
         (<[2 := [mkDot 2 DOT_NORMAL]]> {[4 := [mkDot 1 DOT_NORMAL]]}))
      {[0 := mkMarker MARKER_CROSS]} ∅.
Proof.
  unfold createFromString. cbn [String.length Z.of_nat].
  rewrite setStrings_new by lia. by vm_compute.
Qed.

(** C9, as the code has it.  For a pattern that is not empty the
    diagram has one string per character; ['X'] gives a CROSS and ['O']
    a CIRCLE marker at its string and no other string has a marker; the
    fret offset is [max(0, maxDigit - 3)] and the string of every digit
    [d] holds the dot [d - offset] (the accessor returns that dot, which
    is the fret-0 sentinel when [d] is the offset), no other string has
    a dot; the first ['-'] gives the single barre, open, at fret 1, and
    without a ['-'] there is no barre.  For "X32010": marker CROSS on
    string 0, offset 0, dots 3, 2, 1 on strings 1, 2, 4, no barre.  For
    the empty pattern [setStrings(0)] returns at once: the diagram is
    the new one with four frets, whatever string count it was created
    with. *)
Theorem createFromString_pattern (strings0 frets0 : Z) (s : string) :
  (s ≠ ""%string →
   let cs := list_ascii_of_string s in
   let fd := createFromString strings0 frets0 s in
   let offset := Z.max 0 (maxDigit cs - 3) in
   _strings fd = Z.of_nat (length cs)
   ∧ _fretOffset fd = offset
   ∧ (∀ (j : nat) c, cs !! j = Some c →
        (c = "X"%char → _markers fd !! Z.of_nat j = Some (mkMarker MARKER_CROSS))
        ∧ (c = "O"%char → _markers fd !! Z.of_nat j = Some (mkMarker MARKER_CIRCLE))
        ∧ (c ≠ "X"%char → c ≠ "O"%char → _markers fd !! Z.of_nat j = None)
        ∧ (digitValue c ≠ -1 →
             dot fd (Z.of_nat j) 0 = [mkDot (digitValue c - offset) DOT_NORMAL])
        ∧ (digitValue c = -1 → _dots fd !! Z.of_nat j = None))
   ∧ (∀ j c, list_find (λ c, c = "-"%char) cs = Some (j, c) →
        _barres fd = {[1 := mkBarre (Z.of_nat j) (-1)]})
   ∧ (list_find (λ c, c = "-"%char) cs = None → _barres fd = ∅)
   ∧ (let x := createFromString strings0 frets0 "X32010" in
      _markers x = {[0 := mkMarker MARKER_CROSS]}
      ∧ _fretOffset x = Z.max 0 (maxDigit (list_ascii_of_string "X32010") - 3)
      ∧ _fretOffset x = 0
      ∧ dot x 1 0 = [mkDot 3 DOT_NORMAL] ∧ dot x 2 0 = [mkDot 2 DOT_NORMAL]
      ∧ dot x 4 0 = [mkDot 1 DOT_NORMAL]
      ∧ _barres x = ∅))
  ∧ createFromString strings0 frets0 "" = setFrets 4 (makeFretDiagram strings0 frets0)
  ∧ _strings (createFromString strings0 frets0 "") = strings0.
Proof.
  assert (createFromString strings0 frets0 ""
          = setFrets 4 (makeFretDiagram strings0 frets0)) as Hempty.
  { unfold createFromString. cbn [String.length Z.of_nat].
    by rewrite setStrings_noop by (right; lia). }
  split; [|split; [done|by rewrite Hempty]].
  intros Hs cs fd offset.
  destruct (createFromString_maps strings0 frets0 s Hs)
    as (Hst & _ & Hfo & Hin & _ & Hb).
  fold cs fd offset in Hst, Hfo, Hin, Hb.
  split; [done|]. split; [done|]. split; [|split; [|split]].
  - intros j c Hj. destruct (Hin j c Hj) as [Hm Hd].
    rewrite Hm, dot_all, Hd. unfold expected_marker, expected_dots.
    split; [by intros ->|]. split; [by intros ->|].
    split; [intros ? ?; by rewrite !bool_decide_eq_false_2|].
    split.
    + intros Hdv. destruct (Z.eqb_spec (digitValue c) (-1)); [done|].
      destruct (Z.eqb_spec (digitValue c - offset) 0) as [->|]; done.
    + by intros ->.
  - intros j c Hf. rewrite Hb. unfold first_dash. rewrite Hf.
    destruct (Z.eqb_spec (0 + Z.of_nat j) (-1)); [lia|]. by rewrite Z.add_0_l.
  - intros Hf. rewrite Hb. unfold first_dash. by rewrite Hf.
  - rewrite createFromString_X32010. by vm_compute.
Qed.

Lemma createFromString_pattern_witness :
  "-7X5O"%string ≠ ""%string
  ∧ _strings (createFromString 6 4 "-7X5O") = 5.
Proof.
  split; [discriminate|].
  apply (proj1 (createFromString_pattern 6 4 "-7X5O")). discriminate.
Defined.

(** C9 as stated fails for the empty pattern: [setStrings(0)] returns at
    once, so the diagram keeps the string count it was made with (six,
    the count [init] falls back to) instead of having no string. *)
Lemma createFromString_empty_pattern :
  _strings (createFromString 6 4 "") = 6
  ∧ Z.of_nat (String.length "") = 0
  ∧ _strings (createFromString 6 4 "") ≠ Z.of_nat (String.length "").
Proof. by vm_compute. Qed.

(** ** The current format (claim C2) *)

Lemma nameToDotType_dotTypeToName t : nameToDotType (dotTypeToName t) = t.
Proof. by destruct t. Qed.

Lemma nameToMarkerType_markerTypeToName t :
  nameToMarkerType (markerTypeToName t) = t.
Proof. by destruct t. Qed.

Lemma readNew_dot_child a d fd :
  readNew_string_child a fd
    (XElement "dot" [("fret"%string, fret d)] (XText (dotTypeToName (dtype d))) [])
  = setDot a (fret d) true (dtype d) fd.
Proof.
  unfold readNew_string_child, intAttribute, readText. cbn.
  by rewrite nameToDotType_dotTypeToName.
Qed.

Lemma readNew_marker_child a t fd :
  readNew_string_child a fd
    (XElement "marker" [] (XText (markerTypeToName t)) [])
  = setMarker a t fd.
Proof.
  unfold readNew_string_child, readText. cbn.
  by rewrite nameToMarkerType_markerTypeToName.
Qed.

Lemma readNew_child_string a children fd :
  readNew_child fd (XElement "string" [("no"%string, a)] XNone children)
  = fold_left (readNew_string_child a) children fd.
Proof. done. Qed.

Lemma readNew_child_barre b f fd :
  readNew_child fd
    (XElement "barre"
       [("start"%string, startString b); ("end"%string, endString b)]
       (XInt f) [])
  = setBarre (startString b) (endString b) f fd.
Proof. done. Qed.

Section roundtrip.
Variable fd : FretDiagram.
Hypothesis Hcan : canonical fd.

(** Reading the dot tags of one string appends the dots in order. *)
Lemma read_dots a l : ∀ pre acc,
  0 ≤ a < _strings acc →
  (∀ d, d ∈ l → 0 < fret d) → NoDup (fret <$> (pre ++ l)) →
  default [] (_dots acc !! a) = pre →
  let acc' :=
    fold_left (readNew_string_child a)
      (flat_map
         (λ d, if Dot_exists d
               then [XElement "dot" [("fret"%string, fret d)]
                              (XText (dotTypeToName (dtype d))) []]
               else []) l) acc in
  _strings acc' = _strings acc ∧ _frets acc' = _frets acc
  ∧ _markers acc' = _markers acc ∧ _barres acc' = _barres acc
  ∧ (∀ k, k ≠ a → _dots acc' !! k = _dots acc !! k)
  ∧ (l ≠ [] → _dots acc' !! a = Some (pre ++ l)).
Proof.
  induction l as [|d l IH]; intros pre acc Ha Hpos Hnd Hpre; cbn [flat_map].
  { cbn. repeat split; done. }
  assert (Dot_exists d = true) as ->.
  { apply Z.ltb_lt, Hpos. by left. }
  cbn [app fold_left]. rewrite readNew_dot_child.
  assert (setDot a (fret d) true (dtype d) acc
          = with_dots (<[a := pre ++ [d]]> (_dots acc)) acc) as ->.
  { rewrite setDot_add_absent.
    - unfold push_dot. rewrite Hpre. by destruct d.
    - done.
    - apply Hpos. by left.
    - rewrite Hpre. intros d' Hd' Heq.
      rewrite fmap_app, fmap_cons in Hnd.
      apply NoDup_app in Hnd as (_ & Hnd & _).
      apply (Hnd (fret d')); [by apply list_elem_of_fmap_2 | rewrite Heq; by left]. }
  destruct (IH (pre ++ [d]) (with_dots (<[a := pre ++ [d]]> (_dots acc)) acc))
    as (Hs & Hf & Hm & Hb & Ho & Hat).
  - done.
  - intros d' Hd'. apply Hpos. by right.
  - by rewrite <- app_assoc.
  - cbn. by rewrite lookup_insert_eq.
  - cbn zeta. rewrite Hs, Hf, Hm, Hb.
    split; [done|]. split; [done|]. split; [done|]. split; [done|]. split.
    + intros k Hk. rewrite Ho by done. cbn. by rewrite lookup_insert_ne.
    + intros _. destruct l as [|d1 l].
      * cbn. rewrite lookup_insert_eq. done.
      * rewrite Hat by done. by rewrite <- app_assoc.
Qed.

(** Reading back the block of one string. *)
Lemma read_string a acc :
  0 ≤ a < _strings fd → _strings acc = _strings fd →
  _barres acc = ∅ → _dots acc !! a = None → _markers acc !! a = None →
  let acc' := fold_left readNew_child (writeNew_string fd a) acc in
  _strings acc' = _strings acc ∧ _frets acc' = _frets acc
  ∧ _barres acc' = ∅
  ∧ (∀ k, _dots acc' !! k = if decide (k = a) then _dots fd !! a
                            else _dots acc !! k)
  ∧ (∀ k, _markers acc' !! k = if decide (k = a) then _markers fd !! a
                               else _markers acc !! k).
Proof.
  intros Ha Hs Hb Hd Hm. destruct Hcan as (Hcd & Hcm & _).
  unfold writeNew_string. cbn zeta. rewrite dot_all. unfold marker.
  assert (∀ l, _dots fd !! a = Some l → dotExists l = true) as Hde.
  { intros l E. destruct (Hcd _ _ E) as (_ & Hne & Hpos0 & _).
    pose proof (proj1 (Forall_forall _ _) Hpos0) as Hpos.
    destruct l as [|d l]; [done|]. cbn.
    assert (Dot_exists d = true) as ->; [|done].
    apply Z.ltb_lt, Hpos. by left. }
  assert (∀ m, _markers fd !! a = Some m → Marker_exists m = true) as Hme.
  { intros m E. destruct (Hcm _ _ E) as (_ & Hne).
    unfold Marker_exists. by rewrite bool_decide_eq_true_2. }
  destruct (_dots fd !! a) as [l|] eqn:El, (_markers fd !! a) as [m|] eqn:Em.
  all: cbn [from_option id]; rewrite ?(Hde _ eq_refl), ?(Hme _ eq_refl).
  all: try change (dotExists [mkDot 0 DOT_NORMAL]) with false.
  all: try change (Marker_exists (mkMarker MARKER_NONE)) with false.
  all: cbn [negb andb].
  4: { cbn. repeat split; try done; intros k; case_decide; by subst. }
  all: cbn [fold_left]; rewrite readNew_child_string.
  - (* marker and dots *)
    destruct (Hcd _ _ El) as (_ & Hne & Hpos0 & Hnd).
    pose proof (proj1 (Forall_forall _ _) Hpos0) as Hpos.
    destruct (Hcm _ _ Em) as (_ & Hmt).
    cbn [app fold_left]. rewrite readNew_marker_child.
    rewrite setMarker_in by lia. cbn zeta.
    rewrite bool_decide_eq_true_2 by done.
    rewrite removeDot_all by lia.
    set (acc1 := removeBarres a 0 _).
    destruct (read_dots a l [] acc1) as (Hs1 & Hf1 & Hm1 & Hb1 & Ho1 & Hat1);
      [cbn; lia | done | done | cbn; by rewrite lookup_delete_eq |].
    cbn zeta. rewrite Hs1, Hf1, Hm1, Hb1.
    split; [done|]. split; [done|].
    split; [cbn; by rewrite Hb, map_filter_empty|]. split.
    + intros k. case_decide; subst; [by rewrite Hat1|].
      rewrite Ho1 by done. cbn. by rewrite lookup_delete_ne.
    + intros k. cbn. case_decide; subst.
      * rewrite lookup_insert_eq. by destruct m.
      * by rewrite lookup_insert_ne.
  - (* dots only *)
    destruct (Hcd _ _ El) as (_ & Hne & Hpos0 & Hnd).
    pose proof (proj1 (Forall_forall _ _) Hpos0) as Hpos.
    cbn [app].
    destruct (read_dots a l [] acc) as (Hs1 & Hf1 & Hm1 & Hb1 & Ho1 & Hat1);
      [lia | done | done | by rewrite Hd |].
    cbn zeta. rewrite Hs1, Hf1, Hm1, Hb1.
    split; [done|]. split; [done|]. split; [done|]. split.
    + intros k. case_decide; subst; [by rewrite Hat1|]. by rewrite Ho1.
    + intros k. case_decide; subst; done.
  - (* marker only *)
    destruct (Hcm _ _ Em) as (_ & Hmt).
    cbn [app flat_map fold_left]. rewrite readNew_marker_child.
    rewrite setMarker_in by lia. cbn zeta.
    rewrite bool_decide_eq_true_2 by done.
    rewrite removeDot_all by lia. cbn.
    split; [done|]. split; [done|].
    split; [by rewrite Hb, map_filter_empty|]. split.
    + intros k. case_decide; subst; [by rewrite lookup_delete_eq|].
      by rewrite lookup_delete_ne.
    + intros k. case_decide; subst.
      * rewrite lookup_insert_eq. by destruct m.
      * by rewrite lookup_insert_ne.
Qed.
End roundtrip.

Section roundtrip_phases.
Variable fd : FretDiagram.
Hypothesis Hcan : canonical fd.

Lemma read_strings ss : ∀ acc,
  NoDup ss → (∀ s, s ∈ ss → 0 ≤ s < _strings fd) →
  _strings acc = _strings fd → _barres acc = ∅ →
  (∀ s, s ∈ ss → _dots acc !! s = None ∧ _markers acc !! s = None) →
  let acc' := fold_left readNew_child (flat_map (writeNew_string fd) ss) acc in
  _strings acc' = _strings fd ∧ _frets acc' = _frets acc ∧ _barres acc' = ∅
  ∧ (∀ k, _dots acc' !! k = if decide (k ∈ ss) then _dots fd !! k
                            else _dots acc !! k)
  ∧ (∀ k, _markers acc' !! k = if decide (k ∈ ss) then _markers fd !! k
                               else _markers acc !! k).
Proof.
  induction ss as [|a ss IH]; intros acc Hnd Hin Hs Hb Hfree; cbn [flat_map].
  { cbn. repeat split; try done; intros k; by rewrite decide_False by apply not_elem_of_nil. }
  apply NoDup_cons in Hnd as [Ha Hnd]. rewrite fold_left_app.
  destruct (Hfree a) as [Hda Hma]; [by left|].
  destruct (read_string fd Hcan a acc) as (Hs1 & Hf1 & Hb1 & Hd1 & Hm1);
    [apply Hin; by left | done | done | done | done |].
  cbn zeta in Hs1, Hf1, Hb1, Hd1, Hm1.
  set (acc1 := fold_left readNew_child (writeNew_string fd a) acc) in *.
  destruct (IH acc1) as (Hs2 & Hf2 & Hb2 & Hd2 & Hm2).
  - done.
  - intros s Hsin. apply Hin. by right.
  - by rewrite Hs1.
  - done.
  - intros s Hsin. rewrite Hd1, Hm1.
    rewrite !decide_False by (intros ->; done). apply Hfree. by right.
  - cbn zeta. rewrite Hs2, Hf2, Hb2, Hf1.
    split; [done|]. split; [done|]. split; [done|]. split.
    + intros k. rewrite Hd2, Hd1.
      destruct (decide (k ∈ ss)) as [Hk|Hk], (decide (k = a)) as [->|Hne],
        (decide (_ ∈ a :: ss)) as [Hc|Hc]; try done.
      all: try (destruct Hc; apply elem_of_cons; auto).
      apply elem_of_cons in Hc as [?|?]; done.
    + intros k. rewrite Hm2, Hm1.
      destruct (decide (k ∈ ss)) as [Hk|Hk], (decide (k = a)) as [->|Hne],
        (decide (_ ∈ a :: ss)) as [Hc|Hc]; try done.
      all: try (destruct Hc; apply elem_of_cons; auto).
      apply elem_of_cons in Hc as [?|?]; done.
Qed.

Lemma read_barre f acc :
  _strings acc = _strings fd →
  fold_left readNew_child (writeNew_barre fd f) acc
  = match _barres fd !! f with
    | Some b => with_barres (<[f := b]> (_barres acc)) acc
    | None => acc
    end.
Proof.
  intros Hs. destruct Hcan as (_ & _ & Hcb).
  unfold writeNew_barre, barre. cbn zeta.
  destruct (_barres fd !! f) as [b|] eqn:E; [|done].
  destruct (Hcb _ _ E) as (_ & Hst & Hen).
  assert (Barre_exists b = true) as -> by (apply Z.ltb_lt; lia).
  cbn [negb fold_left]. rewrite readNew_child_barre.
  unfold setBarre. destruct (Z.eqb_spec (startString b) (-1)); [lia|].
  rewrite Hs.
  destruct (Z.leb_spec 0 (startString b)), (Z.leb_spec (-1) (endString b)),
    (Z.ltb_spec (startString b) (_strings fd)),
    (Z.ltb_spec (endString b) (_strings fd)); try lia.
  cbn [andb]. by destruct b.
Qed.

Lemma read_barres fs : ∀ acc,
  NoDup fs → _strings acc = _strings fd →
  let acc' := fold_left readNew_child (flat_map (writeNew_barre fd) fs) acc in
  _dots acc' = _dots acc ∧ _markers acc' = _markers acc
  ∧ _strings acc' = _strings acc
  ∧ (∀ k, _barres acc' !! k
          = if decide (k ∈ fs)
            then (match _barres fd !! k with
                  | Some b => Some b
                  | None => _barres acc !! k
                  end)
            else _barres acc !! k).
Proof.
  induction fs as [|a fs IH]; intros acc Hnd Hs; cbn [flat_map].
  { cbn. repeat split; try done; intros k; by rewrite decide_False by apply not_elem_of_nil. }
  apply NoDup_cons in Hnd as [Ha Hnd]. rewrite fold_left_app.
  rewrite read_barre by done.
  set (acc1 := match _barres fd !! a with Some b => _ | None => acc end).
  assert (_dots acc1 = _dots acc ∧ _markers acc1 = _markers acc
          ∧ _strings acc1 = _strings acc
          ∧ ∀ k, _barres acc1 !! k
                 = if decide (k = a)
                   then (match _barres fd !! a with
                         | Some b => Some b
                         | None => _barres acc !! a
                         end)
                   else _barres acc !! k) as (Hd1 & Hm1 & Hs1 & Hb1).
  { subst acc1. destruct (_barres fd !! a) as [b|]; cbn.
    - repeat split; try done. intros k. case_decide; subst.
      + by rewrite lookup_insert_eq.
      + by rewrite lookup_insert_ne.
    - repeat split; try done. intros k. by case_decide; subst. }
  destruct (IH acc1) as (Hd2 & Hm2 & Hs2 & Hb2); [done | by rewrite Hs1 |].
  cbn zeta. rewrite Hd2, Hm2, Hs2, Hd1, Hm1, Hs1.
  split; [done|]. split; [done|]. split; [done|].
  intros k. rewrite Hb2, Hb1.
  destruct (decide (k ∈ fs)) as [Hk|Hk], (decide (k = a)) as [->|Hne],
    (decide (_ ∈ a :: fs)) as [Hc|Hc]; try done.
  all: try (destruct Hc; apply elem_of_cons; auto).
  apply elem_of_cons in Hc as [?|?]; done.
Qed.

End roundtrip_phases.

(** C2, as the code has it.  On every diagram that stores no marker of
    type NONE, only dots with positive frets, none twice on a string,
    and only barres at visible frets with their ends on strings (or
    open), [writeNew] followed by [readNew] into a new diagram with the
    same string and fret counts gives back the dots, markers and barres
    maps. *)
Theorem writeNew_readNew_roundtrip (fd : FretDiagram) :
  canonical fd →
  let fd' := readNew (writeNew fd) (makeFretDiagram (_strings fd) (_frets fd)) in
  _dots fd' = _dots fd ∧ _markers fd' = _markers fd ∧ _barres fd' = _barres fd.
Proof.
  intros Hcan fd'. subst fd'. unfold readNew, writeNew.
  rewrite fold_left_app.
  destruct (read_strings fd Hcan (seqZ 0 (_strings fd))
              (makeFretDiagram (_strings fd) (_frets fd)))
    as (Hs1 & Hf1 & Hb1 & Hd1 & Hm1);
    [apply NoDup_seqZ | by intros s ?%elem_of_seqZ | done | done
     | intros s _; cbn; by rewrite !lookup_empty |].
  cbn zeta in Hs1, Hf1, Hb1, Hd1, Hm1.
  set (acc1 := fold_left readNew_child (flat_map (writeNew_string fd) _) _) in *.
  destruct (read_barres fd Hcan (seqZ 1 (_frets fd)) acc1)
    as (Hd2 & Hm2 & _ & Hb2); [apply NoDup_seqZ | done |].
  cbn zeta in Hd2, Hm2, Hb2. rewrite Hd2, Hm2.
  destruct Hcan as (Hcd & Hcm & Hcb).
  split; [|split]; apply map_eq; intros k.
  - rewrite Hd1. cbn. rewrite lookup_empty.
    case_decide as Hk; [done|]. rewrite elem_of_seqZ in Hk.
    destruct (_dots fd !! k) as [l|] eqn:E; [|done].
    destruct (Hcd _ _ E) as (? & _). lia.
  - rewrite Hm1. cbn. rewrite lookup_empty.
    case_decide as Hk; [done|]. rewrite elem_of_seqZ in Hk.
    destruct (_markers fd !! k) as [m|] eqn:E; [|done].
    destruct (Hcm _ _ E) as (? & _). lia.
  - rewrite Hb2, Hb1, lookup_empty.
    case_decide as Hk; [by destruct (_barres fd !! k)|].
    rewrite elem_of_seqZ in Hk.
    destruct (_barres fd !! k) as [b|] eqn:E; [|done].
    destruct (Hcb _ _ E) as (? & _). lia.
Qed.

Lemma writeNew_readNew_roundtrip_witness :
  let fd := setBarre 0 (-1) 1 (setDot 0 1 true DOT_NORMAL (makeFretDiagram 6 4)) in
  canonical fd
  ∧ _barres (readNew (writeNew fd) (makeFretDiagram (_strings fd) (_frets fd)))
    = _barres fd.
Proof.
  cbn zeta.
  assert (canonical (setBarre 0 (-1) 1
                       (setDot 0 1 true DOT_NORMAL (makeFretDiagram 6 4)))) as Hc
    by (apply (@bool_decide_unpack _ (canonical_dec _)); vm_compute; exact I).
  split; [exact Hc|].
  apply (writeNew_readNew_roundtrip _ Hc).
Defined.

(** The four diagrams of the spec's test, with the dot set in add mode:
    each is read back as written. *)
Example roundtrip_samples :
  Forall (λ fd,
            let fd' := readNew (writeNew fd)
                         (makeFretDiagram (_strings fd) (_frets fd)) in
            _dots fd' = _dots fd ∧ _markers fd' = _markers fd
            ∧ _barres fd' = _barres fd)
    [ makeFretDiagram 6 4;
      setDot 2 3 true DOT_SQUARE (makeFretDiagram 6 4);
      setMarker 5 MARKER_CIRCLE (makeFretDiagram 6 4);
      setBarre 0 (-1) 1 (setDot 0 1 true DOT_NORMAL (makeFretDiagram 6 4)) ].
Proof.
  repeat apply Forall_cons_2; try apply Forall_nil_2; by vm_compute.
Qed.

(** C2 as stated fails on the second diagram of its own list: [setDot]
    in its default mode ([add = false]) stores a NONE marker next to the
    dot; the writer skips it and the reader does not recreate it. *)
Lemma roundtrip_loses_NONE_marker :
  let fd := setDot 0 1 false DOT_NORMAL (makeFretDiagram 6 4) in
  let fd' := readNew (writeNew fd) (makeFretDiagram (_strings fd) (_frets fd)) in
  reachable fd
  ∧ _markers fd !! 0 = Some (mkMarker MARKER_NONE)
  ∧ _markers fd' !! 0 = None
  ∧ _markers fd' ≠ _markers fd.
Proof.
  cbn zeta. split; [apply reach_setDot, reach_new|].
  split; [by vm_compute|]. split; [by vm_compute|].
  intros H. apply (f_equal (λ m, m !! 0)) in H. vm_compute in H. discriminate.
Qed.

(** ** The legacy format (claim C6) *)







Lemma dot_all_exists fd s d :
  d ∈ dot fd s 0 ∧ Dot_exists d = true
  ↔ d ∈ default [] (_dots fd !! s) ∧ Dot_exists d = true.
Proof.
  rewrite dot_all. destruct (_dots fd !! s); cbn; [done|].
  split; intros [H1 H2].
  - apply list_elem_of_singleton in H1 as ->. done.
  - by apply elem_of_nil in H1.
Qed.



Lemma barre_entries_elem (m : gmap Z Barre) k b :
  (k, b) ∈ barre_entries m ↔ m !! k = Some b.
Proof.
  unfold barre_entries. rewrite merge_sort_Permutation.
  apply elem_of_map_to_list.
Qed.






(** *** Reading the legacy format *)










Lemma read_child_string st i children :
  haveReadNew st = false →
  read_child st (XElement "string" [("no"%string, i)] XNone children)
  = mkRead (fold_left (read_string_child i) children (read_fd st))
           (hasBarre st) false.
Proof. intros Hn. unfold read_child. rewrite Hn. reflexivity. Qed.


(** *** Writing and reading back a full barre *)







(** The sample of the spec's test: six strings, dots at (1, 1) and
    (3, 2), the open barre from string 0 at fret 1.  The legacy document
    carries the synthetic dot on string 0 and the flag, and is read back
    with the barre. *)
Example legacy_sample :
  let fd := setBarre 0 (-1) 1
              (setDot 3 2 true DOT_NORMAL
                 (setDot 1 1 true DOT_NORMAL (makeFretDiagram 6 4))) in
  writeOld fd
  = [ XElement "string" [("no"%string, 0)] XNone [XElement "dot" [] (XInt 1) []];
      XElement "string" [("no"%string, 1)] XNone [XElement "dot" [] (XInt 1) []];
      XElement "string" [("no"%string, 3)] XNone [XElement "dot" [] (XInt 2) []];
      barre_flag ]
  ∧ _barres (read (writeOld fd) (makeFretDiagram 6 4)) = {[1 := mkBarre 0 (-1)]}.
Proof. by vm_compute. Qed.


(** * Further properties *)

(** ** The header fields under the edits *)

Lemma removeDot_header s f fd :
  _strings (removeDot s f fd) = _strings fd
  ∧ _frets (removeDot s f fd) = _frets fd
  ∧ _fretOffset (removeDot s f fd) = _fretOffset fd.
Proof. rewrite removeDot_eq. by destruct (if 0 <? f then _ else _). Qed.

Lemma setMarker_header s t fd :
  _strings (setMarker s t fd) = _strings fd
  ∧ _frets (setMarker s t fd) = _frets fd
  ∧ _fretOffset (setMarker s t fd) = _fretOffset fd.
Proof.
  unfold setMarker. case_match; [|done]. case_bool_decide; [|done].
  destruct (removeDot_header s 0
              (with_markers (<[s := mkMarker t]> (_markers fd)) fd))
    as (H1 & H2 & H3).
  unfold removeBarres. cbn. by rewrite H1, H2, H3.
Qed.

Lemma setDot_header s f add dt fd :
  _strings (setDot s f add dt fd) = _strings fd
  ∧ _frets (setDot s f add dt fd) = _frets fd
  ∧ _fretOffset (setDot s f add dt fd) = _fretOffset fd.
Proof.
  unfold setDot. case_match; [apply removeDot_header|].
  case_match; [|done]. destruct add.
  - case_match; [done|]. case_match; [apply removeDot_header|done].
  - destruct (setMarker_header s MARKER_NONE
                (push_dot s (mkDot f dt) (with_dots (<[s := []]> (_dots fd)) fd)))
      as (-> & -> & ->). done.
Qed.

Lemma removeDotsMarkers_header ss es f fd :
  _strings (removeDotsMarkers ss es f fd) = _strings fd
  ∧ _frets (removeDotsMarkers ss es f fd) = _frets fd
  ∧ _fretOffset (removeDotsMarkers ss es f fd) = _fretOffset fd.
Proof.
  unfold removeDotsMarkers. case_match; [done|].
  generalize (seqZ ss ((if es =? -1 then _strings fd else es) - ss + 1)).
  intros ks. revert fd. induction ks as [|k ks IH]; intros fd; [done|].
  cbn [fold_left]. destruct (IH (removeDotsMarkers_step f fd k)) as (-> & -> & ->).
  destruct (removeDot_header k f fd) as (H1 & H2 & H3).
  unfold removeDotsMarkers_step. case_match; cbn; by rewrite H1, H2, H3.
Qed.

Lemma setBarre_toggle_header s f add fd :
  _strings (setBarre_toggle s f add fd) = _strings fd
  ∧ _frets (setBarre_toggle s f add fd) = _frets fd
  ∧ _fretOffset (setBarre_toggle s f add fd) = _fretOffset fd.
Proof.
  unfold setBarre_toggle. repeat case_match; try done.
  - apply (removeDotsMarkers_header s (-1) f
             (with_barres (<[f := mkBarre s (-1)]> (_barres fd)) fd)).
  - destruct (removeDotsMarkers_header (startString (barre fd f))
                (endString (barre fd f)) f fd) as (H1 & H2 & H3).
    cbn. by rewrite H1, H2, H3.
Qed.

Lemma edit_header e fd :
  _strings (edit fd e) = _strings fd
  ∧ _frets (edit fd e) = _frets fd
  ∧ _fretOffset (edit fd e) = _fretOffset fd.
Proof.
  destruct e; cbn [edit].
  - apply setDot_header.
  - apply setMarker_header.
  - unfold setBarre. by repeat case_match.
  - apply setBarre_toggle_header.
  - done.
Qed.

Lemma edits_header es : ∀ fd,
  _strings (fold_left edit es fd) = _strings fd
  ∧ _frets (fold_left edit es fd) = _frets fd
  ∧ _fretOffset (fold_left edit es fd) = _fretOffset fd.
Proof.
  induction es as [|e es IH]; intros fd; [done|].
  cbn [fold_left]. destruct (IH (edit fd e)) as (-> & -> & ->).
  apply edit_header.
Qed.

(** ** Undo data *)

(** X1.  A snapshot taken before any sequence of dot, marker and barre
    edits (both forms of [setBarre], [clear]) and applied afterwards
    gives back the diagram as it was, all six fields. *)
Theorem undo_restores_edits (fd : FretDiagram) (es : list FretEdit) :
  updateDiagram (FretUndoData_new fd) (fold_left edit es fd) = fd.
Proof.
  unfold updateDiagram, FretUndoData_new. cbn.
  destruct (edits_header es fd) as (-> & -> & ->). by destruct fd.
Qed.

(** X2.  The snapshot holds the three maps only: taken before
    [setStrings(n)] and applied afterwards, it puts the old maps back
    under the new string count, so dots and markers sit at their old
    indices, not at the shifted ones. *)
Theorem undo_keeps_new_string_count (fd : FretDiagram) (n : Z) :
  0 < n →
  updateDiagram (FretUndoData_new fd) (setStrings n fd) = with_strings n fd.
Proof.
  intros Hn. unfold updateDiagram, FretUndoData_new, with_strings. cbn.
  destruct (decide (n = _strings fd)) as [->|Hne].
  - by rewrite setStrings_noop by auto.
  - by destruct (setStrings_spec n fd Hn Hne) as (-> & -> & -> & _).
Qed.

Lemma undo_keeps_new_string_count_witness :
  0 < 4
  ∧ updateDiagram (FretUndoData_new (setDot 5 2 false DOT_NORMAL (makeFretDiagram 6 4)))
      (setStrings 4 (setDot 5 2 false DOT_NORMAL (makeFretDiagram 6 4)))
    = with_strings 4 (setDot 5 2 false DOT_NORMAL (makeFretDiagram 6 4)).
Proof. split; [lia|]. apply undo_keeps_new_string_count. lia. Defined.

(** ** The name tables and the legacy marker letters *)

(** X3.  The names of the current format identify the types: a type is
    read back from its name, a name that is in the table is read back
    from its type, and a name outside the table reads as the default
    type (marker NONE, dot NORMAL). *)
Theorem type_names_roundtrip :
  (∀ t, nameToMarkerType (markerTypeToName t) = t)
  ∧ (∀ t, nameToDotType (dotTypeToName t) = t)
  ∧ (∀ n, markerTypeToName (nameToMarkerType n) = n
          ∨ (nameToMarkerType n = MARKER_NONE ∧ ∀ t, markerTypeToName t ≠ n))
  ∧ (∀ n, dotTypeToName (nameToDotType n) = n
          ∨ (nameToDotType n = DOT_NORMAL ∧ ∀ t, dotTypeToName t ≠ n)).
Proof.
  split; [by intros []|]. split; [by intros []|]. split; intros n.
  - unfold nameToMarkerType, markerTypeNameMap. cbn [List.find snd fst].
    repeat case_bool_decide; subst; auto.
    right. split; [done|]. by intros [].
  - unfold nameToDotType, dotTypeNameMap. cbn [List.find snd fst].
    repeat case_bool_decide; subst; auto.
    right. split; [done|]. by intros [].
Qed.

(** X4.  The legacy format writes a marker as the code of its letter;
    the legacy reader gives back CROSS and CIRCLE from their letters and
    reads every number that is not the code of ['X'] as CIRCLE. *)
Theorem legacy_marker_letters (s : Z) (fd : FretDiagram) :
  (∀ t, t ≠ MARKER_NONE →
        read_string_child s fd (XElement "marker" [] (XInt (markerToChar t)) [])
        = setMarker s t fd)
  ∧ (∀ z, z mod 65536 ≠ 88 →
          read_string_child s fd (XElement "marker" [] (XInt z) [])
          = setMarker s MARKER_CIRCLE fd).
Proof.
  split.
  - by intros [] ?.
  - intros z Hz. unfold read_string_child. cbn.
    by destruct (Z.eqb_spec (z mod 65536) 88).
Qed.

Lemma legacy_marker_letters_witness :
  MARKER_CROSS ≠ MARKER_NONE
  ∧ read_string_child 0 (makeFretDiagram 6 4) (XElement "marker" [] (XInt 88) [])
    = setMarker 0 MARKER_CROSS (makeFretDiagram 6 4).
Proof.
  split; [done|].
  by apply (proj1 (legacy_marker_letters 0 (makeFretDiagram 6 4)) MARKER_CROSS).
Defined.

(** ** The element as a whole: [write] and [read] *)

Lemma read_child_done st e : haveReadNew st = true → read_child st e = st.
Proof. intros H. unfold read_child. by rewrite H. Qed.

Lemma read_children_done doc : ∀ st,
  haveReadNew st = true → fold_left read_child doc st = st.
Proof.
  induction doc as [|e doc IH]; intros st H; [done|].
  cbn [fold_left]. rewrite read_child_done by done. by apply IH.
Qed.

Lemma read_child_new st e :
  xml_name e = "fretDiagram"%string →
  haveReadNew (read_child st e) = true.
Proof.
  intros He. unfold read_child. destruct (haveReadNew st) eqn:E; [done|].
  by rewrite He.
Qed.

Lemma read_props_flags props : ∀ st,
  Forall (λ e, xml_name e ≠ "fretDiagram"%string ∧ xml_name e ≠ "barre"%string)
         props →
  haveReadNew st = false →
  haveReadNew (fold_left read_child props st) = false
  ∧ hasBarre (fold_left read_child props st) = hasBarre st.
Proof.
  induction props as [|e props IH]; intros st Hp Hst; [done|].
  apply Forall_cons in Hp as [[He1 He2] Hp]. cbn [fold_left].
  assert (haveReadNew (read_child st e) = false
          ∧ hasBarre (read_child st e) = hasBarre st) as [H1 H2].
  { unfold read_child. rewrite Hst.
    rewrite (bool_decide_eq_false_2 _ He1).
    repeat (case_bool_decide; [done|]). done. }
  destruct (IH (read_child st e) Hp H1) as [-> ->]. done.
Qed.

(** X5.  Once the reader has met a [fretDiagram] element it skips every
    later tag of the diagram: what follows that element, legacy tags
    included, has no effect on the result. *)
Theorem read_stops_after_new_format (pre post : list Xml) (e : Xml)
    (fd : FretDiagram) :
  xml_name e = "fretDiagram"%string →
  read (pre ++ e :: post) fd = read (pre ++ [e]) fd.
Proof.
  intros He. unfold read. rewrite !fold_left_app. cbn [fold_left].
  by rewrite read_children_done by by apply read_child_new.
Qed.

Lemma read_stops_after_new_format_witness :
  xml_name (XElement "fretDiagram" [] XNone []) = "fretDiagram"%string
  ∧ read ([] ++ XElement "fretDiagram" [] XNone [] :: [barre_flag])
         (makeFretDiagram 6 4)
    = read ([] ++ [XElement "fretDiagram" [] XNone []]) (makeFretDiagram 6 4).
Proof. split; [done|]. by apply read_stops_after_new_format. Defined.

(** X6.  Reading what [write] wrote: when the tags written before the
    [fretDiagram] element are none of [fretDiagram] and [barre], the
    result is [readNew] of [writeNew]'s tags, applied to the diagram as
    those leading tags left it.  The legacy tags that [write] appends
    are not read, and no barre is derived from them. *)
Theorem read_write (props : list Xml) (fd fd0 : FretDiagram) :
  Forall (λ e, xml_name e ≠ "fretDiagram"%string ∧ xml_name e ≠ "barre"%string)
         props →
  read (write true props fd) fd0 = readNew (writeNew fd) (read props fd0).
Proof.
  intros Hp. unfold write. cbn [negb].
  change (props ++ [XElement "fretDiagram" [] XNone (writeNew fd)] ++ writeOld fd)
    with (props ++ XElement "fretDiagram" [] XNone (writeNew fd) :: writeOld fd).
  unfold read. rewrite fold_left_app. cbn [fold_left].
  destruct (read_props_flags props (mkRead fd0 false false) Hp eq_refl)
    as [Hn Hb]. cbn in Hb.
  set (st := fold_left read_child props _) in *.
  assert (read_child st (XElement "fretDiagram" [] XNone (writeNew fd))
          = mkRead (readNew (writeNew fd) (read_fd st)) false true) as ->.
  { unfold read_child. rewrite Hn, Hb. done. }
  rewrite read_children_done by done. cbn. by rewrite Hb.
Qed.

Lemma read_write_witness :
  Forall (λ e, xml_name e ≠ "fretDiagram"%string ∧ xml_name e ≠ "barre"%string)
         [XElement "frets" [] (XInt 5) []]
  ∧ read (write true [XElement "frets" [] (XInt 5) []]
            (setBarre 0 (-1) 1 (setDot 0 1 true DOT_NORMAL (makeFretDiagram 6 5))))
         (makeFretDiagram 6 4)
    = setBarre 0 (-1) 1 (setDot 0 1 true DOT_NORMAL (makeFretDiagram 6 5)).
Proof.
  assert (Forall (λ e, xml_name e ≠ "fretDiagram"%string
                       ∧ xml_name e ≠ "barre"%string)
                 [XElement "frets" [] (XInt 5) []]) as Hp
    by (apply Forall_cons_2; [done|apply Forall_nil_2]).
  split; [exact Hp|].
  rewrite (read_write _ _ _ Hp). by vm_compute.
Defined.

(** ** Edits that undo themselves *)

Lemma FretDiagram_eq (a b : FretDiagram) :
  _strings a = _strings b → _frets a = _frets b → _fretOffset a = _fretOffset b →
  _dots a = _dots b → _markers a = _markers b → _barres a = _barres b → a = b.
Proof. destruct a, b. cbn. by intros -> -> -> -> -> ->. Qed.

Lemma filter_filter_same {A} (P : A → bool) l :
  List.filter P (List.filter P l) = List.filter P l.
Proof.
  induction l as [|x l IH]; [done|]. cbn. destruct (P x) eqn:E; [|done].
  cbn. by rewrite E, IH.
Qed.

Lemma filter_all {A} (P : A → bool) l :
  (∀ x, x ∈ l → P x = true) → List.filter P l = l.
Proof.
  induction l as [|x l IH]; intros H; [done|]. cbn.
  rewrite H by (apply elem_of_cons; auto).
  f_equal. apply IH. intros y Hy. apply H, elem_of_cons. auto.
Qed.

Lemma keep_dots_idem f o : keep_dots f (keep_dots f o) = keep_dots f o.
Proof.
  unfold keep_dots. destruct (0 <? f); [|done].
  destruct (List.filter _ (default [] o)) as [|d l] eqn:E; [done|].
  cbn [from_option id]. rewrite <- E, filter_filter_same. by rewrite E.
Qed.

Lemma keep_marker_idem o : keep_marker (keep_marker o) = keep_marker o.
Proof.
  destruct o as [m|]; [|done]. cbn. destruct (Marker_exists m) eqn:E; [done|].
  cbn. by rewrite E.
Qed.

(** X7.  A click in add mode on a free place of a string adds a dot;
    the same click again takes it away and the diagram is as before.
    This holds when the vector of the string, if there is one, is not
    empty and holds existing dots only, as in every diagram the edits
    build from existing dots. *)
Theorem setDot_add_twice (fd : FretDiagram) (s f : Z) (dt : FretDotType) :
  0 ≤ s < _strings fd → 0 < f →
  (∀ l, _dots fd !! s = Some l → l ≠ [] ∧ Forall (λ d, 0 < fret d) l) →
  (∀ d, d ∈ default [] (_dots fd !! s) → fret d ≠ f) →
  setDot s f true dt (setDot s f true dt fd) = fd.
Proof.
  intros Hs Hf Hok Hno.
  rewrite (setDot_add_absent fd s f Hs Hf dt Hno).
  set (l := default [] (_dots fd !! s)) in *.
  assert (_dots (push_dot s (mkDot f dt) fd) !! s = Some (l ++ [mkDot f dt])) as Hl
    by (cbn; by rewrite lookup_insert_eq).
  rewrite setDot_add_present; [|done|done|].
  2:{ exists (mkDot f dt). rewrite Hl. cbn [from_option id]. split; [|done].
      apply elem_of_app. right. by apply list_elem_of_singleton. }
  rewrite removeDot_eq. destruct (Z.ltb_spec 0 f); [|lia].
  rewrite dot_all, Hl. cbn [from_option id].
  rewrite List.filter_app. cbn [List.filter fret].
  replace (Dot_exists (mkDot f dt) && negb (f =? f)) with false
    by (rewrite Z.eqb_refl; by rewrite andb_false_r).
  rewrite app_nil_r, filter_all.
  2:{ intros d Hd. pose proof (Hno d Hd) as Hne. subst l.
      destruct (_dots fd !! s) as [l0|] eqn:E; [|by apply elem_of_nil in Hd].
      destruct (Hok _ eq_refl) as [_ Hpos].
      pose proof (proj1 (Forall_forall _ _) Hpos d Hd) as Hd0. cbn in Hd0.
      unfold Dot_exists. destruct (Z.ltb_spec 0 (fret d)); [|lia].
      by destruct (Z.eqb_spec (fret d) f). }
  apply FretDiagram_eq; try done. cbn [_dots push_dot with_dots].
  subst l. destruct (_dots fd !! s) as [l0|] eqn:E; cbn [from_option id].
  - destruct (Hok _ eq_refl) as [Hne _]. destruct l0 as [|d0 l0]; [done|].
    rewrite insert_insert_eq. by apply insert_id.
  - rewrite delete_insert_eq. by apply delete_id.
Qed.

Lemma setDot_add_twice_witness :
  (0 ≤ 2 < 6 ∧ 0 < 3)
  ∧ setDot 2 3 true DOT_SQUARE
      (setDot 2 3 true DOT_SQUARE (setDot 2 1 true DOT_NORMAL (makeFretDiagram 6 4)))
    = setDot 2 1 true DOT_NORMAL (makeFretDiagram 6 4).
Proof.
  split; [lia|].
  apply setDot_add_twice.
  - change (0 ≤ 2 < 6). lia.
  - lia.
  - intros l Hl. vm_compute in Hl. injection Hl as <-.
    split; [done|]. apply Forall_cons_2; [done|apply Forall_nil_2].
  - intros d Hd. vm_compute in Hd.
    apply list_elem_of_singleton in Hd as ->. done.
Defined.

(** X8.  The three clicks of the barre toggle on a fret without a barre:
    the first (on string [s1]) opens a barre from [s1], the second (on a
    later string [s2]) closes it at [s2] and touches nothing else, the
    third (on any string) removes the barre again and leaves dots and
    markers as the first click left them. *)
Theorem barre_toggle_cycle (fd : FretDiagram) (s1 s2 s3 f : Z) (a1 a2 a3 : bool) :
  Barre_exists (barre fd f) = false → 0 ≤ s1 < s2 → s2 < _strings fd →
  let fd1 := setBarre_toggle s1 f a1 fd in
  let fd2 := setBarre_toggle s2 f a2 fd1 in
  let fd3 := setBarre_toggle s3 f a3 fd2 in
  _barres fd1 = <[f := mkBarre s1 (-1)]> (_barres fd)
  ∧ fd2 = with_barres (<[f := mkBarre s1 s2]> (_barres fd)) fd1
  ∧ fd3 = with_barres (delete f (_barres fd)) fd1.
Proof.
  intros Hb Hs1 Hs2 fd1 fd2 fd3.
  set (fd0 := with_barres (<[f := mkBarre s1 (-1)]> (_barres fd)) fd).
  assert (fd1 = removeDotsMarkers s1 (-1) f fd0) as E1.
  { subst fd1. unfold setBarre_toggle. rewrite Hb. cbn [negb].
    by destruct (Z.ltb_spec s1 (_strings fd - 1)); [|lia]. }
  destruct (removeDotsMarkers_spec s1 (-1) f fd0) as (Hd1 & Hm1 & Hb1 & Hn1 & Hf1);
    [lia|]. cbn zeta in *. rewrite <- E1 in *.
  change (-1 =? -1) with true in Hd1, Hm1. cbn iota in Hd1, Hm1.
  change (_strings fd0) with (_strings fd) in *.
  change (_barres fd0) with (<[f := mkBarre s1 (-1)]> (_barres fd)) in *.
  assert (barre fd1 f = mkBarre s1 (-1)) as Hbar1
    by (unfold barre; by rewrite Hb1, lookup_insert_eq).
  assert (fd2 = with_barres (<[f := mkBarre s1 s2]> (_barres fd)) fd1) as E2.
  { subst fd2. unfold setBarre_toggle. rewrite Hbar1.
    replace (Barre_exists (mkBarre s1 (-1))) with true
      by (unfold Barre_exists; cbn; by destruct (Z.ltb_spec (-1) s1); [|lia]).
    cbn [negb endString startString].
    change (-1 =? -1) with true. cbn [andb].
    destruct (Z.ltb_spec s1 s2); [|lia].
    by rewrite Hb1, insert_insert_eq. }
  split; [done|]. split; [done|].
  assert (barre fd2 f = mkBarre s1 s2) as Hbar2
    by (rewrite E2; unfold barre; cbn; by rewrite lookup_insert_eq).
  subst fd3. unfold setBarre_toggle. rewrite Hbar2.
  replace (Barre_exists (mkBarre s1 s2)) with true
    by (unfold Barre_exists; cbn; by destruct (Z.ltb_spec (-1) s1); [|lia]).
  cbn [negb endString startString].
  destruct (Z.eqb_spec s2 (-1)); [lia|]. cbn [andb].
  destruct (removeDotsMarkers_spec s1 s2 f fd2) as (Hd3 & Hm3 & Hb3 & Hn3 & Hf3);
    [lia|]. cbn zeta in *.
  destruct (Z.eqb_spec s2 (-1)); [lia|].
  destruct (removeDotsMarkers_header s1 s2 f fd2) as (_ & _ & Ho3).
  unfold removeBarre. apply FretDiagram_eq; cbn.
  - rewrite Hn3. by rewrite E2.
  - rewrite Hf3. by rewrite E2.
  - rewrite Ho3. by rewrite E2.
  - apply map_eq. intros k. rewrite Hd3. rewrite E2. cbn.
    case_decide as Hk; [|done]. rewrite Hd1.
    rewrite decide_True by lia. apply keep_dots_idem.
  - apply map_eq. intros k. rewrite Hm3. rewrite E2. cbn.
    case_decide as Hk; [|done]. rewrite Hm1.
    rewrite decide_True by lia. apply keep_marker_idem.
  - rewrite Hb3, E2. cbn. by rewrite delete_insert_eq.
Qed.

Lemma barre_toggle_cycle_witness :
  let fd := setDot 3 2 true DOT_NORMAL (makeFretDiagram 6 4) in
  (Barre_exists (barre fd 1) = false ∧ 0 ≤ 1 < 4 ∧ 4 < _strings fd)
  ∧ setBarre_toggle 0 1 false
      (setBarre_toggle 4 1 false (setBarre_toggle 1 1 false fd))
    = with_barres (delete 1 (_barres fd)) (setBarre_toggle 1 1 false fd).
Proof.
  cbn zeta. split; [split; [done|split; [lia|done]]|].
  apply barre_toggle_cycle; [done|lia|done].
Defined.

(** ** Changing the string count and changing it back *)

Lemma nonempty_filter_idem l :
  nonempty (List.filter Dot_exists (default [] (nonempty (List.filter Dot_exists l))))
  = nonempty (List.filter Dot_exists l).
Proof.
  destruct (List.filter Dot_exists l) as [|d l'] eqn:E; [done|].
  cbn [nonempty from_option id]. by rewrite <- E, filter_filter_same, E.
Qed.

Lemma existing_marker_idem o : existing_marker (existing_marker o) = existing_marker o.
Proof.
  destruct o as [m|]; [|done]. cbn. destruct (Marker_exists m) eqn:E; [|done].
  cbn. by rewrite E.
Qed.

Lemma setStrings_there_and_back m fd :
  0 < _strings fd → 0 < m → m ≠ _strings fd →
  let n := _strings fd in
  let fd' := setStrings n (setStrings m fd) in
  _strings fd' = n ∧ _frets fd' = _frets fd ∧ _fretOffset fd' = _fretOffset fd
  ∧ (∀ k, _dots fd' !! k
          = if decide (0 ≤ k < n ∧ n - m ≤ k)
            then nonempty (List.filter Dot_exists (default [] (_dots fd !! k)))
            else None)
  ∧ (∀ k, _markers fd' !! k
          = if decide (0 ≤ k < n ∧ n - m ≤ k)
            then existing_marker (_markers fd !! k)
            else None)
  ∧ (∀ f, _barres fd' !! f
          = if decide (1 ≤ f ≤ _frets fd)
            then shift_barre (n - m) (shift_barre (m - n) (_barres fd !! f))
            else _barres fd !! f).
Proof.
  intros Hn Hm Hne n fd'. subst n fd'.
  destruct (setStrings_spec m fd Hm Hne) as (Hs1 & Hf1 & Ho1 & Hd1 & Hm1 & Hb1).
  cbn zeta in *.
  set (fd1 := setStrings m fd) in *.
  destruct (setStrings_spec (_strings fd) fd1) as (Hs2 & Hf2 & Ho2 & Hd2 & Hm2 & Hb2);
    [done|by rewrite Hs1|].
  cbn zeta in *. rewrite Hs1, ?Hf1 in *.
  split; [done|]. split; [congruence|]. split; [congruence|].
  split; [|split]; intros k.
  - rewrite Hd2. case_decide as H1.
    + rewrite Hd1. rewrite decide_True by lia.
      replace (k - (_strings fd - m) - (m - _strings fd)) with k by lia.
      rewrite nonempty_filter_idem. by rewrite decide_True by lia.
    + by rewrite decide_False by lia.
  - rewrite Hm2. case_decide as H1.
    + rewrite Hm1. rewrite decide_True by lia.
      replace (k - (_strings fd - m) - (m - _strings fd)) with k by lia.
      rewrite existing_marker_idem. by rewrite decide_True by lia.
    + by rewrite decide_False by lia.
  - rewrite Hb2. case_decide as H1; [|by rewrite Hb1, decide_False by done].
    by rewrite Hb1, decide_True by done.
Qed.

Lemma canonical_dots_shown fd k :
  canonical fd →
  nonempty (List.filter Dot_exists (default [] (_dots fd !! k))) = _dots fd !! k.
Proof.
  intros (Hcd & _ & _). destruct (_dots fd !! k) as [l|] eqn:E; [|done].
  destruct (Hcd _ _ E) as (_ & Hne & Hpos & _). cbn [from_option id].
  rewrite filter_all; [by destruct l|].
  intros d Hd. pose proof (proj1 (Forall_forall _ _) Hpos d Hd) as H0.
  cbn in H0. unfold Dot_exists. by destruct (Z.ltb_spec 0 (fret d)); [|lia].
Qed.

Lemma canonical_markers_shown fd k :
  canonical fd → existing_marker (_markers fd !! k) = _markers fd !! k.
Proof.
  intros (_ & Hcm & _). destruct (_markers fd !! k) as [x|] eqn:E; [|done].
  destruct (Hcm _ _ E) as (_ & Hx). cbn. unfold Marker_exists.
  by rewrite bool_decide_eq_true_2.
Qed.

(** X9.  Adding strings and taking them away again gives back the
    diagram, except that every barre starting on string 0 is gone (the
    shrinking step drops a barre whose new start is 0).  Stated for the
    diagrams that the current format carries: existing dots and markers
    on strings of the diagram, barres at visible frets. *)
Theorem setStrings_grow_shrink (fd : FretDiagram) (m : Z) :
  canonical fd → 0 < _strings fd → _strings fd < m →
  setStrings (_strings fd) (setStrings m fd)
  = with_barres (filter (λ kb, startString kb.2 ≠ 0) (_barres fd)) fd.
Proof.
  intros Hcan Hn Hm.
  destruct (setStrings_there_and_back m fd) as (Hs & Hf & Ho & Hd & Hmk & Hb);
    [done|lia|lia|]. cbn zeta in *.
  apply FretDiagram_eq; try done; cbn; apply map_eq; intros k.
  - rewrite Hd. case_decide as H1; [by apply canonical_dots_shown|].
    destruct (_dots fd !! k) as [l|] eqn:E; [|done].
    destruct Hcan as (Hcd & _ & _). destruct (Hcd _ _ E) as (? & _). lia.
  - rewrite Hmk. case_decide as H1; [by apply canonical_markers_shown|].
    destruct (_markers fd !! k) as [x|] eqn:E; [|done].
    destruct Hcan as (_ & Hcm & _). destruct (Hcm _ _ E) as (? & _). lia.
  - rewrite Hb, map_lookup_filter.
    destruct Hcan as (_ & _ & Hcb).
    destruct (_barres fd !! k) as [b|] eqn:E; cbn; [|by case_decide].
    destruct (Hcb _ _ E) as (Hk & Hst & Hen).
    rewrite decide_True by done. destruct b as [bs be]. cbn in Hst, Hen.
    case_guard as Hg; cbn in Hg; cbn [mbind option_bind mret option_ret];
      unfold shift_barre, Barre_exists;
      destruct (Z.eqb_spec be (-1)); zbool; try done; do 2 f_equal; lia.
Qed.

Lemma setStrings_grow_shrink_witness :
  let fd := setBarre 0 (-1) 1 (setDot 2 1 true DOT_NORMAL (makeFretDiagram 6 4)) in
  (canonical fd ∧ 0 < _strings fd ∧ _strings fd < 7)
  ∧ _barres (setStrings (_strings fd) (setStrings 7 fd)) = ∅.
Proof.
  cbn zeta.
  assert (canonical (setBarre 0 (-1) 1
                       (setDot 2 1 true DOT_NORMAL (makeFretDiagram 6 4)))) as Hc
    by (apply (@bool_decide_unpack _ (canonical_dec _)); vm_compute; exact I).
  split; [split; [exact Hc|split; done]|].
  rewrite (setStrings_grow_shrink _ 7 Hc); [by vm_compute|done|done].
Defined.

(** X10.  Taking strings away and adding them back: with [d] strings
    removed, the dots and markers of the first [d] strings are lost and
    so is every barre that starts on string [d] or before it; the rest
    of the diagram comes back unchanged.  Barres are taken to end at or
    after their start, or to be open. *)
Theorem setStrings_shrink_grow (fd : FretDiagram) (m : Z) :
  canonical fd → 0 < m < _strings fd →
  map_Forall (λ _ b, endString b = -1 ∨ startString b ≤ endString b) (_barres fd) →
  let d := _strings fd - m in
  setStrings (_strings fd) (setStrings m fd)
  = with_barres (filter (λ kb, d < startString kb.2) (_barres fd))
      (with_markers (filter (λ km, d ≤ km.1) (_markers fd))
         (with_dots (filter (λ kl, d ≤ kl.1) (_dots fd)) fd)).
Proof.
  intros Hcan Hm Hends d. subst d.
  destruct (setStrings_there_and_back m fd) as (Hs & Hf & Ho & Hd & Hmk & Hb);
    [lia|lia|lia|]. cbn zeta in *.
  apply FretDiagram_eq; try done; cbn; apply map_eq; intros k.
  - rewrite Hd, map_lookup_filter.
    destruct (_dots fd !! k) as [l|] eqn:E; cbn; [|by case_decide].
    pose proof (canonical_dots_shown fd k Hcan) as Hsh. rewrite E in Hsh.
    destruct Hcan as (Hcd & _ & _). destruct (Hcd _ _ E) as (? & _).
    case_guard as Hg; cbn in Hg.
    + by rewrite decide_True by lia.
    + by rewrite decide_False by lia.
  - rewrite Hmk, map_lookup_filter.
    destruct (_markers fd !! k) as [x|] eqn:E; cbn; [|by case_decide].
    pose proof (canonical_markers_shown fd k Hcan) as Hsh. rewrite E in Hsh.
    destruct Hcan as (_ & Hcm & _). destruct (Hcm _ _ E) as (? & _).
    case_guard as Hg; cbn in Hg.
    + by rewrite decide_True by lia.
    + by rewrite decide_False by lia.
  - rewrite Hb, map_lookup_filter.
    destruct Hcan as (_ & _ & Hcb).
    destruct (_barres fd !! k) as [b|] eqn:E; cbn; [|by case_decide].
    destruct (Hcb _ _ E) as (Hk & Hst & Hen).
    pose proof (Hends _ _ E) as Hwf. cbn in Hwf.
    rewrite decide_True by done. destruct b as [bs be]. cbn in Hst, Hen, Hwf.
    case_guard as Hg; cbn in Hg; cbn [mbind option_bind mret option_ret];
      unfold shift_barre, Barre_exists;
      destruct (Z.eqb_spec be (-1)); zbool; try done; do 2 f_equal; lia.
Qed.

Lemma setStrings_shrink_grow_witness :
  let fd := setBarre 2 (-1) 1 (setDot 1 1 true DOT_NORMAL (makeFretDiagram 6 4)) in
  (canonical fd ∧ 0 < 5 < _strings fd)
  ∧ setStrings (_strings fd) (setStrings 5 fd)
    = with_barres (filter (λ kb, _strings fd - 5 < startString kb.2) (_barres fd))
        (with_markers (filter (λ km, _strings fd - 5 ≤ km.1) (_markers fd))
           (with_dots (filter (λ kl, _strings fd - 5 ≤ kl.1) (_dots fd)) fd)).
Proof.
  cbn zeta.
  assert (canonical (setBarre 2 (-1) 1
                       (setDot 1 1 true DOT_NORMAL (makeFretDiagram 6 4)))) as Hc
    by (apply (@bool_decide_unpack _ (canonical_dec _)); vm_compute; exact I).
  split; [split; [exact Hc|done]|].
  apply (setStrings_shrink_grow _ 5 Hc); [done|].
  intros f b Hb. vm_compute in Hb.
  destruct f as [|[]|]; try done. injection Hb as <-. by left.
Defined.

(** ** Reading the legacy format *)

Lemma setDot_replace_any s f dt fd :
  0 ≤ s < _strings fd → f ≠ 0 →
  setDot s f false dt fd =
    mkFretDiagram (_strings fd) (_frets fd) (_fretOffset fd)
      (<[s := [mkDot f dt]]> (_dots fd))
      (<[s := mkMarker MARKER_NONE]> (_markers fd))
      (_barres fd).
Proof.
  intros Hs Hf. unfold setDot.
  destruct (Z.eqb_spec f 0); [lia|]. rewrite in_range_true by done.
  rewrite setMarker_in by done. cbn.
  unfold push_dot, with_dots, with_markers; cbn.
  rewrite lookup_insert_eq. cbn. by rewrite insert_insert_eq.
Qed.

Lemma setDot_replace_dots s f dt fd :
  _dots (setDot s f false dt fd)
  = if f =? 0 then delete s (_dots fd)
    else if (0 <=? s) && (s <? _strings fd) then <[s := [mkDot f dt]]> (_dots fd)
    else _dots fd.
Proof.
  destruct (Z.eqb_spec f 0) as [->|Hf]; [by rewrite setDot_zero|].
  destruct ((0 <=? s) && (s <? _strings fd)) eqn:E.
  - rewrite setDot_replace_any; [done| |done].
    apply andb_true_iff in E as [?%Z.leb_le ?%Z.ltb_lt]. lia.
  - unfold setDot. destruct (Z.eqb_spec f 0); [done|]. by rewrite E.
Qed.

Lemma setMarker_dots s t fd :
  _dots (setMarker s t fd)
  = if (0 <=? s) && (s <? _strings fd) && bool_decide (t ≠ MARKER_NONE)
    then delete s (_dots fd) else _dots fd.
Proof.
  unfold setMarker. destruct ((0 <=? s) && (s <? _strings fd)); [|done].
  cbn [andb]. case_bool_decide; [|done].
  unfold removeBarres. cbn. by rewrite removeDot_all by lia.
Qed.

Lemma single_dots_read_string no children : ∀ fd,
  (∀ s l, _dots fd !! s = Some l → length l = 1%nat) →
  ∀ s l, _dots (fold_left (read_string_child no) children fd) !! s = Some l →
         length l = 1%nat.
Proof.
  induction children as [|c cs IH]; intros fd H; [done|].
  cbn [fold_left]. apply IH. intros s l.
  unfold read_string_child. repeat case_bool_decide.
  - rewrite setDot_replace_dots. repeat case_match.
    + intros [_ ?]%lookup_delete_Some. eauto.
    + intros [[_ <-]|[_ ?]]%lookup_insert_Some; [done|eauto].
    + eauto.
  - rewrite setMarker_dots. case_match; [|eauto].
    intros [_ ?]%lookup_delete_Some. eauto.
  - eauto.
Qed.

Lemma single_dots_setStrings n fd :
  (∀ s l, _dots fd !! s = Some l → length l = 1%nat) →
  ∀ s l, _dots (setStrings n fd) !! s = Some l → length l = 1%nat.
Proof.
  intros H s l.
  destruct (decide (n = _strings fd ∨ n ≤ 0)) as [Hn|Hn];
    [rewrite setStrings_noop by done; eauto|].
  destruct (setStrings_spec n fd) as (_ & _ & _ & Hd & _); [lia|lia|].
  cbn zeta in Hd. rewrite Hd. case_decide; [|done].
  destruct (_dots fd !! (s - (n - _strings fd))) as [l0|] eqn:E; [|done].
  apply H in E. destruct l0 as [|d [|]]; try done.
  cbn. destruct (Dot_exists d); cbn; [|done]. by intros [= <-].
Qed.

(** X11.  The legacy format holds one dot per string.  Whatever a
    document without a [fretDiagram] element contains, reading it into a
    diagram with one dot on each dotted string (a new diagram has none)
    leaves one dot on each dotted string: a later dot of a string
    replaces the earlier one. *)
Theorem legacy_read_single_dots (doc : list Xml) (fd : FretDiagram) :
  Forall (λ e, xml_name e ≠ "fretDiagram"%string) doc →
  (∀ s l, _dots fd !! s = Some l → length l = 1%nat) →
  ∀ s l, _dots (read doc fd) !! s = Some l → length l = 1%nat.
Proof.
  intros Hdoc H0.
  assert (∀ st, haveReadNew st = false →
            (∀ s l, _dots (read_fd st) !! s = Some l → length l = 1%nat) →
            ∀ s l, _dots (read_fd (fold_left read_child doc st)) !! s = Some l →
                   length l = 1%nat) as Hloop.
  { induction Hdoc as [|e doc He Hdoc IH]; intros st Hst H; [done|].
    cbn [fold_left].
    assert (haveReadNew (read_child st e) = false
            ∧ ∀ s l, _dots (read_fd (read_child st e)) !! s = Some l →
                     length l = 1%nat) as [H1 H2].
    { unfold read_child. rewrite Hst, (bool_decide_eq_false_2 _ He).
      repeat case_bool_decide; cbn; (split; [done|]); try done.
      - by apply single_dots_setStrings.
      - by apply single_dots_read_string. }
    by apply IH. }
  unfold read.
  specialize (Hloop (mkRead fd false false) eq_refl H0).
  destruct (hasBarre _); [|done].
  destruct (firstDot _) as [[s0 d0]|]; [|done].
  unfold setBarre. by repeat case_match.
Qed.

Lemma legacy_read_single_dots_witness :
  let doc := [XElement "string" [("no"%string, 1)] XNone
                [XElement "dot" [] (XInt 2) []; XElement "dot" [] (XInt 3) []]] in
  Forall (λ e, xml_name e ≠ "fretDiagram"%string) doc
  ∧ ∀ s l, _dots (read doc (makeFretDiagram 6 4)) !! s = Some l → length l = 1%nat.
Proof.
  cbn zeta.
  assert (Forall (λ e, xml_name e ≠ "fretDiagram"%string)
            [XElement "string" [("no"%string, 1)] XNone
               [XElement "dot" [] (XInt 2) []; XElement "dot" [] (XInt 3) []]]) as Hd
    by (apply Forall_cons_2; [done|apply Forall_nil_2]).
  split; [exact Hd|].
  apply (legacy_read_single_dots _ _ Hd). intros s l H. by cbn in H.
Defined.

(** *** Writing the legacy format and reading it back, without barres *)

Lemma legacy_dots_cons d l :
  legacy_dots (d :: l)
  = if Dot_exists d
    then match legacy_dots l with
         | Some x => Some x
         | None => Some [mkDot (fret d) DOT_NORMAL]
         end
    else legacy_dots l.
Proof.
  unfold legacy_dots. cbn [List.filter]. destruct (Dot_exists d); [|done].
  by destruct (List.filter Dot_exists l).
Qed.

Lemma read_marker_child s t fd :
  t ≠ MARKER_NONE →
  read_string_child s fd (XElement "marker" [] (XInt (markerToChar t)) [])
  = setMarker s t fd.
Proof. by destruct t. Qed.

Lemma read_dot_child s f fd :
  read_string_child s fd (XElement "dot" [] (XInt f) [])
  = setDot s f false DOT_NORMAL fd.
Proof. done. Qed.

Lemma legacy_dots_fold i l : ∀ acc,
  0 ≤ i < _strings acc →
  let acc' :=
    fold_left (read_string_child i)
      (flat_map
         (λ d, if Dot_exists d && negb ((i =? -1) && (fret d =? -1))
               then [XElement "dot" [] (XInt (fret d)) []]
               else []) l) acc in
  _strings acc' = _strings acc ∧ _frets acc' = _frets acc
  ∧ _barres acc' = _barres acc
  ∧ (∀ k, k ≠ i → _dots acc' !! k = _dots acc !! k
                  ∧ _markers acc' !! k = _markers acc !! k)
  ∧ _dots acc' !! i
    = match legacy_dots l with Some x => Some x | None => _dots acc !! i end
  ∧ _markers acc' !! i
    = match legacy_dots l with
      | Some _ => Some (mkMarker MARKER_NONE)
      | None => _markers acc !! i
      end.
Proof.
  induction l as [|d l IH]; intros acc Hi; [done|].
  cbn [flat_map]. rewrite legacy_dots_cons.
  assert (Dot_exists d && negb ((i =? -1) && (fret d =? -1)) = Dot_exists d) as ->
    by (destruct (Z.eqb_spec i (-1)); [lia|]; apply andb_true_r).
  destruct (Dot_exists d) eqn:Ed; [|by apply IH].
  cbn [app fold_left]. rewrite read_dot_child.
  assert (fret d ≠ 0) as Hf
    by (unfold Dot_exists in Ed; apply Z.ltb_lt in Ed; lia).
  rewrite setDot_replace_any by done.
  set (acc1 := mkFretDiagram _ _ _ _ _ _).
  destruct (IH acc1) as (H1 & H2 & H3 & H4 & H5 & H6); [done|].
  cbn zeta in *. rewrite H1, H2, H3, H5, H6.
  split; [done|]. split; [done|]. split; [done|]. split.
  - intros k Hk. destruct (H4 k Hk) as [-> ->]. subst acc1. cbn.
    by rewrite !lookup_insert_ne by done.
  - subst acc1. cbn. rewrite !lookup_insert_eq. by destruct (legacy_dots l).
Qed.

Lemma legacy_dots_accessor fd i :
  legacy_dots (dot fd i 0) = legacy_dots (default [] (_dots fd !! i)).
Proof. unfold legacy_dots. by rewrite filter_exists_dot. Qed.

Lemma dotExists_filter l : dotExists l = false → List.filter Dot_exists l = [].
Proof.
  intros H. induction l as [|d l IH]; [done|].
  cbn in *. apply orb_false_iff in H as [-> H]. by apply IH.
Qed.

Lemma marker_exists_existing fd i :
  existing_marker (_markers fd !! i)
  = if Marker_exists (marker fd i) then Some (marker fd i) else None.
Proof. unfold marker. by destruct (_markers fd !! i). Qed.

Lemma legacy_read_string fd i st :
  0 ≤ i < _strings fd → haveReadNew st = false →
  _strings (read_fd st) = _strings fd → _barres (read_fd st) = ∅ →
  _dots (read_fd st) !! i = None →
  let st' := fold_left read_child (writeOld_string fd (-1) (-1) i) st in
  haveReadNew st' = false ∧ hasBarre st' = hasBarre st
  ∧ _strings (read_fd st') = _strings fd
  ∧ _frets (read_fd st') = _frets (read_fd st)
  ∧ _barres (read_fd st') = ∅
  ∧ (∀ k, _dots (read_fd st') !! k
          = if decide (k = i) then legacy_dots (default [] (_dots fd !! i))
            else _dots (read_fd st) !! k)
  ∧ (∀ k, _markers (read_fd st') !! k
          = if decide (k = i)
            then match legacy_dots (default [] (_dots fd !! i)) with
                 | Some _ => Some (mkMarker MARKER_NONE)
                 | None => match existing_marker (_markers fd !! i) with
                           | Some m => Some m
                           | None => _markers (read_fd st) !! i
                           end
                 end
            else _markers (read_fd st) !! k).
Proof.
  intros Hi Hst Hs Hb Hd st'. subst st'. unfold writeOld_string.
  replace (negb (i =? -1)) with true by (by destruct (Z.eqb_spec i (-1)); [lia|]).
  rewrite andb_true_r.
  rewrite marker_exists_existing, <- legacy_dots_accessor.
  destruct (negb (dotExists (dot fd i 0)) && negb (Marker_exists (marker fd i)))
    eqn:E.
  - apply andb_true_iff in E as [E1%negb_true_iff E2%negb_true_iff].
    cbn [fold_left]. rewrite E2. unfold legacy_dots.
    rewrite (dotExists_filter _ E1).
    repeat (split; [done|]). split; intros k; by case_decide; subst.
  - clear E. cbn [fold_left]. rewrite read_child_string by done.
    cbn [haveReadNew hasBarre read_fd].
    destruct (Z.eqb_spec (-1) i); [lia|]. rewrite app_nil_r, fold_left_app.
    set (acc1 := fold_left (read_string_child i)
                   (if Marker_exists (marker fd i) then _ else []) (read_fd st)).
    assert (_strings acc1 = _strings fd ∧ _frets acc1 = _frets (read_fd st)
            ∧ _barres acc1 = ∅
            ∧ (∀ k, _dots acc1 !! k = _dots (read_fd st) !! k)
            ∧ (∀ k, _markers acc1 !! k
                    = if decide (k = i)
                      then (if Marker_exists (marker fd i)
                            then Some (marker fd i)
                            else _markers (read_fd st) !! i)
                      else _markers (read_fd st) !! k))
      as (A1 & A2 & A3 & A4 & A5).
    { subst acc1. destruct (Marker_exists (marker fd i)) eqn:Em.
      - cbn [fold_left]. rewrite read_marker_child
          by (unfold Marker_exists in Em; by apply bool_decide_eq_true in Em).
        destruct (setMarker_header i (mtype (marker fd i)) (read_fd st))
          as (-> & -> & _).
        rewrite setMarker_in by lia.
        rewrite bool_decide_eq_true_2
          by (unfold Marker_exists in Em; by apply bool_decide_eq_true in Em).
        cbn zeta. unfold removeBarres. cbn.
        rewrite removeDot_all by lia. cbn. rewrite Hb, map_filter_empty.
        repeat (split; [done|]). split; intros k.
        + destruct (decide (k = i)) as [->|Hk];
            [by rewrite lookup_delete_eq|by rewrite lookup_delete_ne].
        + case_decide as Hk; [subst; rewrite lookup_insert_eq|
                               by rewrite lookup_insert_ne].
          by destruct (marker fd i).
      - cbn [fold_left]. repeat (split; [done|]).
        intros k. by case_decide; subst. }
    destruct (legacy_dots_fold i (dot fd i 0) acc1)
      as (B1 & B2 & B3 & B4 & B5 & B6); [lia|]. cbn zeta in *.
    rewrite B1, B2, B3, A1, A2, A3.
    repeat (split; [done|]). split; intros k.
    + case_decide as Hk; [subst k|by rewrite (proj1 (B4 k Hk)), A4].
      rewrite B5, A4, Hd. by destruct (legacy_dots _).
    + case_decide as Hk; [subst k|].
      * rewrite B6, A5. rewrite decide_True by done.
        by destruct (legacy_dots _), (Marker_exists _).
      * rewrite (proj2 (B4 k Hk)), A5. by rewrite decide_False.
Qed.

Lemma legacy_read_strings fd ss : ∀ st,
  NoDup ss → (∀ s, s ∈ ss → 0 ≤ s < _strings fd) →
  haveReadNew st = false →
  _strings (read_fd st) = _strings fd → _barres (read_fd st) = ∅ →
  (∀ s, s ∈ ss → _dots (read_fd st) !! s = None
                 ∧ _markers (read_fd st) !! s = None) →
  let st' := fold_left read_child (flat_map (writeOld_string fd (-1) (-1)) ss) st in
  haveReadNew st' = false ∧ hasBarre st' = hasBarre st
  ∧ _strings (read_fd st') = _strings fd
  ∧ _frets (read_fd st') = _frets (read_fd st)
  ∧ _barres (read_fd st') = ∅
  ∧ (∀ k, _dots (read_fd st') !! k
          = if decide (k ∈ ss) then legacy_dots (default [] (_dots fd !! k))
            else _dots (read_fd st) !! k)
  ∧ (∀ k, _markers (read_fd st') !! k
          = if decide (k ∈ ss)
            then legacy_marker (default [] (_dots fd !! k)) (_markers fd !! k)
            else _markers (read_fd st) !! k).
Proof.
  induction ss as [|a ss IH]; intros st Hnd Hr Hst Hs Hb Hfresh.
  { cbn. repeat (split; [done|]). split; intros k; by rewrite decide_False
      by apply not_elem_of_nil. }
  apply NoDup_cons in Hnd as [Ha Hnd].
  cbn [flat_map]. rewrite fold_left_app.
  destruct (legacy_read_string fd a st) as (H1 & H2 & H3 & H4 & H5 & H6 & H7);
    [apply Hr, elem_of_cons; auto|done|done|done
    |apply Hfresh, elem_of_cons; auto|].
  cbn zeta in *.
  set (st1 := fold_left read_child (writeOld_string fd (-1) (-1) a) st) in *.
  destruct (IH st1) as (I1 & I2 & I3 & I4 & I5 & I6 & I7);
    [done|intros s Hs'; apply Hr, elem_of_cons; auto|done|done|done| |].
  { intros s Hs'. rewrite H6, H7.
    rewrite !decide_False by (intros ->; done).
    apply Hfresh, elem_of_cons. auto. }
  cbn zeta in *. rewrite I1, I2, I3, I4, I5, H2, H4.
  repeat (split; [done|]). split; intros k.
  - rewrite I6, H6.
    destruct (decide (k ∈ ss)) as [Hk|Hk], (decide (k = a)) as [->|Hne],
      (decide (_ ∈ a :: ss)) as [Hc|Hc]; try done.
    all: try (destruct Hc; apply elem_of_cons; auto).
    apply elem_of_cons in Hc as [?|?]; done.
  - rewrite I7, H7.
    destruct (decide (k ∈ ss)) as [Hk|Hk], (decide (k = a)) as [->|Hne],
      (decide (_ ∈ a :: ss)) as [Hc|Hc]; try done.
    all: try (destruct Hc; apply elem_of_cons; auto).
    + unfold legacy_marker.
      rewrite (proj2 (Hfresh a ltac:(apply elem_of_cons; auto))).
      destruct (legacy_dots (default [] (_dots fd !! a))); [done|].
      by destruct (existing_marker (_markers fd !! a)).
    + apply elem_of_cons in Hc as [?|?]; done.
Qed.

Lemma writeOld_without_barres fd :
  _barres fd = ∅ →
  writeOld fd = flat_map (writeOld_string fd (-1) (-1)) (seqZ 0 (_strings fd)).
Proof.
  intros Hb. unfold writeOld, oldBarre. rewrite Hb.
  destruct (lowestDot fd) as [L j].
  unfold barre_entries. rewrite map_to_list_empty. cbn. by rewrite app_nil_r.
Qed.

(** X12.  What the legacy format keeps of a diagram without barres.
    Written by [writeOld] and read back into a new diagram, every string
    of the diagram holds the last of its existing dots, as a normal dot
    (earlier dots of the string and the dot type are lost); a string
    with a dot has a marker entry of type NONE, the other strings keep
    their CIRCLE or CROSS; nothing else is stored. *)
Theorem legacy_roundtrip_without_barres (fd : FretDiagram) :
  _barres fd = ∅ →
  let fd' := read (writeOld fd) (makeFretDiagram (_strings fd) (_frets fd)) in
  _strings fd' = _strings fd ∧ _frets fd' = _frets fd ∧ _barres fd' = ∅
  ∧ (∀ s, _dots fd' !! s
          = if decide (0 ≤ s < _strings fd)
            then legacy_dots (default [] (_dots fd !! s)) else None)
  ∧ (∀ s, _markers fd' !! s
          = if decide (0 ≤ s < _strings fd)
            then legacy_marker (default [] (_dots fd !! s)) (_markers fd !! s)
            else None).
Proof.
  intros Hb fd'. subst fd'. rewrite writeOld_without_barres by done.
  unfold read.
  destruct (legacy_read_strings fd (seqZ 0 (_strings fd))
              (mkRead (makeFretDiagram (_strings fd) (_frets fd)) false false))
    as (H1 & H2 & H3 & H4 & H5 & H6 & H7);
    [apply NoDup_seqZ|by intros s ?%elem_of_seqZ|done|done|done|done|].
  cbn zeta in *. rewrite H2. cbn [hasBarre].
  rewrite H3, H4, H5. repeat (split; [done|]). split; intros s.
  - rewrite H6. case_decide as Hs; rewrite elem_of_seqZ in Hs.
    + by rewrite decide_True by lia.
    + by rewrite decide_False by lia.
  - rewrite H7. case_decide as Hs; rewrite elem_of_seqZ in Hs.
    + by rewrite decide_True by lia.
    + by rewrite decide_False by lia.
Qed.

Lemma legacy_roundtrip_without_barres_witness :
  let fd := setDot 2 3 true DOT_CROSS
              (setDot 2 1 true DOT_NORMAL
                 (setMarker 0 MARKER_CROSS (makeFretDiagram 6 4))) in
  _barres fd = ∅
  ∧ _dots (read (writeOld fd) (makeFretDiagram (_strings fd) (_frets fd))) !! 2
    = Some [mkDot 3 DOT_NORMAL].
Proof.
  cbn zeta. split; [done|].
  destruct (legacy_roundtrip_without_barres
              (setDot 2 3 true DOT_CROSS
                 (setDot 2 1 true DOT_NORMAL
                    (setMarker 0 MARKER_CROSS (makeFretDiagram 6 4)))) eq_refl)
    as (_ & _ & _ & Hd & _).
  rewrite Hd. done.
Defined.

(** ** A diagram for a chord: [init] *)

Lemma setMarker_markers s t fd :
  _markers (setMarker s t fd)
  = if (0 <=? s) && (s <? _strings fd) then <[s := mkMarker t]> (_markers fd)
    else _markers fd.
Proof.
  unfold setMarker. destruct ((0 <=? s) && (s <? _strings fd)); [|done].
  case_bool_decide; [|done]. unfold removeBarres. cbn.
  by rewrite removeDot_markers.
Qed.

Lemma setDot_replace_markers s f dt fd :
  _markers (setDot s f false dt fd)
  = if f =? 0 then _markers fd
    else if (0 <=? s) && (s <? _strings fd)
         then <[s := mkMarker MARKER_NONE]> (_markers fd)
         else _markers fd.
Proof.
  destruct (Z.eqb_spec f 0) as [->|Hf]; [by rewrite setDot_zero|].
  destruct ((0 <=? s) && (s <? _strings fd)) eqn:E.
  - rewrite setDot_replace_any; [done| |done].
    apply andb_true_iff in E as [?%Z.leb_le ?%Z.ltb_lt]. lia.
  - unfold setDot. destruct (Z.eqb_spec f 0); [done|]. by rewrite E.
Qed.

Lemma init_cross_loop ss : ∀ acc,
  (∀ s, s ∈ ss → 0 ≤ s < _strings acc) →
  let acc' := fold_left (λ a string, setMarker string MARKER_CROSS a) ss acc in
  _strings acc' = _strings acc ∧ _frets acc' = _frets acc
  ∧ (∀ k, k ∈ ss → _dots acc' !! k = None
                   ∧ _markers acc' !! k = Some (mkMarker MARKER_CROSS)).
Proof.
  induction ss as [|a ss IH] using rev_ind; intros acc Hr.
  { cbn. repeat (split; [done|]). by intros k ?%elem_of_nil. }
  rewrite fold_left_app. cbn [fold_left].
  destruct (IH acc) as (H1 & H2 & H3);
    [intros s Hs; apply Hr, elem_of_app; auto|].
  cbn zeta in *. set (acc1 := fold_left _ ss acc) in *.
  destruct (setMarker_header a MARKER_CROSS acc1) as (-> & -> & _).
  repeat (split; [done|]). intros k Hk.
  rewrite setMarker_dots, setMarker_markers.
  assert (0 ≤ a < _strings acc1) as Ha
    by (rewrite H1; apply Hr, elem_of_app; right; by apply list_elem_of_singleton).
  rewrite in_range_true by done. cbn [andb bool_decide decide_rel].
  rewrite bool_decide_eq_true_2 by done.
  destruct (decide (k = a)) as [->|Hne].
  - by rewrite lookup_delete_eq, lookup_insert_eq.
  - rewrite lookup_delete_ne, lookup_insert_ne by done.
    apply H3. apply elem_of_app in Hk as [?|Hk]; [done|].
    by apply list_elem_of_singleton in Hk.
Qed.

Lemma init_notes_loop notes s : ∀ acc,
  0 ≤ s < _strings acc →
  let acc' :=
    fold_left (λ a (note : option (Z * Z)),
                 match note with
                 | Some sf => setDot sf.1 sf.2 false DOT_NORMAL a
                 | None => a
                 end) notes acc in
  _strings acc' = _strings acc ∧ _frets acc' = _frets acc
  ∧ _dots acc' !! s
    = match frets_on s notes with
      | [] => _dots acc !! s
      | fs => if List.last fs 0 =? 0 then None
              else Some [mkDot (List.last fs 0) DOT_NORMAL]
      end
  ∧ _markers acc' !! s
    = if forallb (λ f, f =? 0) (frets_on s notes) then _markers acc !! s
      else Some (mkMarker MARKER_NONE).
Proof.
  induction notes as [|note notes IH]; intros acc Hs; [done|].
  cbn [fold_left]. destruct note as [[s' f]|]; [|by apply IH].
  cbn [fst snd].
  destruct (setDot_header s' f false DOT_NORMAL acc) as (E1 & E2 & _).
  destruct (IH (setDot s' f false DOT_NORMAL acc)) as (H1 & H2 & H3 & H4);
    [by rewrite E1|].
  cbn zeta in *. rewrite H1, H2, H3, H4, E1, E2.
  split; [done|]. split; [done|].
  rewrite setDot_replace_dots, setDot_replace_markers.
  unfold frets_on at 2 4. cbn [flat_map fst snd]. fold (frets_on s notes).
  destruct (decide (s' = s)) as [->|Hne].
  - rewrite in_range_true by done. cbn [app forallb].
    destruct (frets_on s notes) as [|f0 fs] eqn:E.
    + cbn [List.last forallb]. rewrite andb_true_r.
      destruct (Z.eqb_spec f 0) as [->|?].
      * by rewrite lookup_delete_eq.
      * by rewrite !lookup_insert_eq.
    + change (List.last (f :: f0 :: fs) 0) with (List.last (f0 :: fs) 0).
      split; [done|]. destruct (forallb _ (f0 :: fs)); [|by rewrite andb_false_r].
      rewrite andb_true_r. destruct (Z.eqb_spec f 0); [done|].
      by rewrite lookup_insert_eq.
  - cbn [app]. split.
    + destruct (frets_on s notes); [|done].
      repeat case_match; by rewrite ?lookup_delete_ne, ?lookup_insert_ne by done.
    + destruct (forallb _ _); [|done].
      repeat case_match; by rewrite ?lookup_insert_ne by done.
Qed.

(** X13.  The diagram [init] builds for a chord on an instrument with
    [n] strings and [k] frets.  Every string shows what the last note
    played on it asks for: a dot at the note's fret, nothing for fret 0.
    A string is marked CROSS unless some note asked for a fret other
    than 0 on it; such a string keeps a marker entry of type NONE.  So a
    string played open only (fret 0) is marked CROSS, like a string that
    is not played.  Without string data the diagram gets six strings and
    the chord is not looked at. *)
Theorem init_chord (n k : Z) (notes : list (option (Z * Z))) (fd : FretDiagram) :
  0 < n →
  let fd' := init (Some (n, k)) notes fd in
  _strings fd' = n ∧ _frets fd' = k
  ∧ (∀ s, 0 ≤ s < n →
       _dots fd' !! s
       = (if List.last (frets_on s notes) 0 =? 0 then None
          else Some [mkDot (List.last (frets_on s notes) 0) DOT_NORMAL])
       ∧ _markers fd' !! s
         = Some (mkMarker (if forallb (λ f, f =? 0) (frets_on s notes)
                           then MARKER_CROSS else MARKER_NONE)))
  ∧ init None notes fd = setStrings 6 fd.
Proof.
  intros Hn fd'. subst fd'. unfold init. cbn [fst snd setFrets _strings _frets].
  assert (_strings (setStrings n fd) = n) as Hs.
  { destruct (decide (n = _strings fd)) as [->|Hne];
      [by rewrite setStrings_noop by auto|].
    by destruct (setStrings_spec n fd Hn Hne) as (-> & _). }
  set (fd1 := setStrings n fd) in *.
  destruct (init_cross_loop (seqZ 0 (_strings fd1)) fd1) as (C1 & C2 & C3);
    [by intros s ?%elem_of_seqZ|].
  cbn zeta in *. set (fd2 := fold_left _ (seqZ 0 (_strings fd1)) fd1) in *.
  assert (_strings (fold_left
            (λ a (note : option (Z * Z)),
               match note with
               | Some sf => setDot sf.1 sf.2 false DOT_NORMAL a
               | None => a
               end) notes fd2) = n) as Hs3.
  { clear C3. rewrite <- Hs, <- C1. generalize fd2. clear.
    induction notes as [|[sf|] notes IH]; intros acc; [done| |by apply IH].
    cbn [fold_left]. rewrite IH. apply setDot_header. }
  split; [done|]. split; [done|]. split; [|done].
  intros s Hsn.
  destruct (init_notes_loop notes s fd2) as (_ & _ & N3 & N4); [lia|].
  cbn zeta in *. unfold setFrets. cbn [_dots _markers]. rewrite N3, N4.
  destruct (C3 s) as [-> ->]; [apply elem_of_seqZ; lia|].
  split.
  - by destruct (frets_on s notes).
  - by destruct (forallb _ _).
Qed.

Lemma init_chord_witness :
  0 < 6
  ∧ _markers (init (Some (6, 19)) [Some (0, 3); None; Some (5, 0)]
                (makeFretDiagram 4 4)) !! 5
    = Some (mkMarker MARKER_CROSS).
Proof.
  split; [lia|].
  destruct (init_chord 6 19 [Some (0, 3); None; Some (5, 0)] (makeFretDiagram 4 4))
    as (_ & _ & H & _); [lia|].
  by destruct (H 5) as [_ ->].
Defined.

(** ** More that every reachable diagram keeps *)

Lemma elem_of_List_filter {A} (P : A → bool) l x :
  x ∈ List.filter P l ↔ P x = true ∧ x ∈ l.
Proof. rewrite !list_elem_of_In, List.filter_In. tauto. Qed.

Lemma NoDup_frets_filter (P : Dot → bool) l :
  NoDup (fret <$> List.filter Dot_exists l) →
  NoDup (fret <$> List.filter Dot_exists (List.filter P l)).
Proof.
  induction l as [|x l IH]; [done|]. cbn [List.filter].
  destruct (P x) eqn:EP, (Dot_exists x) eqn:EQ; cbn [List.filter]; rewrite ?EQ;
    rewrite ?fmap_cons, ?NoDup_cons; try done.
  - intros [Hx Hnd]. split; [|by apply IH].
    intros (y & Hy & Hin)%list_elem_of_fmap. apply Hx.
    apply list_elem_of_fmap. exists y. split; [done|].
    apply elem_of_List_filter in Hin as [Hq Hin].
    apply elem_of_List_filter in Hin as [_ Hin].
    by apply elem_of_List_filter.
  - intros [_ Hnd]. by apply IH.
Qed.

Lemma keep_dots_inv f o l :
  keep_dots f o = Some l →
  ∃ l0, o = Some l0
        ∧ l = List.filter (λ d, Dot_exists d && negb (fret d =? f)) l0.
Proof.
  unfold keep_dots. destruct (0 <? f); [|done].
  destruct o as [l0|]; cbn [from_option id]; [|done].
  destruct (List.filter _ l0) eqn:E; [done|]. intros [= <-]. eauto.
Qed.

Lemma frets_distinct_removeDot s f fd :
  frets_distinct fd → frets_distinct (removeDot s f fd).
Proof.
  intros H k l. rewrite removeDot_lookup. case_decide; [|apply H].
  intros (l0 & E & ->)%keep_dots_inv. by apply NoDup_frets_filter, (H s).
Qed.

Lemma frets_distinct_same fd fd' :
  _dots fd' = _dots fd → frets_distinct fd → frets_distinct fd'.
Proof. unfold frets_distinct. by intros ->. Qed.

Lemma frets_distinct_delete s fd fd' :
  _dots fd' = delete s (_dots fd) → frets_distinct fd → frets_distinct fd'.
Proof.
  unfold frets_distinct. intros -> H k l [_ ?]%lookup_delete_Some. eauto.
Qed.

Lemma frets_distinct_setMarker s t fd :
  frets_distinct fd → frets_distinct (setMarker s t fd).
Proof.
  intros H. pose proof (setMarker_dots s t fd) as E.
  destruct (_ && _) in E;
    [by eapply frets_distinct_delete|by eapply frets_distinct_same].
Qed.

Lemma frets_distinct_push s f dt fd :
  (∀ d, d ∈ default [] (_dots fd !! s) → Dot_exists d = true → fret d ≠ f) →
  frets_distinct fd → frets_distinct (push_dot s (mkDot f dt) fd).
Proof.
  intros Hno H k l. cbn.
  intros [[<- <-]|[_ ?]]%lookup_insert_Some; [|eauto].
  rewrite List.filter_app, fmap_app. apply NoDup_app. split; [|split].
  - destruct (_dots fd !! s) as [l0|] eqn:E; [by apply (H s)|]. cbn. constructor.
  - intros x (y & -> & [Hq Hy]%elem_of_List_filter)%list_elem_of_fmap Hx.
    cbn [List.filter] in Hx. destruct (Dot_exists (mkDot f dt)); [|by inversion Hx].
    apply list_elem_of_singleton in Hx. cbn in Hx. by eapply Hno.
  - cbn [List.filter]. destruct (Dot_exists _); cbn; [|constructor].
    apply NoDup_singleton.
Qed.

Lemma frets_distinct_setDot s f add dt fd :
  frets_distinct fd → frets_distinct (setDot s f add dt fd).
Proof.
  intros H. unfold setDot.
  destruct (Z.eqb_spec f 0) as [->|Hf]; [by apply frets_distinct_removeDot|].
  destruct ((0 <=? s) && (s <? _strings fd)) eqn:Er; [|done].
  destruct add.
  - rewrite dot_fret by done.
    destruct (List.find _ _) as [d|] eqn:E.
    + apply find_fret_Some in E as [Hd Hfd].
      destruct (Dot_exists d) eqn:Ed; [by apply frets_distinct_removeDot|].
      apply frets_distinct_push; [|done].
      intros d' _ Hex <-. unfold Dot_exists in *. rewrite <- Hfd in Hex.
      congruence.
    + cbn [Dot_exists fret]. change (0 <? 0) with false. cbn iota.
      apply frets_distinct_push; [|done].
      intros d' Hd' _. by eapply find_fret_None in E.
  - pose proof (setDot_replace_dots s f dt fd) as E. unfold setDot in E.
    destruct (Z.eqb_spec f 0); [done|]. rewrite Er in E.
    intros k l. rewrite E.
    intros [[<- <-]|[_ ?]]%lookup_insert_Some; [|eauto].
    cbn. destruct (Dot_exists _); cbn; [apply NoDup_singleton|constructor].
Qed.

Lemma frets_distinct_removeDotsMarkers ss es f fd :
  frets_distinct fd → frets_distinct (removeDotsMarkers ss es f fd).
Proof.
  intros H. destruct (decide (ss = -1)) as [->|Hss]; [done|].
  destruct (removeDotsMarkers_spec ss es f fd Hss) as (Hd & _).
  cbn zeta in Hd. intros k l. rewrite Hd. case_decide; [|apply H].
  intros (l0 & E & ->)%keep_dots_inv. by apply NoDup_frets_filter, (H k).
Qed.

Lemma frets_distinct_setBarre_toggle s f add fd :
  frets_distinct fd → frets_distinct (setBarre_toggle s f add fd).
Proof.
  intros H. unfold setBarre_toggle. repeat case_match; try done.
  - by apply frets_distinct_removeDotsMarkers.
  - apply (frets_distinct_same (removeDotsMarkers (startString (barre fd f))
                                  (endString (barre fd f)) f fd)); [done|].
    by apply frets_distinct_removeDotsMarkers.
Qed.

Lemma frets_distinct_setStrings n fd :
  frets_distinct fd → frets_distinct (setStrings n fd).
Proof.
  intros H.
  destruct (decide (n = _strings fd ∨ n ≤ 0)) as [Hn|Hn];
    [by rewrite setStrings_noop|].
  destruct (setStrings_spec n fd) as (_ & _ & _ & Hd & _); [lia|lia|].
  cbn zeta in Hd. intros k l. rewrite Hd. case_decide; [|done].
  destruct (_dots fd !! (k - (n - _strings fd))) as [l0|] eqn:E; [|done].
  cbn [from_option id]. unfold nonempty.
  destruct (List.filter Dot_exists l0) eqn:E'; [done|]. intros [= <-].
  rewrite <- E'. by apply NoDup_frets_filter, (H _ _ E).
Qed.

Lemma markers_ok_same fd fd' :
  _markers fd' = _markers fd → _strings fd' = _strings fd →
  markers_ok fd → markers_ok fd'.
Proof. unfold markers_ok. by intros -> ->. Qed.

Lemma markers_ok_setMarker s t fd : markers_ok fd → markers_ok (setMarker s t fd).
Proof.
  intros H k m. rewrite setMarker_markers.
  destruct (setMarker_header s t fd) as (-> & _).
  destruct ((0 <=? s) && (s <? _strings fd)) eqn:E; [|apply H].
  intros [[<- _]|[_ ?]]%lookup_insert_Some; [|eauto].
  apply andb_true_iff in E as [?%Z.leb_le ?%Z.ltb_lt]. lia.
Qed.

Lemma markers_ok_setDot s f add dt fd :
  markers_ok fd → markers_ok (setDot s f add dt fd).
Proof.
  intros H. destruct add.
  - apply (markers_ok_same fd); [|apply setDot_header|done].
    unfold setDot. repeat case_match; try done; apply removeDot_markers.
  - intros k m. rewrite setDot_replace_markers.
    destruct (setDot_header s f false dt fd) as (-> & _).
    destruct (f =? 0); [apply H|].
    destruct ((0 <=? s) && (s <? _strings fd)) eqn:E; [|apply H].
    intros [[<- _]|[_ ?]]%lookup_insert_Some; [|eauto].
    apply andb_true_iff in E as [?%Z.leb_le ?%Z.ltb_lt]. lia.
Qed.

Lemma markers_ok_removeDotsMarkers ss es f fd :
  markers_ok fd → markers_ok (removeDotsMarkers ss es f fd).
Proof.
  intros H. destruct (decide (ss = -1)) as [->|Hss]; [done|].
  destruct (removeDotsMarkers_spec ss es f fd Hss) as (_ & Hm & _ & Hs & _).
  cbn zeta in *. intros k m. rewrite Hm, Hs. case_decide; [|apply H].
  destruct (_markers fd !! k) as [m0|] eqn:E; [|done].
  intros _. by apply (H k m0).
Qed.

Lemma markers_ok_setBarre_toggle s f add fd :
  markers_ok fd → markers_ok (setBarre_toggle s f add fd).
Proof.
  intros H. unfold setBarre_toggle. repeat case_match; try done.
  - by apply (markers_ok_removeDotsMarkers s (-1) f
                (with_barres (<[f := mkBarre s (-1)]> (_barres fd)) fd)).
  - apply (markers_ok_same (removeDotsMarkers (startString (barre fd f))
                              (endString (barre fd f)) f fd)); [done|done|].
    by apply markers_ok_removeDotsMarkers.
Qed.

Lemma markers_ok_setStrings n fd : markers_ok fd → markers_ok (setStrings n fd).
Proof.
  intros H.
  destruct (decide (n = _strings fd ∨ n ≤ 0)) as [Hn|Hn];
    [by rewrite setStrings_noop|].
  destruct (setStrings_spec n fd) as (Hs & _ & _ & _ & Hm & _); [lia|lia|].
  cbn zeta in *. intros k m. rewrite Hm, Hs. case_decide; [lia|done].
Qed.

(** X14.  In every diagram built by the mutators from a new one, the
    markers sit on strings of the diagram and no string holds two
    existing dots at the same fret. *)
Theorem reachable_markers_and_frets (fd : FretDiagram) :
  reachable fd →
  (∀ s m, _markers fd !! s = Some m → 0 ≤ s < _strings fd)
  ∧ (∀ s l, _dots fd !! s = Some l → NoDup (fret <$> List.filter Dot_exists l)).
Proof.
  intros Hr. change (markers_ok fd ∧ frets_distinct fd).
  induction Hr as [n k|s f add dt fd _ [IH1 IH2]|s t fd _ [IH1 IH2]
                  |ss es f fd _ [IH1 IH2]|s f add fd _ [IH1 IH2]
                  |n fd _ [IH1 IH2]|n fd _ [IH1 IH2]|n fd _ [IH1 IH2]
                  |fd _ [IH1 IH2]].
  - split; by intros s x.
  - split; [by apply markers_ok_setDot|by apply frets_distinct_setDot].
  - split; [by apply markers_ok_setMarker|by apply frets_distinct_setMarker].
  - split; unfold setBarre; by repeat case_match.
  - split; [by apply markers_ok_setBarre_toggle
           |by apply frets_distinct_setBarre_toggle].
  - split; [by apply markers_ok_setStrings|by apply frets_distinct_setStrings].
  - done.
  - done.
  - split; by intros s x.
Qed.

Lemma reachable_markers_and_frets_witness :
  reachable (setDot 1 2 true DOT_NORMAL (setMarker 1 MARKER_CIRCLE (makeFretDiagram 6 4)))
  ∧ ∀ s m, _markers (setDot 1 2 true DOT_NORMAL
                       (setMarker 1 MARKER_CIRCLE (makeFretDiagram 6 4))) !! s = Some m →
           0 ≤ s < 6.
Proof.
  assert (reachable (setDot 1 2 true DOT_NORMAL
                       (setMarker 1 MARKER_CIRCLE (makeFretDiagram 6 4)))) as Hr
    by (repeat constructor).
  split; [exact Hr|]. apply (reachable_markers_and_frets _ Hr).
Defined.

(** ** The MusicXML frame *)

Lemma elem_of_bStarts fd i f : f ∈ bStarts fd i ↔ starts_at fd i f = true.
Proof.
  unfold bStarts, starts_at. rewrite list_elem_of_fmap. split.
  - intros ([k b] & -> & [Hp Hin]%elem_of_List_filter).
    apply barre_entries_elem in Hin. cbn in *. by rewrite Hin.
  - destruct (_barres fd !! f) as [b|] eqn:E; [|done]. intros Hp.
    exists (f, b). split; [done|]. apply elem_of_List_filter.
    split; [done|]. by apply barre_entries_elem.
Qed.

Lemma elem_of_bEnds fd i f : f ∈ bEnds fd i ↔ stops_at fd i f = true.
Proof.
  unfold bEnds, stops_at. rewrite list_elem_of_fmap. split.
  - intros ([k b] & -> & [Hp Hin]%elem_of_List_filter).
    apply barre_entries_elem in Hin. cbn in *. by rewrite Hin.
  - destruct (_barres fd !! f) as [b|] eqn:E; [|done]. intros Hp.
    exists (f, b). split; [done|]. apply elem_of_List_filter.
    split; [done|]. by apply barre_entries_elem.
Qed.

Lemma bStarts_decide fd i f : bool_decide (f ∈ bStarts fd i) = starts_at fd i f.
Proof.
  destruct (starts_at fd i f) eqn:E.
  - by apply bool_decide_eq_true_2, elem_of_bStarts.
  - apply bool_decide_eq_false_2. rewrite elem_of_bStarts. congruence.
Qed.

Lemma bEnds_decide fd i f : bool_decide (f ∈ bEnds fd i) = stops_at fd i f.
Proof.
  destruct (stops_at fd i f) eqn:E.
  - by apply bool_decide_eq_true_2, elem_of_bEnds.
  - apply bool_decide_eq_false_2. rewrite elem_of_bEnds. congruence.
Qed.

Lemma mxml_erase (S : list Z) f x :
  x ∈ (if bool_decide (f ∈ S) then filter (λ y, y ≠ f) S else S)
  ↔ x ∈ S ∧ x ≠ f.
Proof.
  case_bool_decide as Hf.
  - rewrite list_elem_of_filter. tauto.
  - split; [|tauto]. intros Hx. split; [done|]. by intros ->.
Qed.

Lemma mxml_dot_fold fd ms l : ∀ S E out,
  NoDup (fret <$> List.filter Dot_exists l) →
  let st := fold_left (mxml_dot fd ms) l (S, E, out) in
  (∀ x, x ∈ st.1.1 ↔ x ∈ S ∧ ∀ d, d ∈ l → Dot_exists d = true → fret d ≠ x)
  ∧ (∀ x, x ∈ st.1.2 ↔ x ∈ E ∧ ∀ d, d ∈ l → Dot_exists d = true → fret d ≠ x)
  ∧ (∀ e, e ∈ st.2
          ↔ e ∈ out
            ∨ ∃ d, d ∈ l ∧ Dot_exists d = true
                   ∧ e = frame_note ms (XInt (int_add (fret d) (_fretOffset fd)))
                           ((if bool_decide (fret d ∈ S)
                             then [barre_tag "start"] else [])
                            ++ (if bool_decide (fret d ∈ E)
                                then [barre_tag "stop"] else []))).
Proof.
  induction l as [|d l IH]; intros S E out Hnd.
  { cbn. split; [|split].
    - intros x. split; [|tauto]. intros ?. split; [done|]. by intros ? ?%elem_of_nil.
    - intros x. split; [|tauto]. intros ?. split; [done|]. by intros ? ?%elem_of_nil.
    - intros e. split; [auto|]. intros [?|(? & ?%elem_of_nil & _)]; done. }
  cbn [fold_left]. unfold mxml_dot at 2 4 6. cbn [fst snd].
  cbn [List.filter] in Hnd.
  destruct (Dot_exists d) eqn:Ed; cbn [negb].
  - rewrite fmap_cons in Hnd. apply NoDup_cons in Hnd as [Hd Hnd].
    assert (∀ d', d' ∈ l → Dot_exists d' = true → fret d' ≠ fret d) as Hne.
    { intros d' Hin Hex Heq. apply Hd. rewrite <- Heq.
      apply list_elem_of_fmap. exists d'. split; [done|].
      by apply elem_of_List_filter. }
    assert (∀ d' (T : list Z), d' ∈ l → Dot_exists d' = true →
              bool_decide (fret d' ∈ (if bool_decide (fret d ∈ T)
                                      then filter (λ y, y ≠ fret d) T else T))
              = bool_decide (fret d' ∈ T)) as Hbd.
    { intros d' T Hin Hex. apply bool_decide_ext. rewrite mxml_erase.
      specialize (Hne d' Hin Hex). tauto. }
    edestruct IH as (H1 & H2 & H3); [exact Hnd|]. cbn zeta in *.
    split; [|split].
    + intros x. rewrite H1, mxml_erase. split.
      * intros [[? ?] Hl]. split; [done|].
        intros d' [->|?]%elem_of_cons ?; [done|by apply Hl].
      * intros [? Hl]. split; [split; [done|]|].
        -- intros ->. apply (Hl d); [apply elem_of_cons; auto|done|done].
        -- intros d' ? ?. apply Hl; [apply elem_of_cons; auto|done].
    + intros x. rewrite H2, mxml_erase. split.
      * intros [[? ?] Hl]. split; [done|].
        intros d' [->|?]%elem_of_cons ?; [done|by apply Hl].
      * intros [? Hl]. split; [split; [done|]|].
        -- intros ->. apply (Hl d); [apply elem_of_cons; auto|done|done].
        -- intros d' ? ?. apply Hl; [apply elem_of_cons; auto|done].
    + intros e. rewrite H3, elem_of_app, list_elem_of_singleton. split.
      * intros [[?| ->]|(d' & Hin & Hex & ->)]; [by left| |].
        -- right. exists d. split; [apply elem_of_cons; auto|done].
        -- right. exists d'. split; [apply elem_of_cons; auto|].
           split; [done|]. by rewrite !Hbd.
      * intros [?|(d' & [->|Hin]%elem_of_cons & Hex & ->)]; [by left; left| |].
        -- by left; right.
        -- right. exists d'. split; [done|]. split; [done|]. by rewrite !Hbd.
  - edestruct IH as (H1 & H2 & H3); [exact Hnd|]. cbn zeta in *.
    split; [|split].
    + intros x. rewrite H1. split; intros [? Hl]; (split; [done|]).
      * intros d' [->|?]%elem_of_cons ?; [congruence|by apply Hl].
      * intros d' ? ?. apply Hl; [apply elem_of_cons; auto|done].
    + intros x. rewrite H2. split; intros [? Hl]; (split; [done|]).
      * intros d' [->|?]%elem_of_cons ?; [congruence|by apply Hl].
      * intros d' ? ?. apply Hl; [apply elem_of_cons; auto|done].
    + intros e. rewrite H3. split.
      * intros [?|(d' & Hin & Hex & ->)]; [by left|].
        right. exists d'. split; [apply elem_of_cons; auto|done].
      * intros [?|(d' & [->|Hin]%elem_of_cons & Hex & ->)];
          [by left|congruence|].
        right. by exists d'.
Qed.

Lemma writeMusicXML_string_notes fd i e :
  frets_distinct fd →
  e ∈ writeMusicXML_string fd i ↔ mxml_note fd i e.
Proof.
  intros Hfd. unfold writeMusicXML_string, mxml_note.
  destruct (mxml_dot_fold fd (_strings fd - i) (dot fd i 0)
              (bStarts fd i) (bEnds fd i) []) as (H1 & H2 & H3).
  { rewrite filter_exists_dot.
    destruct (_dots fd !! i) as [l|] eqn:E; [by apply (Hfd i)|constructor]. }
  cbn zeta in *.
  set (st := fold_left _ (dot fd i 0) _) in *.
  assert (∀ f, (∀ d, d ∈ dot fd i 0 → Dot_exists d = true → fret d ≠ f)
               ↔ (∀ d, d ∈ default [] (_dots fd !! i) → Dot_exists d = true →
                       fret d ≠ f)) as Hfree.
  { intros f. split; intros H d Hd Hex.
    - apply H; [|done]. by apply (dot_all_exists fd i d).
    - apply H; [|done]. by apply (dot_all_exists fd i d). }
  rewrite !elem_of_app, H3, !list_elem_of_fmap.
  split.
  - intros [Hc|[[?%elem_of_nil|(d & Hd & Hex & ->)]|[(f & -> & Hf)|(f & -> & Hf)]]];
      [|done| | |].
    + left. destruct (marker fd i) as [[]] eqn:Em; cbn in Hc;
        try by apply elem_of_nil in Hc.
      by apply list_elem_of_singleton in Hc.
    + right; left. exists d. split; [by apply (dot_all_exists fd i d)|].
      split; [done|]. by rewrite bStarts_decide, bEnds_decide.
    + right; right; left. apply H1 in Hf as [Hf Hl]. exists f.
      split; [by apply elem_of_bStarts|]. split; [by apply Hfree|done].
    + right; right; right. apply H2 in Hf as [Hf Hl]. exists f.
      split; [by apply elem_of_bEnds|]. split; [by apply Hfree|done].
  - intros [[Hm ->]|[(d & Hd & Hex & ->)|[(f & Hs & Hl & ->)|(f & Hs & Hl & ->)]]].
    + left. rewrite Hm. cbn. by apply list_elem_of_singleton.
    + right; left; right. exists d. split; [by apply (dot_all_exists fd i d)|].
      split; [done|]. by rewrite bStarts_decide, bEnds_decide.
    + right; right; left. exists f. split; [done|]. apply H1.
      split; [by apply elem_of_bStarts|by apply Hfree].
    + right; right; right. exists f. split; [done|]. apply H2.
      split; [by apply elem_of_bEnds|by apply Hfree].
Qed.

Lemma elem_of_flat_map {A B} (f : A → list B) l y :
  y ∈ flat_map f l ↔ ∃ x, x ∈ l ∧ y ∈ f x.
Proof.
  rewrite list_elem_of_In, in_flat_map. split.
  - intros (x & ? & ?). exists x. by rewrite !list_elem_of_In.
  - intros (x & ? & ?). exists x. by rewrite <- !list_elem_of_In.
Qed.

Lemma int_add_exact a b :
  -2147483648 ≤ a + b < 2147483648 → int_add a b = a + b.
Proof.
  intros H. unfold int_add.
  rewrite Z.mod_small by lia. lia.
Qed.

(** X15.  The content of the exported frame, for a diagram in which no
    string holds two existing dots at the same fret (every reachable
    diagram).  Besides the header tags the frame holds, for every string
    [i] of the diagram and under the string number [_strings - i]: a
    note at fret "0" when the marker is CIRCLE; a note for every
    existing dot, at the [int] sum of the dot's fret and the fret offset
    ([int_add]: the exact sum when that fits 32 bits, see
    [int_add_exact], and the wrapped one otherwise), tagged with the
    start and stop of the barres at that fret; and, for a barre that
    starts or stops on the string where no dot sits at its fret, a note
    at the barre's fret as stored, the fret offset not added.  CROSS
    markers are not exported. *)
Theorem writeMusicXML_content (fd : FretDiagram) (e : Mxml) :
  frets_distinct fd →
  e ∈ mxml_children (writeMusicXML fd)
  ↔ e = MElement "frame-strings" [] (XInt (_strings fd)) []
    ∨ e = MElement "frame-frets" [] (XInt (_frets fd)) []
    ∨ (0 < _fretOffset fd
       ∧ e = MElement "first-fret" [] (XInt (int_add (_fretOffset fd) 1)) [])
    ∨ ∃ i, 0 ≤ i < _strings fd ∧ mxml_note fd i e.
Proof.
  intros Hfd. unfold writeMusicXML. cbn [mxml_children].
  rewrite !elem_of_app, !elem_of_cons, elem_of_flat_map.
  split.
  - intros [[->|[->|?%elem_of_nil]]|[Ho|(i & Hi & He)]]; [auto|auto|done| |].
    + destruct (Z.ltb_spec 0 (_fretOffset fd)); [|by apply elem_of_nil in Ho].
      apply list_elem_of_singleton in Ho. auto.
    + right; right; right. exists i. apply elem_of_seqZ in Hi.
      split; [lia|]. by apply writeMusicXML_string_notes.
  - intros [->|[->|[[Ho ->]|(i & Hi & He)]]]; [auto|auto| |].
    + right; left. destruct (Z.ltb_spec 0 (_fretOffset fd)); [|lia].
      by apply list_elem_of_singleton.
    + right; right. exists i. split.
      * apply elem_of_seqZ. lia.
      * by apply writeMusicXML_string_notes.
Qed.

Lemma writeMusicXML_content_witness :
  let fd := setFretOffset 2
              (setBarre 0 (-1) 1 (setDot 1 1 true DOT_NORMAL (makeFretDiagram 6 4))) in
  let fd2 := setFretOffset 1
               (setDot 0 2147483647 true DOT_NORMAL (makeFretDiagram 6 4)) in
  (frets_distinct fd ∧ frets_distinct fd2)
  ∧ frame_note 6 (XInt 1) [barre_tag "start"] ∈ mxml_children (writeMusicXML fd)
  ∧ frame_note 5 (XInt 3) [] ∈ mxml_children (writeMusicXML fd)
  ∧ frame_note 6 (XInt (-2147483648)) [] ∈ mxml_children (writeMusicXML fd2).
Proof.
  cbn zeta.
  assert (∀ s f, frets_distinct (setDot s f true DOT_NORMAL (makeFretDiagram 6 4)))
    as Hdot.
  { intros s f. apply frets_distinct_setDot. intros k l Hl. by cbn in Hl. }
  assert (frets_distinct
            (setFretOffset 2
               (setBarre 0 (-1) 1
                  (setDot 1 1 true DOT_NORMAL (makeFretDiagram 6 4))))) as Hfd
    by (apply (frets_distinct_same _ _ eq_refl), Hdot).
  assert (frets_distinct
            (setFretOffset 1
               (setDot 0 2147483647 true DOT_NORMAL (makeFretDiagram 6 4)))) as Hfd2
    by (apply (frets_distinct_same _ _ eq_refl), Hdot).
  split; [by split|]. split; [|split].
  - apply (writeMusicXML_content _ _ Hfd). right; right; right. exists 0.
    split; [done|]. right; right; left. exists 1. split; [done|].
    split; [|done]. intros d Hd. by apply elem_of_nil in Hd.
  - apply (writeMusicXML_content _ _ Hfd). right; right; right. exists 1.
    split; [done|]. right; left. exists (mkDot 1 DOT_NORMAL).
    split; [by apply list_elem_of_singleton|]. done.
  - apply (writeMusicXML_content _ _ Hfd2). right; right; right. exists 0.
    split; [done|]. right; left. exists (mkDot 2147483647 DOT_NORMAL).
    split; [by apply list_elem_of_singleton|]. done.
Defined.

(** ** The current format on any diagram *)

Lemma shown_read_dots a l : ∀ pre acc,
  0 ≤ a < _strings acc →
  NoDup (fret <$> (pre ++ List.filter Dot_exists l)) →
  default [] (_dots acc !! a) = pre →
  let acc' :=
    fold_left (readNew_string_child a)
      (flat_map
         (λ d, if Dot_exists d
               then [XElement "dot" [("fret"%string, fret d)]
                              (XText (dotTypeToName (dtype d))) []]
               else []) l) acc in
  _strings acc' = _strings acc ∧ _frets acc' = _frets acc
  ∧ _markers acc' = _markers acc ∧ _barres acc' = _barres acc
  ∧ (∀ k, k ≠ a → _dots acc' !! k = _dots acc !! k)
  ∧ _dots acc' !! a
    = match List.filter Dot_exists l with
      | [] => _dots acc !! a
      | l' => Some (pre ++ l')
      end.
Proof.
  induction l as [|d l IH]; intros pre acc Ha Hnd Hpre; cbn [flat_map List.filter].
  { cbn. repeat split; done. }
  cbn [List.filter] in Hnd.
  destruct (Dot_exists d) eqn:Ed; [|by apply IH].
  cbn [app fold_left]. rewrite readNew_dot_child.
  assert (setDot a (fret d) true (dtype d) acc
          = with_dots (<[a := pre ++ [d]]> (_dots acc)) acc) as ->.
  { rewrite setDot_add_absent.
    - unfold push_dot. rewrite Hpre. by destruct d.
    - done.
    - by apply Z.ltb_lt.
    - rewrite Hpre. intros d' Hd' Heq.
      rewrite fmap_app, fmap_cons in Hnd.
      apply NoDup_app in Hnd as (_ & Hnd & _).
      apply (Hnd (fret d')); [by apply list_elem_of_fmap_2 | rewrite Heq; by left]. }
  destruct (IH (pre ++ [d]) (with_dots (<[a := pre ++ [d]]> (_dots acc)) acc))
    as (Hs & Hf & Hm & Hb & Ho & Hat).
  - done.
  - by rewrite <- app_assoc.
  - cbn. by rewrite lookup_insert_eq.
  - cbn zeta in *. rewrite Hs, Hf, Hm, Hb, Hat.
    split; [done|]. split; [done|]. split; [done|]. split; [done|]. split.
    + intros k Hk. rewrite Ho by done. cbn. by rewrite lookup_insert_ne.
    + cbn. rewrite lookup_insert_eq.
      destruct (List.filter Dot_exists l); [done|].
      by rewrite <- app_assoc.
Qed.

Lemma shown_read_string fd a acc :
  frets_distinct fd →
  0 ≤ a < _strings fd → _strings acc = _strings fd →
  _barres acc = ∅ → _dots acc !! a = None → _markers acc !! a = None →
  let acc' := fold_left readNew_child (writeNew_string fd a) acc in
  _strings acc' = _strings acc ∧ _frets acc' = _frets acc
  ∧ _barres acc' = ∅
  ∧ (∀ k, _dots acc' !! k
          = if decide (k = a)
            then nonempty (List.filter Dot_exists (default [] (_dots fd !! a)))
            else _dots acc !! k)
  ∧ (∀ k, _markers acc' !! k
          = if decide (k = a) then existing_marker (_markers fd !! a)
            else _markers acc !! k).
Proof.
  intros Hfd Ha Hs Hb Hd Hm acc'. subst acc'. unfold writeNew_string.
  rewrite marker_exists_existing, <- filter_exists_dot.
  destruct (negb (dotExists (dot fd a 0)) && negb (Marker_exists (marker fd a)))
    eqn:E.
  - apply andb_true_iff in E as [E1%negb_true_iff E2%negb_true_iff].
    cbn [fold_left]. rewrite E2, (dotExists_filter _ E1).
    repeat (split; [done|]). split; intros k; by case_decide; subst.
  - clear E. cbn [fold_left]. rewrite readNew_child_string, fold_left_app.
    set (acc1 := fold_left (readNew_string_child a)
                   (if Marker_exists (marker fd a) then _ else []) acc).
    assert (_strings acc1 = _strings fd ∧ _frets acc1 = _frets acc
            ∧ _barres acc1 = ∅
            ∧ (∀ k, _dots acc1 !! k = _dots acc !! k)
            ∧ (∀ k, _markers acc1 !! k
                    = if decide (k = a)
                      then (if Marker_exists (marker fd a)
                            then Some (marker fd a) else None)
                      else _markers acc !! k))
      as (A1 & A2 & A3 & A4 & A5).
    { subst acc1. destruct (Marker_exists (marker fd a)) eqn:Em.
      - cbn [fold_left]. rewrite readNew_marker_child.
        destruct (setMarker_header a (mtype (marker fd a)) acc) as (-> & -> & _).
        rewrite setMarker_in by lia.
        rewrite bool_decide_eq_true_2
          by (unfold Marker_exists in Em; by apply bool_decide_eq_true in Em).
        cbn zeta. unfold removeBarres. cbn.
        rewrite removeDot_all by lia. cbn. rewrite Hb, map_filter_empty.
        repeat (split; [done|]). split; intros k.
        + destruct (decide (k = a)) as [->|Hk];
            [by rewrite lookup_delete_eq|by rewrite lookup_delete_ne].
        + case_decide as Hk; [subst; rewrite lookup_insert_eq|
                               by rewrite lookup_insert_ne].
          by destruct (marker fd a).
      - cbn [fold_left]. repeat (split; [done|]).
        intros k. by case_decide; subst. }
    destruct (shown_read_dots a (dot fd a 0) [] acc1)
      as (B1 & B2 & B3 & B4 & B5 & B6).
    { lia. }
    { cbn [app]. rewrite filter_exists_dot.
      destruct (_dots fd !! a) as [l|] eqn:E; [by apply (Hfd a)|constructor]. }
    { by rewrite A4, Hd. }
    cbn zeta in *. rewrite B1, B2, B4, A1, A2, A3.
    repeat (split; [done|]). split; intros k.
    + case_decide as Hk; [subst k|by rewrite (B5 k Hk), A4].
      rewrite B6, A4, Hd. by destruct (List.filter _ _).
    + by rewrite B3, A5.
Qed.

Lemma shown_read_strings fd ss : ∀ acc,
  frets_distinct fd →
  NoDup ss → (∀ s, s ∈ ss → 0 ≤ s < _strings fd) →
  _strings acc = _strings fd → _barres acc = ∅ →
  (∀ s, s ∈ ss → _dots acc !! s = None ∧ _markers acc !! s = None) →
  let acc' := fold_left readNew_child (flat_map (writeNew_string fd) ss) acc in
  _strings acc' = _strings fd ∧ _frets acc' = _frets acc ∧ _barres acc' = ∅
  ∧ (∀ k, _dots acc' !! k
          = if decide (k ∈ ss)
            then nonempty (List.filter Dot_exists (default [] (_dots fd !! k)))
            else _dots acc !! k)
  ∧ (∀ k, _markers acc' !! k
          = if decide (k ∈ ss) then existing_marker (_markers fd !! k)
            else _markers acc !! k).
Proof.
  induction ss as [|a ss IH]; intros acc Hfd Hnd Hin Hs Hb Hfree; cbn [flat_map].
  { cbn. repeat split; try done; intros k;
      by rewrite decide_False by apply not_elem_of_nil. }
  apply NoDup_cons in Hnd as [Ha Hnd]. rewrite fold_left_app.
  destruct (Hfree a) as [Hda Hma]; [by left|].
  destruct (shown_read_string fd a acc) as (Hs1 & Hf1 & Hb1 & Hd1 & Hm1);
    [done | apply Hin; by left | done | done | done | done |].
  cbn zeta in Hs1, Hf1, Hb1, Hd1, Hm1.
  set (acc1 := fold_left readNew_child (writeNew_string fd a) acc) in *.
  destruct (IH acc1) as (Hs2 & Hf2 & Hb2 & Hd2 & Hm2).
  - done.
  - done.
  - intros s Hsin. apply Hin. by right.
  - by rewrite Hs1.
  - done.
  - intros s Hsin. rewrite Hd1, Hm1.
    rewrite !decide_False by (intros ->; done). apply Hfree. by right.
  - cbn zeta. rewrite Hs2, Hf2, Hb2, Hf1.
    split; [done|]. split; [done|]. split; [done|]. split.
    + intros k. rewrite Hd2, Hd1.
      destruct (decide (k ∈ ss)) as [Hk|Hk], (decide (k = a)) as [->|Hne],
        (decide (_ ∈ a :: ss)) as [Hc|Hc]; try done.
      all: try (destruct Hc; apply elem_of_cons; auto).
      apply elem_of_cons in Hc as [?|?]; done.
    + intros k. rewrite Hm2, Hm1.
      destruct (decide (k ∈ ss)) as [Hk|Hk], (decide (k = a)) as [->|Hne],
        (decide (_ ∈ a :: ss)) as [Hc|Hc]; try done.
      all: try (destruct Hc; apply elem_of_cons; auto).
      apply elem_of_cons in Hc as [?|?]; done.
Qed.

Lemma shown_read_barre fd f acc :
  _strings acc = _strings fd →
  fold_left readNew_child (writeNew_barre fd f) acc
  = match shown_barre fd (_barres fd !! f) with
    | Some b => with_barres (<[f := b]> (_barres acc)) acc
    | None => acc
    end.
Proof.
  intros Hs. unfold writeNew_barre, barre, shown_barre. cbn zeta.
  destruct (_barres fd !! f) as [b|] eqn:E; [|done].
  destruct (Barre_exists b) eqn:Eb; [|done].
  cbn [negb fold_left andb]. rewrite readNew_child_barre.
  unfold setBarre. unfold Barre_exists in Eb. apply Z.ltb_lt in Eb.
  destruct (Z.eqb_spec (startString b) (-1)); [lia|].
  rewrite Hs. destruct (Z.leb_spec 0 (startString b)); [|lia].
  rewrite (andb_comm (startString b <? _strings fd)).
  rewrite <- !andb_assoc. cbn [andb].
  rewrite (andb_assoc (-1 <=? endString b)), (andb_comm (-1 <=? endString b)),
    <- andb_assoc.
  destruct (_ && _); [|done]. by destruct b.
Qed.

Lemma shown_read_barres fd fs : ∀ acc,
  NoDup fs → _strings acc = _strings fd →
  let acc' := fold_left readNew_child (flat_map (writeNew_barre fd) fs) acc in
  _dots acc' = _dots acc ∧ _markers acc' = _markers acc
  ∧ _strings acc' = _strings acc ∧ _frets acc' = _frets acc
  ∧ (∀ k, _barres acc' !! k
          = if decide (k ∈ fs)
            then (match shown_barre fd (_barres fd !! k) with
                  | Some b => Some b
                  | None => _barres acc !! k
                  end)
            else _barres acc !! k).
Proof.
  induction fs as [|a fs IH]; intros acc Hnd Hs; cbn [flat_map].
  { cbn. repeat split; try done; intros k;
      by rewrite decide_False by apply not_elem_of_nil. }
  apply NoDup_cons in Hnd as [Ha Hnd]. rewrite fold_left_app.
  rewrite shown_read_barre by done.
  set (acc1 := match shown_barre fd (_barres fd !! a) with
               | Some b => _ | None => acc end).
  assert (_dots acc1 = _dots acc ∧ _markers acc1 = _markers acc
          ∧ _strings acc1 = _strings acc ∧ _frets acc1 = _frets acc
          ∧ ∀ k, _barres acc1 !! k
                 = if decide (k = a)
                   then (match shown_barre fd (_barres fd !! a) with
                         | Some b => Some b
                         | None => _barres acc !! a
                         end)
                   else _barres acc !! k) as (Hd1 & Hm1 & Hs1 & Hf1 & Hb1).
  { subst acc1. destruct (shown_barre fd (_barres fd !! a)) as [b|]; cbn.
    - repeat split; try done. intros k. case_decide; subst.
      + by rewrite lookup_insert_eq.
      + by rewrite lookup_insert_ne.
    - repeat split; try done. intros k. by case_decide; subst. }
  destruct (IH acc1) as (Hd2 & Hm2 & Hs2 & Hf2 & Hb2); [done | by rewrite Hs1 |].
  cbn zeta. rewrite Hd2, Hm2, Hs2, Hf2, Hd1, Hm1, Hs1, Hf1.
  repeat (split; [done|]).
  intros k. rewrite Hb2, Hb1.
  destruct (decide (k ∈ fs)) as [Hk|Hk], (decide (k = a)) as [->|Hne],
    (decide (_ ∈ a :: fs)) as [Hc|Hc]; try done.
  all: try (destruct Hc; apply elem_of_cons; auto).
  apply elem_of_cons in Hc as [?|?]; done.
Qed.

(** X16.  What the current format keeps of any diagram in which no
    string holds two existing dots at the same fret (every reachable
    diagram).  Written by [writeNew] and read by [readNew] into a new
    diagram with the same counts, the result holds, on the strings of
    the diagram, the existing dots in their order and the CIRCLE and
    CROSS markers, and at the visible frets the existing barres whose
    ends are on strings (or open).  Everything else is lost: dots that
    do not exist, markers of type NONE, entries outside the strings, and
    barres at frets beyond the fret count. *)
Theorem writeNew_readNew_shown (fd : FretDiagram) :
  frets_distinct fd →
  let fd' := readNew (writeNew fd) (makeFretDiagram (_strings fd) (_frets fd)) in
  _strings fd' = _strings fd ∧ _frets fd' = _frets fd
  ∧ (∀ s, _dots fd' !! s
          = if decide (0 ≤ s < _strings fd)
            then nonempty (List.filter Dot_exists (default [] (_dots fd !! s)))
            else None)
  ∧ (∀ s, _markers fd' !! s
          = if decide (0 ≤ s < _strings fd)
            then existing_marker (_markers fd !! s) else None)
  ∧ (∀ f, _barres fd' !! f
          = if decide (1 ≤ f ≤ _frets fd)
            then shown_barre fd (_barres fd !! f) else None).
Proof.
  intros Hfd fd'. subst fd'. unfold readNew, writeNew.
  rewrite fold_left_app.
  destruct (shown_read_strings fd (seqZ 0 (_strings fd))
              (makeFretDiagram (_strings fd) (_frets fd)))
    as (Hs1 & Hf1 & Hb1 & Hd1 & Hm1);
    [done | apply NoDup_seqZ | by intros s ?%elem_of_seqZ | done | done
     | intros s _; cbn; by rewrite !lookup_empty |].
  cbn zeta in Hs1, Hf1, Hb1, Hd1, Hm1.
  set (acc1 := fold_left readNew_child (flat_map (writeNew_string fd) _) _) in *.
  destruct (shown_read_barres fd (seqZ 1 (_frets fd)) acc1)
    as (Hd2 & Hm2 & Hs2 & Hf2 & Hb2); [apply NoDup_seqZ | done |].
  cbn zeta in *. rewrite Hs2, Hf2, Hs1, Hf1.
  split; [done|]. split; [done|]. split; [|split].
  - intros s. rewrite Hd2, Hd1. cbn. rewrite lookup_empty.
    case_decide as Hk; rewrite elem_of_seqZ in Hk.
    + by rewrite decide_True by lia.
    + by rewrite decide_False by lia.
  - intros s. rewrite Hm2, Hm1. cbn. rewrite lookup_empty.
    case_decide as Hk; rewrite elem_of_seqZ in Hk.
    + by rewrite decide_True by lia.
    + by rewrite decide_False by lia.
  - intros f. rewrite Hb2, Hb1, lookup_empty.
    case_decide as Hk; rewrite elem_of_seqZ in Hk.
    + rewrite decide_True by lia. by destruct (shown_barre _ _).
    + by rewrite decide_False by lia.
Qed.

Lemma writeNew_readNew_shown_witness :
  let fd := setBarre 0 (-1) 7 (setDot 2 3 false DOT_NORMAL (makeFretDiagram 6 4)) in
  frets_distinct fd
  ∧ _markers (readNew (writeNew fd) (makeFretDiagram (_strings fd) (_frets fd))) !! 2
    = None
  ∧ _barres (readNew (writeNew fd) (makeFretDiagram (_strings fd) (_frets fd))) !! 7
    = None.
Proof.
  cbn zeta.
  assert (frets_distinct
            (setBarre 0 (-1) 7 (setDot 2 3 false DOT_NORMAL (makeFretDiagram 6 4))))
    as Hfd.
  { apply (frets_distinct_same (setDot 2 3 false DOT_NORMAL (makeFretDiagram 6 4)));
      [done|].
    apply frets_distinct_setDot. intros s l Hl. by cbn in Hl. }
  split; [exact Hfd|].
  destruct (writeNew_readNew_shown _ Hfd) as (_ & _ & _ & Hm & Hb).
  cbn zeta in *. by rewrite Hm, Hb.
Defined.

(** ** Every way to build a diagram stays among the reachable ones *)

Lemma scan_reachable cs : ∀ i st,
  reachable (scan_fd st) → reachable (scan_fd (scan i cs st)).
Proof.
  induction cs as [|c cs IH]; intros i st H; [done|].
  cbn [scan]. apply IH. unfold scan_step.
  repeat case_match; cbn; try done; by constructor.
Qed.

Lemma setDots_reachable {A} (f : A → Z * Z * bool * FretDotType) l : ∀ fd,
  reachable fd →
  reachable (fold_left (λ acc x, setDot (f x).1.1.1 (f x).1.1.2 (f x).1.2 (f x).2 acc)
                       l fd).
Proof.
  induction l as [|x l IH]; intros fd H; [done|].
  cbn [fold_left]. apply IH. by constructor.
Qed.

(** X17.  The diagrams that [createFromString] parses, that [init]
    builds for a chord and that the two readers load are built by the
    mutators alone, so what holds of every reachable diagram holds of
    them: no empty dot vector, dots and markers on strings of the
    diagram, no two existing dots of a string at one fret. *)
Theorem constructors_reachable :
  (∀ strings0 frets0 s, reachable (createFromString strings0 frets0 s))
  ∧ (∀ stringData notes fd, reachable fd → reachable (init stringData notes fd))
  ∧ (∀ doc fd, reachable fd → reachable (readNew doc fd))
  ∧ (∀ doc fd, reachable fd → reachable (read doc fd)).
Proof.
  split; [|split; [|split]].
  - intros n k s. unfold createFromString. cbn zeta.
    set (st := scan 0 _ _).
    assert (reachable (scan_fd st)) as Hst.
    { apply scan_reachable. cbn. repeat constructor. }
    assert (reachable (if 0 <? scan_offset st
                       then setFretOffset (scan_offset st) (scan_fd st)
                       else scan_fd st)) as Ho
      by (case_match; [by constructor|done]).
    pose proof (setDots_reachable
                  (λ d : Z * Z, (d.1, d.2 - scan_offset st, true, DOT_NORMAL))
                  (scan_dotsToAdd st) _ Ho) as Hd.
    cbn [fst snd] in Hd.
    destruct (0 <=? scan_barreString st); [by constructor|done].
  - intros sd notes fd H. unfold init.
    destruct sd as [[n k]|]; cbn [fst snd]; [|by constructor].
    constructor.
    assert (∀ ss acc, reachable acc →
              reachable (fold_left (λ a string, setMarker string MARKER_CROSS a)
                                   ss acc)) as Hm.
    { induction ss as [|x ss IH]; intros acc Ha; [done|].
      cbn [fold_left]. apply IH. by constructor. }
    assert (∀ acc, reachable acc →
              reachable (fold_left
                           (λ a (note : option (Z * Z)),
                              match note with
                              | Some sf => setDot sf.1 sf.2 false DOT_NORMAL a
                              | None => a
                              end) notes acc)) as Hn.
    { induction notes as [|[x|] l IH]; intros acc Ha; [done| |by apply IH].
      cbn [fold_left]. apply IH. by constructor. }
    apply Hn, Hm. by constructor.
  - intros doc fd. apply readNew_reachable.
  - intros doc fd. apply read_reachable.
Qed.

Lemma constructors_reachable_witness :
  reachable (makeFretDiagram 6 4)
  ∧ reachable (init (Some (6, 19)) [Some (0, 3)] (makeFretDiagram 6 4)).
Proof.
  assert (reachable (makeFretDiagram 6 4)) as H by constructor.
  split; [exact H|].
  by apply (proj1 (proj2 constructors_reachable)).
Defined.
